(** * theano/gof/toolbox.py: graph features, change log and transactions

    A shallow embedding of the [Feature] classes of [theano.gof.toolbox]
    ([Bookkeeper], [GetCheckpoint], [LambdExtract], [History], [Validator],
    [ReplaceValidate], [NodeFinder], [PreserveNames],
    [PreserveVariableAttributes], [NoOutputFromInplace]) as
    state-and-exception passing functions, followed by the properties of
    the change log, of the replace-and-validate transactions, of the node
    index, of the names and guards of the variables and of the check of
    the outputs.

    Python objects are mutable and exceptions keep the mutations made
    before they were raised, so every method is a function from a world to
    a result (a value or a raised exception) and the world it leaves.

    The graph class itself (theano/gof/fg.py) is outside the file: its
    edit primitives are modelled from the specification, and what
    [fgraph.replace] and the other features do is a parameter
    ([External]).  [PrintListener], pickling and the timing of
    [validate_] are left out. *)

From stdpp Require Import base option list gmap sets strings countable.
From Stdlib Require DecimalString.

Open Scope string_scope.
Open Scope list_scope.

(** ** Exceptions *)

Inductive ExnType :=
| TypeError | Exception | RuntimeError | AssertionError | KeyError
| ValueError | IndexError | AttributeError | UnboundLocalError
| InconsistencyError | AlreadyThere | ReplacementDidntRemovedError.

(** An instance of a subclass of [Exception]: its class and its [args]. *)
Record Exn := mkExn { exn_type : ExnType; exn_args : list string }.

#[global] Instance ExnType_eq_dec : EqDecision ExnType.
Proof. solve_decision. Defined.
#[global] Instance Exn_eq_dec : EqDecision Exn.
Proof. solve_decision. Defined.

Fixpoint join (sep : string) (l : list string) : string :=
  match l with
  | [] => ""
  | [a] => a
  | a :: l' => a +:+ sep +:+ join sep l'
  end.

(** [str(e)]: the only argument when there is one, the printed tuple of the
    arguments otherwise (quoting of the arguments is not escaped). *)
Definition str (e : Exn) : string :=
  match exn_args e with
  | [] => ""
  | [a] => a
  | l => "(" +:+ join ", " ((λ a, "'" +:+ a +:+ "'") <$> l) +:+ ")"
  end.

(** [sub in s] on Python strings. *)
Fixpoint contains (sub s : string) : bool :=
  String.prefix sub s ||
  match s with
  | EmptyString => false
  | String _ s' => contains sub s'
  end.

Inductive Res (A : Type) :=
| Ok (a : A)
| Raise (e : Exn).
Arguments Ok {A} a.
Arguments Raise {A} e.

(** ** The graph (external collaborator) *)

(** The identity of a variable. *)
Definition Var := nat.

(** What [hash(op)] does: ops are dictionary keys by their hash and [==];
    an op may be unhashable ([TypeError]) or have a [__hash__] that fails
    with another exception. *)
Inductive Op :=
| OpHashable (k : nat)
| OpUnhashable (k : nat)
| OpBroken (k : nat).

Record Apply := mkApply { apply_id : nat; op : Op }.

(** The owner of an input slot: an apply node, or the pseudo-node
    ['output'] for the outputs of the graph. *)
Inductive Owner :=
| Output
| Node (n : Apply).

(** [reason] arguments: [None], a string, or the tuple
    [("Revert", reason)] built by [LambdExtract]. *)
Inductive Reason :=
| RNone
| RStr (s : string)
| RRevert (r : Reason).

(** Members of a [remove] list: apply nodes or variables. *)
Inductive Item :=
| INode (n : Apply)
| IVar (v : Var).

#[global] Instance Op_eq_dec : EqDecision Op.
Proof. solve_decision. Defined.
#[global] Instance Apply_eq_dec : EqDecision Apply.
Proof. solve_decision. Defined.
#[global] Instance Owner_eq_dec : EqDecision Owner.
Proof. solve_decision. Defined.
#[global] Instance Reason_eq_dec : EqDecision Reason.
Proof. solve_decision. Defined.
#[global] Instance Item_eq_dec : EqDecision Item.
Proof. solve_decision. Defined.

#[global] Instance Op_countable : Countable Op.
Proof.
  refine (inj_countable'
    (λ o, match o with
          | OpHashable k => inl k
          | OpUnhashable k => inr (inl k)
          | OpBroken k => inr (inr k)
          end)
    (λ s, match s with
          | inl k => OpHashable k
          | inr (inl k) => OpUnhashable k
          | inr (inr k) => OpBroken k
          end) _).
  by intros [].
Defined.

#[global] Instance Apply_countable : Countable Apply.
Proof.
  refine (inj_countable' (λ n, (apply_id n, op n))
                         (λ p, mkApply p.1 p.2) _).
  by intros [].
Defined.

#[global] Instance Owner_countable : Countable Owner.
Proof.
  refine (inj_countable'
    (λ o, match o with Output => None | Node n => Some n end)
    (λ s, match s with None => Output | Some n => Node n end) _).
  by intros [].
Defined.

#[global] Instance Item_countable : Countable Item.
Proof.
  refine (inj_countable'
    (λ o, match o with INode n => inl n | IVar v => inr v end)
    (λ s, match s with inl n => INode n | inr v => IVar v end) _).
  by intros [].
Defined.

(** Values of the attributes that features set on a graph. *)
Inductive Attr :=
| AGetCheckpoint (nb : nat)      (* a [GetCheckpoint] object and its counter *)
| APartial (method : string)     (* [partial(self.method, fgraph)] *)
| AOther.

#[global] Instance Attr_eq_dec : EqDecision Attr.
Proof. solve_decision. Defined.

(** One call of the edge-rewrite primitive, as the graph received it. *)
Record ChangeInputCall := mkCall {
  call_node : Owner; call_i : nat; call_new_r : Var; call_reason : Reason }.

(** Modelled from the spec: the [FunctionGraph] class (theano/gof/fg.py),
    "owns an ordered set of operation-application nodes and
    value-producing variables ... exposes edit primitives (import, prune,
    change-input) and an extensibility slot for attaching arbitrary named
    callables".  [edges] is the edge topology: the variable at each input
    slot of each node and at each output of the graph.  [calls] records the
    calls that [change_input] received. *)
Record FunctionGraph := mkFunctionGraph {
  graph_id : nat;
  edges : gmap (Owner * nat) Var;
  apply_nodes : gset Apply;
  variables : gset Var;
  attrs : gmap string Attr;
  calls : list ChangeInputCall
}.

Definition hasattr (g : FunctionGraph) (name : string) : bool :=
  bool_decide (is_Some (attrs g !! name)).

Definition setattr (name : string) (v : Attr) (g : FunctionGraph) : FunctionGraph :=
  mkFunctionGraph (graph_id g) (edges g) (apply_nodes g) (variables g)
                  (<[name := v]> (attrs g)) (calls g).

Definition delattr (name : string) (g : FunctionGraph) : FunctionGraph :=
  mkFunctionGraph (graph_id g) (edges g) (apply_nodes g) (variables g)
                  (delete name (attrs g)) (calls g).

Definition repoint (node : Owner) (i : nat) (new_r : Var) (reason : Reason)
    (g : FunctionGraph) : FunctionGraph :=
  mkFunctionGraph (graph_id g) (<[(node, i) := new_r]> (edges g))
                  (apply_nodes g) (variables g) (attrs g)
                  (calls g ++ [mkCall node i new_r reason]).

Definition set_apply_nodes (s : gset Apply) (g : FunctionGraph) : FunctionGraph :=
  mkFunctionGraph (graph_id g) (edges g) s (variables g) (attrs g) (calls g).

Definition set_variables (s : gset Var) (g : FunctionGraph) : FunctionGraph :=
  mkFunctionGraph (graph_id g) (edges g) (apply_nodes g) s (attrs g) (calls g).

(** The primitive edits a rewrite is made of. *)
Inductive Edit :=
| EChangeInput (node : Owner) (i : nat) (new_r : Var)
| EImport (n : Apply)
| EPrune (n : Apply)
| EImportR (v : Var)
| EPruneR (v : Var).

(** What the toolbox takes from its surroundings: the behaviour of
    [fgraph.replace] (the primitive edits it performs on a graph, in
    order, and the exception it ends with, if any: a rewrite changes the
    graph through the edit primitives only, which notify the feature
    under study), the validity checks of the features registered before
    and after the one under study, [graph.io_toposort] on the inputs and
    outputs of a graph, and [config.optimizer_verbose]. *)
Class External := {
  fg_replace : FunctionGraph → Var → Var → Reason → list Edit * option Exn;
  validate_before : FunctionGraph → option Exn;
  validate_after : FunctionGraph → option Exn;
  io_toposort : FunctionGraph → list Apply;
  optimizer_verbose : bool
}.

(** ** Worlds and the state-and-exception monad *)

(** What [print] wrote. *)
Inductive Printed :=
| PBug (e : Exn) (reason : Reason)
| PValidateFailed (r : Var) (reason : Reason) (e : Exn)
| PValidateFailedIn (r : option Var) (function : string) (e : Exn)
| PReplaced (reason : Reason) (r new_r : Var)
| PWarning
| PReasonReplacements (reason : Reason) (replacements : list (Var * Var))
| POffendingNode (n : Apply)
| POffendingNotHashable.

(** The fixed text of each message. *)
Definition banner (p : Printed) : string :=
  match p with
  | PBug _ _ => "<<!! BUG IN FGRAPH.REPLACE OR A LISTENER !!>>"
  | PValidateFailed _ _ _ | PValidateFailedIn _ _ _ => "validate failed on node"
  | PReplaced _ _ _ | PReasonReplacements _ _ => ""
  | PWarning => "WARNING: An optimization wanted to replace a Variable in the graph, but the replacement for it doesn't remove it. We disabled the optimization. Your function runs correctly, but it would be appreciated if you submit this problem to the mailing list theano-users so that we can fix it."
  | POffendingNode _ => "OFFENDING node"
  | POffendingNotHashable => "OFFENDING node not hashable"
  end.

(** A graph, the feature instance [self] under study, and the two
    output streams. *)
Record World (S : Type) := mkWorld {
  fgraph : FunctionGraph;
  self : S;
  stdout : list Printed;
  stderr : list Printed
}.
Arguments mkWorld {S} _ _ _ _.
Arguments fgraph {S} _.
Arguments self {S} _.
Arguments stdout {S} _.
Arguments stderr {S} _.

Definition M (S A : Type) : Type := World S → Res A * World S.

Definition ret {S A} (a : A) : M S A := λ w, (Ok a, w).

Definition bind {S A B} (m : M S A) (k : A → M S B) : M S B :=
  λ w, match m w with
       | (Ok a, w') => k a w'
       | (Raise e, w') => (Raise e, w')
       end.

Definition raise {S A} (e : Exn) : M S A := λ w, (Raise e, w).

(** [try: m except Exception as e: h e]. *)
Definition try_except {S A} (m : M S A) (h : Exn → M S A) : M S A :=
  λ w, match m w with
       | (Ok a, w') => (Ok a, w')
       | (Raise e, w') => h e w'
       end.

Declare Scope py_scope.
Delimit Scope py_scope with py.
Notation "'let*' x ':=' m 'in' k" := (bind m (λ x, k))
  (at level 10, x name, m at level 100, k at level 200) : py_scope.
Notation "m '>>' k" := (bind m (λ _, k))
  (at level 100, k at level 200, right associativity) : py_scope.
Open Scope py_scope.

Definition get_fgraph {S} : M S FunctionGraph := λ w, (Ok (fgraph w), w).
Definition get_self {S} : M S S := λ w, (Ok (self w), w).

Definition upd_fgraph {S} (f : FunctionGraph → FunctionGraph) (w : World S) : World S :=
  mkWorld (f (fgraph w)) (self w) (stdout w) (stderr w).

Definition upd_self {S} (f : S → S) (w : World S) : World S :=
  mkWorld (fgraph w) (f (self w)) (stdout w) (stderr w).

Definition modify_fgraph {S} (f : FunctionGraph → FunctionGraph) : M S unit :=
  λ w, (Ok (), upd_fgraph f w).

Definition modify_self {S} (f : S → S) : M S unit :=
  λ w, (Ok (), upd_self f w).

Definition print {S} (p : Printed) : M S unit :=
  λ w, (Ok (), mkWorld (fgraph w) (self w) (stdout w ++ [p]) (stderr w)).

Definition print_err {S} (p : Printed) : M S unit :=
  λ w, (Ok (), mkWorld (fgraph w) (self w) (stdout w) (stderr w ++ [p])).

(** [for x in l: body x]; an exception leaves the loop. *)
Fixpoint for_each {S A} (l : list A) (body : A → M S unit) : M S unit :=
  match l with
  | [] => ret ()
  | x :: l' => body x >> for_each l' body
  end.

(** ** class Feature *)

(** The callbacks the graph dispatches on the class of [self];
    [validate] is [None] for a class that does not define it. *)
Class Feature (S : Type) := {
  on_import : Apply → Reason → M S unit;
  on_prune : Apply → Reason → M S unit;
  on_change_input : Owner → nat → Var → Var → Reason → M S unit;
  validate : option (M S unit)
}.

(** The defaults of the base class. *)
Module FeatureBase.

Definition on_import {S} (node : Apply) (reason : Reason) : M S unit := ret ().

Definition on_prune {S} (node : Apply) (reason : Reason) : M S unit := ret ().

Definition on_change_input {S} (node : Owner) (i : nat) (r new_r : Var)
    (reason : Reason) : M S unit := ret ().

End FeatureBase.

(** ** The edit primitives of the graph *)

Section Primitives.
Context {ext : External} {S : Type} {cls : Feature S}.

(** Modelled from the spec: the edge-rewrite primitive
    [FunctionGraph.change_input] (theano/gof/fg.py).  "[on_change_input]
    ... invoked immediately after an edge at [position] on [node] is
    repointed from [old_value] to [new_value]"; a slot that does not exist
    is an [IndexError], as [node.inputs[i]] is. *)
Definition change_input (node : Owner) (i : nat) (new_r : Var)
    (reason : Reason) : M S unit :=
  let* g := get_fgraph in
  match edges g !! (node, i) with
  | None => raise (mkExn IndexError ["list index out of range"])
  | Some r =>
      modify_fgraph (repoint node i new_r reason) >>
      on_change_input node i r new_r reason
  end.

(** Modelled from the spec: node import, "[on_import] ... invoked just
    before a node is connected into the graph". *)
Definition import_node (n : Apply) (reason : Reason) : M S unit :=
  on_import n reason >>
  modify_fgraph (λ g, set_apply_nodes ({[n]} ∪ apply_nodes g) g).

(** Modelled from the spec: node pruning, "[on_prune] ... invoked just
    after a node is fully disconnected". *)
Definition prune_node (n : Apply) (reason : Reason) : M S unit :=
  modify_fgraph (λ g, set_apply_nodes (apply_nodes g ∖ {[n]}) g) >>
  on_prune n reason.

Definition run_edit (reason : Reason) (e : Edit) : M S unit :=
  match e with
  | EChangeInput node i new_r => change_input node i new_r reason
  | EImport n => import_node n reason
  | EPrune n => prune_node n reason
  | EImportR v => modify_fgraph (λ g, set_variables ({[v]} ∪ variables g) g)
  | EPruneR v => modify_fgraph (λ g, set_variables (variables g ∖ {[v]}) g)
  end.

Definition run_edits (reason : Reason) (es : list Edit) : M S unit :=
  for_each es (run_edit reason).

(** [fgraph.replace(r, new_r, reason=reason, verbose=False)]: the edits
    that the graph decides on, through the primitives, then its exception
    if it ends with one. *)
Definition replace (r new_r : Var) (reason : Reason) : M S unit :=
  let* g := get_fgraph in
  let '(es, err) := fg_replace g r new_r reason in
  run_edits reason es >>
  match err with
  | Some e => raise e
  | None => ret ()
  end.

(** Modelled from the spec: [fgraph.execute_callbacks('validate')],
    "invokes every registered validity check contributed by all observers
    attached to the graph", in registration order. *)
Definition execute_callbacks_validate : M S unit :=
  let* g := get_fgraph in
  match validate_before g with
  | Some e => raise e
  | None =>
      match validate with Some v => v | None => ret () end >>
      let* g' := get_fgraph in
      match validate_after g' with
      | Some e => raise e
      | None => ret ()
      end
  end.

End Primitives.

(** ** class Bookkeeper(Feature) *)

Module Bookkeeper.
Section Bookkeeper.
Context {ext : External} {S : Type} {cls : Feature S}.

Definition on_attach : M S unit :=
  let* g := get_fgraph in
  for_each (io_toposort g) (λ node, on_import node (RStr "on_attach")).

Definition on_detach : M S unit :=
  let* g := get_fgraph in
  for_each (io_toposort g) (λ node, on_prune node (RStr "Bookkeeper.detach")).

End Bookkeeper.
End Bookkeeper.

(** ** class LambdExtract *)

Record LambdExtract := mkLambdExtract {
  le_node : Owner; le_i : nat; le_r : Var; le_reason : Reason }.

#[global] Instance LambdExtract_eq_dec : EqDecision LambdExtract.
Proof. solve_decision. Defined.

(** The state of an instance of [History] or of [ReplaceValidate]:
    [history] maps a graph to its undo log ([Some l]) or to [None] while
    the log is not recording; [_nodes_removed] and [fail_validate] are
    attributes that exist once [ReplaceValidate.on_attach] has set them. *)
Record Self := mkSelf {
  history : gmap nat (option (list LambdExtract));
  _nodes_removed : option (gset Item);
  fail_validate : option bool
}.

Definition set_history (h : gmap nat (option (list LambdExtract))) (s : Self) : Self :=
  mkSelf h (_nodes_removed s) (fail_validate s).
Definition set_nodes_removed (r : option (gset Item)) (s : Self) : Self :=
  mkSelf (history s) r (fail_validate s).
Definition set_fail_validate (b : option bool) (s : Self) : Self :=
  mkSelf (history s) (_nodes_removed s) b.

Definition attribute_error {S A} (name : string) : M S A :=
  raise (mkExn AttributeError [name]).

(** [self.history[fgraph]]. *)
Definition history_get : M Self (option (list LambdExtract)) :=
  let* g := get_fgraph in
  let* s := get_self in
  match history s !! graph_id g with
  | Some h => ret h
  | None => raise (mkExn KeyError ["fgraph"])
  end.

(** [self.history[fgraph] = h]. *)
Definition history_set (h : option (list LambdExtract)) : M Self unit :=
  let* g := get_fgraph in
  modify_self (λ s, set_history (<[graph_id g := h]> (history s)) s).

(** ** class GetCheckpoint *)

Module GetCheckpoint.

(** [__call__], on the object stored in [fgraph.checkpoint]. *)
Definition call (nb : nat) : M Self nat :=
  history_set (Some []) >>
  modify_fgraph (setattr "checkpoint" (AGetCheckpoint (nb + 1))) >>
  ret (nb + 1).

End GetCheckpoint.

(** [fgraph.checkpoint()]. *)
Definition fgraph_checkpoint : M Self nat :=
  let* g := get_fgraph in
  match attrs g !! "checkpoint" with
  | Some (AGetCheckpoint nb) => GetCheckpoint.call nb
  | Some _ => raise (mkExn TypeError ["object is not callable"])
  | None => attribute_error "checkpoint"
  end.

(** [fgraph.checkpoint.nb]. *)
Definition fgraph_checkpoint_nb : M Self nat :=
  let* g := get_fgraph in
  match attrs g !! "checkpoint" with
  | Some (AGetCheckpoint nb) => ret nb
  | _ => attribute_error "checkpoint"
  end.

Module LambdExtractM.
Section LambdExtract.
Context {ext : External} {cls : Feature Self}.

(** [__call__]. *)
Definition call (f : LambdExtract) : M Self unit :=
  change_input (le_node f) (le_i f) (le_r f) (RRevert (le_reason f)).

End LambdExtract.
End LambdExtractM.

(** ** class History(Feature) *)

Module History.
Section History.
Context {ext : External} {cls : Feature Self}.

Definition on_attach : M Self unit :=
  let* g := get_fgraph in
  if hasattr g "checkpoint" || hasattr g "revert" then
    raise (mkExn AlreadyThere
      ["History feature is already present or in conflict with another plugin."])
  else
    history_set (Some []) >>
    modify_fgraph (setattr "checkpoint" (AGetCheckpoint 0)) >>
    modify_fgraph (setattr "revert" (APartial "revert")).

Definition unpickle : M Self unit :=
  modify_fgraph (setattr "checkpoint" (AGetCheckpoint 0)) >>
  modify_fgraph (setattr "revert" (APartial "revert")).

(** [del fgraph.name]. *)
Definition del_attr (name : string) : M Self unit :=
  let* g := get_fgraph in
  if hasattr g name then modify_fgraph (delattr name)
  else attribute_error name.

Definition on_detach : M Self unit :=
  del_attr "checkpoint" >>
  del_attr "revert" >>
  let* _ := history_get in
  let* g := get_fgraph in
  modify_self (λ s, set_history (delete (graph_id g) (history s)) s).

Definition on_change_input (node : Owner) (i : nat) (r new_r : Var)
    (reason : Reason) : M Self unit :=
  let* h := history_get in
  match h with
  | None => ret ()
  | Some h => history_set (Some (h ++ [mkLambdExtract node i r reason]))
  end.

(** [while h: f = h.pop(); f()], on the records of [h] most recent
    first; [h] is empty when the loop ends. *)
Fixpoint revert_loop (stack : list LambdExtract) : M Self unit :=
  match stack with
  | [] => ret ()
  | f :: stack' => LambdExtractM.call f >> revert_loop stack'
  end.

Definition revert (checkpoint : nat) : M Self unit :=
  let* h := history_get in
  history_set None >>
  let* nb := fgraph_checkpoint_nb in
  if bool_decide (nb = checkpoint) then
    match h with
    | Some l => revert_loop (reverse l) >> history_set (Some [])
    | None => history_set None
    end
  else raise (mkExn AssertionError []).

End History.

(** The class as the graph sees it. *)
Definition feature : Feature Self :=
  Build_Feature Self FeatureBase.on_import FeatureBase.on_prune
                on_change_input None.

End History.

(** [fgraph.revert(chk)]. *)
Definition fgraph_revert {ext : External} {cls : Feature Self}
    (chk : nat) : M Self unit :=
  let* g := get_fgraph in
  match attrs g !! "revert" with
  | Some (APartial "revert") => History.revert chk
  | Some _ => raise (mkExn TypeError ["object is not callable"])
  | None => attribute_error "revert"
  end.

(** ** class Validator(Feature) *)

(** What [validate_] reads of the frame that called it:
    [uf_info.function], the truth of [uf.f_locals.get('verbose', False)]
    and [uf.f_locals.get('r', "")]. *)
Record Frame := mkFrame {
  f_function : string; f_verbose : bool; f_r : option Var }.

Module Validator.
Section Validator.
Context {ext : External} {cls : Feature Self}.

Definition on_attach : M Self unit :=
  let* g := get_fgraph in
  if hasattr g "validate" || hasattr g "validate_time" then
    raise (mkExn AlreadyThere
      ["Validator feature is already present or in conflict with another plugin."])
  else
    modify_fgraph (setattr "validate" (APartial "validate_")) >>
    modify_fgraph (setattr "consistent" (APartial "consistent_")).

Definition unpickle : M Self unit :=
  modify_fgraph (setattr "validate" (APartial "validate_")) >>
  modify_fgraph (setattr "consistent" (APartial "consistent_")).

Definition on_detach : M Self unit :=
  History.del_attr "validate" >>
  History.del_attr "consistent".

(** The wall-clock time added to [fgraph.profile.validate_time] is left
    out. *)
Definition validate_ (uf : Frame) : M Self unit :=
  try_except execute_callbacks_validate
    (λ e,
      if bool_decide (f_function uf = "replace_all_validate") then raise e
      else
        (if f_verbose uf
         then print (PValidateFailedIn (f_r uf) (f_function uf) e)
         else ret ()) >>
        raise e).

(** [fgraph.validate()], called from the frame [uf]. *)
Definition fgraph_validate (uf : Frame) : M Self unit :=
  let* g := get_fgraph in
  match attrs g !! "validate" with
  | Some (APartial "validate_") => validate_ uf
  | Some _ => raise (mkExn TypeError ["object is not callable"])
  | None => attribute_error "validate"
  end.

Definition consistent_ : M Self bool :=
  try_except (fgraph_validate (mkFrame "consistent_" false None) >> ret true)
             (λ _, ret false).

End Validator.
End Validator.

(** ** class ReplaceValidate(History, Validator) *)

Module ReplaceValidate.

Definition s1 := "The type of the replacement must be the same".
Definition s2 := "does not belong to this FunctionGraph".
Definition s3 := "maximum recursion depth exceeded".
Definition please_report :=
  "Please, report this to theano-dev mailing list. As a temporary work around, you can raise Python stack limit with: import sys; sys.setrecursionlimit(10000)".

(** [rm in fgraph.apply_nodes or rm in fgraph.variables]. *)
Definition present (g : FunctionGraph) (rm : Item) : bool :=
  match rm with
  | INode n => bool_decide (n ∈ apply_nodes g)
  | IVar v => bool_decide (v ∈ variables g)
  end.

(** The value of a local variable that the [for] loop over
    [replacements] binds, after the loop: unbound when the loop body
    never ran. *)
Definition local {A} (name : string) (v : option A) : M Self A :=
  match v with
  | Some a => ret a
  | None => raise (mkExn UnboundLocalError
      ["local variable '" +:+ name +:+ "' referenced before assignment"])
  end.

(** What [for r, new_r in replacements] leaves in [r] and [new_r]. *)
Definition bound_r (replacements : list (Var * Var)) : option Var :=
  match list.last replacements with Some (r, _) => Some r | None => None end.
Definition bound_new_r (replacements : list (Var * Var)) : option Var :=
  match list.last replacements with Some (_, new_r) => Some new_r | None => None end.

Section ReplaceValidate.
Context {ext : External} {cls : Feature Self}.

Definition unpickle : M Self unit :=
  History.unpickle >>
  Validator.unpickle >>
  modify_fgraph (setattr "replace_validate" (APartial "replace_validate")) >>
  modify_fgraph (setattr "replace_all_validate" (APartial "replace_all_validate")) >>
  modify_fgraph (setattr "replace_all_validate_remove"
                         (APartial "replace_all_validate_remove")).

Definition on_attach : M Self unit :=
  let* g := get_fgraph in
  if hasattr g "replace_validate" || hasattr g "replace_all_validate"
     || hasattr g "replace_all_validate_remove" then
    raise (mkExn AlreadyThere
      ["ReplaceValidate feature is already present or in conflict with another plugin."])
  else
    modify_self (set_nodes_removed (Some ∅)) >>
    modify_self (set_fail_validate (Some false)) >>
    History.on_attach >>
    Validator.on_attach >>
    unpickle.

Definition on_detach : M Self unit :=
  History.on_detach >>
  Validator.on_detach >>
  let* s := get_self in
  match _nodes_removed s with
  | None => attribute_error "_nodes_removed"
  | Some _ =>
      modify_self (set_nodes_removed None) >>
      History.del_attr "replace_validate" >>
      History.del_attr "replace_all_validate" >>
      History.del_attr "replace_all_validate_remove"
  end.

(** The [except Exception as e] block around [fgraph.replace]. *)
Definition replace_failed (chk : nat) (reason : Reason) (e : Exn) : M Self unit :=
  let msg := str e in
  if contains s3 msg then
    raise (mkExn (exn_type e) (exn_args e ++ [please_report]))
  else
    (if negb (contains s1 msg) && negb (contains s2 msg)
     then print_err (PBug e reason)
     else ret ()) >>
    fgraph_revert chk >>
    raise e.

Definition replace_all_validate (replacements : list (Var * Var))
    (reason : Reason) (verbose : option bool) : M Self nat :=
  let* chk := fgraph_checkpoint in
  let verbose := default optimizer_verbose verbose in
  for_each replacements (λ '(r, new_r),
    try_except (replace r new_r reason) (replace_failed chk reason)) >>
  let r := bound_r replacements in
  let new_r := bound_new_r replacements in
  try_except
    (Validator.fgraph_validate (mkFrame "replace_all_validate" verbose r))
    (λ e,
      fgraph_revert chk >>
      (if verbose
       then let* r := local "r" r in print (PValidateFailed r reason e)
       else ret ()) >>
      raise e) >>
  (if verbose
   then let* r := local "r" r in
        let* new_r := local "new_r" new_r in
        print (PReplaced reason r new_r)
   else ret ()) >>
  ret chk.

Definition replace_validate (r new_r : Var) (reason : Reason) : M Self unit :=
  replace_all_validate [(r, new_r)] reason None >> ret ().

(** [fgraph.replace_all_validate(replacements, reason)]. *)
Definition fgraph_replace_all_validate (replacements : list (Var * Var))
    (reason : Reason) : M Self nat :=
  let* g := get_fgraph in
  match attrs g !! "replace_all_validate" with
  | Some (APartial "replace_all_validate") =>
      replace_all_validate replacements reason None
  | Some _ => raise (mkExn TypeError ["object is not callable"])
  | None => attribute_error "replace_all_validate"
  end.

Definition replace_all_validate_remove (replacements : list (Var * Var))
    (remove : list Item) (reason : Reason) (warn : bool) : M Self unit :=
  let* chk := fgraph_replace_all_validate replacements reason in
  let* s := get_self in
  match _nodes_removed s with
  | None => attribute_error "_nodes_removed"
  | Some removed =>
      modify_self (set_nodes_removed (Some (removed ∪ list_to_set remove))) >>
      for_each remove (λ rm,
        let* g := get_fgraph in
        if present g rm then
          fgraph_revert chk >>
          (if warn
           then print_err PWarning >>
                print_err (PReasonReplacements reason replacements)
           else ret ()) >>
          raise (mkExn ReplacementDidntRemovedError [])
        else ret ())
  end.

Definition on_import (node : Apply) (reason : Reason) : M Self unit :=
  let* s := get_self in
  match _nodes_removed s with
  | None => attribute_error "_nodes_removed"
  | Some removed =>
      if bool_decide (INode node ∈ removed)
      then modify_self (set_fail_validate (Some true))
      else ret ()
  end.

Definition validate : M Self unit :=
  let* s := get_self in
  match fail_validate s with
  | None => attribute_error "fail_validate"
  | Some true =>
      modify_self (set_fail_validate (Some false)) >>
      raise (mkExn InconsistencyError ["Trying to reintroduce a removed node"])
  | Some false => ret ()
  end.

End ReplaceValidate.

(** The class as the graph sees it. *)
Definition feature : Feature Self :=
  Build_Feature Self on_import FeatureBase.on_prune History.on_change_input
                (Some validate).

End ReplaceValidate.

(** ** class NodeFinder(Bookkeeper) *)

(** The state of a [NodeFinder]: the graph it serves, and the dictionary
    [d] from ops to lists of nodes.  The lists are mutable objects that
    [d] refers to and that [query] copies, so they live in a store
    [heap], by identity. *)
Record NodeFinderSelf := mkNodeFinder {
  nf_fgraph : option nat;
  d : gmap Op nat;
  heap : gmap nat (list Apply)
}.

(** [hash(op)]: the exception it raises, if any. *)
Definition hash (o : Op) : option Exn :=
  match o with
  | OpHashable _ => None
  | OpUnhashable _ => Some (mkExn TypeError ["unhashable type"])
  | OpBroken _ => Some (mkExn Exception ["__hash__ failed"])
  end.

(** [l.remove(x)]: without the first [x], or [None] when [x] is not in
    [l] (a [ValueError]). *)
Fixpoint list_remove {A} `{EqDecision A} (x : A) (l : list A) : option (list A) :=
  match l with
  | [] => None
  | y :: l' => if decide (x = y) then Some l'
               else cons y <$> list_remove x l'
  end.

Module NodeFinder.

(** The contents of the list object at [l]. *)
Definition deref (s : NodeFinderSelf) (l : nat) : list Apply :=
  default [] (heap s !! l).

Definition store (l : nat) (nodes : list Apply) (s : NodeFinderSelf) : NodeFinderSelf :=
  mkNodeFinder (nf_fgraph s) (d s) (<[l := nodes]> (heap s)).

Definition set_d (m : gmap Op nat) (s : NodeFinderSelf) : NodeFinderSelf :=
  mkNodeFinder (nf_fgraph s) m (heap s).

Definition set_nf_fgraph (g : option nat) (s : NodeFinderSelf) : NodeFinderSelf :=
  mkNodeFinder g (d s) (heap s).

(** The identity of a new object. *)
Definition new_object (s : NodeFinderSelf) : nat := fresh (dom (heap s)).

Definition on_import (node : Apply) (reason : Reason) : M NodeFinderSelf unit :=
  match hash (op node) with
  | Some e =>
      if bool_decide (exn_type e = TypeError) then ret ()
      else print_err (POffendingNode node) >>
           print_err POffendingNotHashable >>
           raise e
  | None =>
      let* s := get_self in
      match d s !! op node with
      | Some l => modify_self (store l (deref s l ++ [node]))
      | None =>
          let l := new_object s in
          modify_self (store l []) >>
          modify_self (set_d (<[op node := l]> (d s))) >>
          modify_self (store l [node])
      end
  end.

Definition on_prune (node : Apply) (reason : Reason) : M NodeFinderSelf unit :=
  match hash (op node) with
  | Some e =>
      if bool_decide (exn_type e = TypeError) then ret () else raise e
  | None =>
      let* s := get_self in
      match d s !! op node with
      | None => raise (mkExn KeyError ["op"])
      | Some l =>
          match list_remove node (deref s l) with
          | None => raise (mkExn ValueError ["list.remove(x): x not in list"])
          | Some nodes =>
              modify_self (store l nodes) >>
              match nodes with
              | [] => modify_self (set_d (delete (op node) (d s)))
              | _ => ret ()
              end
          end
      end
  end.

(** [query] returns the identity of the new list [list(all)]. *)
Definition query (o : Op) : M NodeFinderSelf nat :=
  match hash o with
  | Some e =>
      if bool_decide (exn_type e = TypeError)
      then raise (mkExn TypeError
             ["op in unhashable and cannot be queried by the optimizer"])
      else raise e
  | None =>
      let* s := get_self in
      let all := match d s !! o with
                 | Some l => deref s l
                 | None => []
                 end in
      let l' := new_object s in
      modify_self (store l' all) >>
      ret l'
  end.

Section NodeFinder.
Context {ext : External} {cls : Feature NodeFinderSelf}.

Definition on_attach : M NodeFinderSelf unit :=
  let* s := get_self in
  let* g := get_fgraph in
  match nf_fgraph s with
  | Some _ =>
      raise (mkExn Exception
        ["A NodeFinder instance can only serve one FunctionGraph."])
  | None =>
      if hasattr g "get_nodes" then
        raise (mkExn AlreadyThere
          ["NodeFinder is already present or in conflict with another plugin."])
      else
        modify_self (set_nf_fgraph (Some (graph_id g))) >>
        modify_fgraph (setattr "get_nodes" (APartial "query")) >>
        Bookkeeper.on_attach
  end.

Definition on_detach : M NodeFinderSelf unit :=
  let* s := get_self in
  let* g := get_fgraph in
  if bool_decide (nf_fgraph s = Some (graph_id g)) then
    modify_self (set_nf_fgraph None) >>
    (if hasattr g "get_nodes" then modify_fgraph (delattr "get_nodes")
     else attribute_error "get_nodes") >>
    Bookkeeper.on_detach
  else
    raise (mkExn Exception
      ["This NodeFinder instance was not attached to the provided fgraph."]).

End NodeFinder.

(** The class as the graph sees it. *)
Definition feature : Feature NodeFinderSelf :=
  Build_Feature NodeFinderSelf on_import on_prune FeatureBase.on_change_input None.

(** A run of the callbacks and of [query], as the graph and its clients
    make them. *)
Inductive Event :=
| Import (n : Apply)
| Prune (n : Apply)
| Query (o : Op).

Definition run_event (ev : Event) : M NodeFinderSelf unit :=
  match ev with
  | Import n => on_import n RNone
  | Prune n => on_prune n RNone
  | Query o => query o >> ret ()
  end.

(** The nodes that apply ops equal to [o], among [nodes]. *)
Definition applying (o : Op) (nodes : list Apply) : list Apply :=
  filter (λ n, op n = o) nodes.

(** The index agrees with the list [live] of the nodes of the graph, in
    the order of their import: every bucket is the list of the live nodes
    of its op, no bucket is empty, no two ops share a list object. *)
Definition indexes (s : NodeFinderSelf) (live : list Apply) : Prop :=
  (∀ o, match d s !! o with
        | Some l => hash o = None ∧ heap s !! l = Some (applying o live)
                    ∧ applying o live ≠ []
        | None => hash o = None → applying o live = []
        end) ∧
  (∀ o1 o2 l, d s !! o1 = Some l → d s !! o2 = Some l → o1 = o2).

End NodeFinder.

(** ** A subclass of Bookkeeper that records the callbacks it receives *)

Inductive Callback :=
| CbImport (n : Apply) (reason : Reason)
| CbPrune (n : Apply) (reason : Reason).

#[global] Instance Callback_eq_dec : EqDecision Callback.
Proof. solve_decision. Defined.

Module Recorder.

Definition on_import (node : Apply) (reason : Reason) : M (list Callback) unit :=
  modify_self (λ log, log ++ [CbImport node reason]).

Definition on_prune (node : Apply) (reason : Reason) : M (list Callback) unit :=
  modify_self (λ log, log ++ [CbPrune node reason]).

Definition feature : Feature (list Callback) :=
  Build_Feature (list Callback) on_import on_prune FeatureBase.on_change_input None.

End Recorder.

(** ** class PreserveNames(Feature), class PreserveVariableAttributes(Feature) *)

(** A value of the attribute [tag.nan_guard_mode_check]: the object
    [False], or another object, by its identity and its truth value. *)
Inductive PyObj :=
| PyFalse
| PyObject (v : nat) (truthy : bool).

#[global] Instance PyObj_eq_dec : EqDecision PyObj.
Proof. solve_decision. Defined.

Definition truth (o : PyObj) : bool :=
  match o with
  | PyFalse => false
  | PyObject _ t => t
  end.

(** The attributes of the variables that the two features read and
    write: [name] ([None] when a variable is not in the map) and
    [tag.nan_guard_mode_check] (absent when it is not in the map). *)
Record VarAttrs := mkVarAttrs {
  names : gmap Var string;
  guards : gmap Var PyObj
}.

Definition set_name (v : Var) (n : string) (s : VarAttrs) : VarAttrs :=
  mkVarAttrs (<[v := n]> (names s)) (guards s).

Definition set_guard (v : Var) (o : PyObj) (s : VarAttrs) : VarAttrs :=
  mkVarAttrs (names s) (<[v := o]> (guards s)).

(** [getattr(v.tag, 'nan_guard_mode_check', False)]. *)
Definition getattr_guard (s : VarAttrs) (v : Var) : PyObj :=
  default PyFalse (guards s !! v).

Module PreserveNames.

Definition on_change_input (node : Owner) (i : nat) (r new_r : Var)
    (reason : Reason) : M VarAttrs unit :=
  let* s := get_self in
  match names s !! r, names s !! new_r with
  | Some n, None => modify_self (set_name new_r n)
  | _, _ => ret ()
  end.

Definition feature : Feature VarAttrs :=
  Build_Feature VarAttrs FeatureBase.on_import FeatureBase.on_prune
                on_change_input None.

End PreserveNames.

Module PreserveVariableAttributes.

Definition on_change_input (node : Owner) (i : nat) (r new_r : Var)
    (reason : Reason) : M VarAttrs unit :=
  let* s := get_self in
  match names s !! r, names s !! new_r with
  | Some n, None => modify_self (set_name new_r n)
  | _, _ => ret ()
  end >>
  let* s := get_self in
  if truth (getattr_guard s r)
     && bool_decide (getattr_guard s new_r = PyFalse)
  then modify_self (set_guard new_r (getattr_guard s r))
  else ret ().

Definition feature : Feature VarAttrs :=
  Build_Feature VarAttrs FeatureBase.on_import FeatureBase.on_prune
                on_change_input None.

End PreserveVariableAttributes.

(** ** class NoOutputFromInplace(Feature) *)

(** What [validate] reads of the nodes and variables of a graph:
    [out.owner], [node.outputs], and [op.destroy_map] (the keys of the
    dictionary; [None] when the op has no such attribute). *)
Class Nodes := {
  owner : Var → option Apply;
  node_outputs : Apply → list Var;
  destroy_map : Op → option (gset nat)
}.

(** [fgraph.outputs]: the variables at the output slots 0, 1, ... of the
    graph. *)
Fixpoint outputs_from (e : gmap (Owner * nat) Var) (i fuel : nat) : list Var :=
  match fuel with
  | 0 => []
  | S fuel' =>
      match e !! (Output, i) with
      | Some v => v :: outputs_from e (S i) fuel'
      | None => []
      end
  end.

Definition outputs (g : FunctionGraph) : list Var :=
  outputs_from (edges g) 0 (size (edges g)).

(** [l[first:last]] for integer or [None] bounds: a negative bound counts
    from the end, and bounds are clipped to the list. *)
Definition clip (len i : Z) : Z :=
  if (i <? 0)%Z then Z.max (i + len) 0 else Z.min i len.

Definition py_slice {A} (l : list A) (first last : option Z) : list A :=
  let len := Z.of_nat (length l) in
  let start := match first with Some i => clip len i | None => 0%Z end in
  let stop := match last with Some j => clip len j | None => len end in
  take (Z.to_nat (stop - start)) (drop (Z.to_nat start) l).

(** [l.index(x)]: [None] stands for the [ValueError]. *)
Fixpoint index_of {A} `{EqDecision A} (x : A) (l : list A) : option nat :=
  match l with
  | [] => None
  | y :: l' => if decide (y = x) then Some 0 else S <$> index_of x l'
  end.

Record NoOutputFromInplaceSelf := mkNoOutputFromInplace {
  first_idx : option Z;
  last_idx : option Z
}.

Module NoOutputFromInplace.

Definition inplace_error (out : Var) : Exn :=
  mkExn InconsistencyError
    ["A function graph Feature has requested (probably for ";
     "efficiency reasons for scan) that outputs of the graph";
     "be prevented from being the result of inplace ";
     "operations. This has prevented output ";
     DecimalString.NilEmpty.string_of_uint (Nat.to_uint out); " from ";
     "being computed by modifying another variable ";
     "inplace."].

Section NoOutputFromInplace.
Context {nodes : Nodes}.

(** The body of the loop over [outputs_to_validate]. *)
Definition check_output (out : Var) : M NoOutputFromInplaceSelf unit :=
  match owner out with
  | None => ret ()
  | Some node =>
      match index_of out (node_outputs node) with
      | None => raise (mkExn ValueError ["out is not in list"])
      | Some out_idx =>
          match destroy_map (op node) with
          | Some dm =>
              if bool_decide (out_idx ∈ dm) then raise (inplace_error out)
              else ret ()
          | None => ret ()
          end
      end
  end.

(** The result is [True] ([Some true]) or [None]. *)
Definition validate : M NoOutputFromInplaceSelf (option bool) :=
  let* g := get_fgraph in
  let* s := get_self in
  if negb (hasattr g "destroyers") then ret (Some true)
  else
    for_each (py_slice (outputs g) (first_idx s) (last_idx s)) check_output >>
    ret None.

End NoOutputFromInplace.

Definition feature {nodes : Nodes} : Feature NoOutputFromInplaceSelf :=
  Build_Feature NoOutputFromInplaceSelf FeatureBase.on_import
                FeatureBase.on_prune FeatureBase.on_change_input
                (Some (validate >> ret ())).

End NoOutputFromInplace.

(** ** Worlds used in the examples *)

Module Demo.

Definition n1 : Apply := mkApply 1 (OpHashable 10).
Definition n2 : Apply := mkApply 2 (OpHashable 10).
Definition n3 : Apply := mkApply 3 (OpUnhashable 11).

(** A stand-in for [fgraph.replace]: every slot that holds [r] is
    repointed to [new_r]; a variable that is not in the graph, and the
    replacements 7, 8 and 9, end with the errors a graph can raise. *)
Definition replace (g : FunctionGraph) (r new_r : Var) (reason : Reason)
    : list Edit * option Exn :=
  let es := (λ kv : Owner * nat * Var, EChangeInput kv.1.1 kv.1.2 new_r)
              <$> map_to_list (filter (λ kv, kv.2 = r) (edges g)) in
  if bool_decide (r ∈ variables g) then
    if bool_decide (new_r = 7) then
      (es, Some (mkExn RuntimeError ["maximum recursion depth exceeded"]))
    else if bool_decide (new_r = 8) then
      (es, Some (mkExn Exception ["a listener failed"]))
    else if bool_decide (new_r = 9) then
      ([], Some (mkExn TypeError
         ["The type of the replacement must be the same as the type of the original Variable."]))
    else (es ++ [EImportR new_r], None)
  else
    ([], Some (mkExn Exception
       ["Cannot replace 3 because it does not belong to this FunctionGraph"])).

(** A validity check of another feature: output 0 must not be variable 5. *)
Definition no_inplace_output (g : FunctionGraph) : option Exn :=
  if bool_decide (edges g !! (Output, 0) = Some 5)
  then Some (mkExn InconsistencyError ["output computed inplace"])
  else None.

Definition ext : External := {|
  fg_replace := replace;
  validate_before := λ _, None;
  validate_after := no_inplace_output;
  io_toposort := λ g, [n1; n2];
  optimizer_verbose := false
|}.

(** A graph of two nodes, before any feature is attached. *)
Definition graph : FunctionGraph := {|
  graph_id := 0;
  edges := {[ (Node n1, 0) := 1; (Node n2, 0) := 2; (Node n2, 1) := 1;
              (Output, 0) := 3 ]};
  apply_nodes := {[ n1; n2 ]};
  variables := {[ 1; 2; 3 ]};
  attrs := ∅;
  calls := []
|}.

Definition fresh_self : Self := mkSelf ∅ None None.

Definition world0 : World Self := mkWorld graph fresh_self [] [].

(** The graph with a [ReplaceValidate] attached. *)
Definition world : World Self :=
  (ReplaceValidate.on_attach world0).2.

(** The graph with a [History] attached. *)
Definition history_world : World Self :=
  (History.on_attach world0).2.

(** The graph with only a [Validator] attached. *)
Definition validator_world : World Self :=
  (Validator.on_attach world0).2.

(** The attached world with the reintroduction flag armed. *)
Definition armed_world : World Self :=
  upd_self (set_fail_validate (Some true)) world.

Definition finder0 : World NodeFinderSelf :=
  mkWorld graph (mkNodeFinder None ∅ ∅) [] [].

Definition recorder0 : World (list Callback) := mkWorld graph [] [] [].

(** Variable 1 has a name and a true guard. *)
Definition attrs0 : World VarAttrs :=
  mkWorld graph (mkVarAttrs {[ 1 := "x" ]} {[ 1 := PyObject 1 true ]}) [] [].

(** Node [n1] produces variable 2, node [n2] produces variable 3, and
    the op of both works in place on its output 0. *)
Definition nodes : Nodes := {|
  owner := λ v, if decide (v = 3) then Some n2
                else if decide (v = 2) then Some n1 else None;
  node_outputs := λ n, if decide (n = n2) then [3]
                       else if decide (n = n1) then [2] else [];
  destroy_map := λ o, if decide (o = OpHashable 10) then Some {[ 0 ]} else None
|}.

(** The graph with a [DestroyHandler], and the feature with its default
    bounds. *)
Definition inplace0 : World NoOutputFromInplaceSelf :=
  mkWorld (setattr "destroyers" (APartial "destroyers") graph)
          (mkNoOutputFromInplace (Some 0%Z) None) [] [].

End Demo.

(** ** Vocabulary of the statements *)

(** The call by which [LambdExtract] undoes a rewrite. *)
Definition undo_call (f : LambdExtract) : ChangeInputCall :=
  mkCall (le_node f) (le_i f) (le_r f) (RRevert (le_reason f)).

(** The slot a record is about. *)
Definition slot (f : LambdExtract) : Owner * nat := (le_node f, le_i f).

(** The edges once the records of a log are undone, most recent first. *)
Definition rewind (l : list LambdExtract) (e : gmap (Owner * nat) Var)
    : gmap (Owner * nat) Var :=
  foldr (λ f e', <[slot f := le_r f]> e') e l.

(** The graph once the records of [stack] are replayed, first to last. *)
Definition undo_graph (stack : list LambdExtract) (g : FunctionGraph) : FunctionGraph :=
  foldl (λ g f, repoint (le_node f) (le_i f) (le_r f) (RRevert (le_reason f)) g)
        g stack.

(** A callback that leaves the graph, the undo logs, the set of removed
    nodes and the output streams alone. *)
Definition quiet {A} (m : M Self A) : Prop :=
  ∀ w, fgraph (m w).2 = fgraph w ∧ history (self (m w).2) = history (self w)
       ∧ _nodes_removed (self (m w).2) = _nodes_removed (self w)
       ∧ stdout (m w).2 = stdout w ∧ stderr (m w).2 = stderr w.

(** A class whose [on_change_input] is that of [History] and whose other
    callbacks are quiet: [History] itself and [ReplaceValidate]. *)
Record LogsChanges (cls : Feature Self) : Prop := {
  lc_change : ∀ node i r new_r reason,
    @on_change_input _ cls node i r new_r reason
    = History.on_change_input node i r new_r reason;
  lc_import : ∀ n reason, quiet (@on_import _ cls n reason);
  lc_prune : ∀ n reason, quiet (@on_prune _ cls n reason)
}.

(** The graph has the entry points of [History], bound to [self]. *)
Definition history_attached (w : World Self) : bool :=
  match attrs (fgraph w) !! "checkpoint" with
  | Some (AGetCheckpoint _) => true
  | _ => false
  end
  && bool_decide (attrs (fgraph w) !! "revert" = Some (APartial "revert"))
  && bool_decide (is_Some (history (self w) !! graph_id (fgraph w))).

(** The graph has the entry points of [ReplaceValidate], bound to
    [self]. *)
Definition attached (w : World Self) : bool :=
  history_attached w
  && bool_decide (attrs (fgraph w) !! "validate" = Some (APartial "validate_"))
  && bool_decide (attrs (fgraph w) !! "replace_all_validate"
                  = Some (APartial "replace_all_validate"))
  && bool_decide (is_Some (_nodes_removed (self w)))
  && bool_decide (is_Some (fail_validate (self w))).

(** Since the world was [w0], the log has recorded every rewrite:
    undoing it gives back the edges of [w0]. *)
Definition recording (w0 w : World Self) : Prop :=
  graph_id (fgraph w) = graph_id (fgraph w0) ∧
  attrs (fgraph w) = attrs (fgraph w0) ∧
  dom (edges (fgraph w)) = dom (edges (fgraph w0)) ∧
  _nodes_removed (self w) = _nodes_removed (self w0) ∧
  ∃ l, history (self w) !! graph_id (fgraph w0) = Some (Some l) ∧
       rewind l (edges (fgraph w)) = edges (fgraph w0) ∧
       Forall (λ f, slot f ∈ dom (edges (fgraph w0))) l.

(** The rewrites of a transaction, without its error handling. *)
Definition rewrites {ext : External} {cls : Feature Self}
    (replacements : list (Var * Var)) (reason : Reason) : M Self unit :=
  for_each replacements (λ '(r, new_r), replace r new_r reason).

(** The world that [checkpoint()] leaves when the counter was [nb]. *)
Definition checkpointed (nb : nat) (w : World Self) : World Self :=
  upd_fgraph (setattr "checkpoint" (AGetCheckpoint (nb + 1)))
    (upd_self (λ s, set_history (<[graph_id (fgraph w) := Some []]> (history s)) s) w).

(** The world that a [revert] leaves when the log was [l]: the records
    replayed most recent first, and an empty log. *)
Definition reverted (l : list LambdExtract) (w : World Self) : World Self :=
  upd_self (λ s, set_history
      (<[graph_id (fgraph w) := Some []]>
         (<[graph_id (fgraph w) := None]> (history s))) s)
    (upd_fgraph (undo_graph (reverse l)) w).

(** A sequence of edge rewrites, each with its reason. *)
Definition change_inputs {cls : Feature Self}
    (rws : list (Owner * nat * Var * Reason)) : M Self unit :=
  for_each rws (λ '(node, i, new_r, reason), change_input node i new_r reason).

(** The undo records of a sequence of rewrites from the edges [e]: one
    for each rewrite, with the value the slot had before it; the sequence
    stops at a slot that does not exist. *)
Fixpoint undo_records (e : gmap (Owner * nat) Var)
    (rws : list (Owner * nat * Var * Reason)) : list LambdExtract :=
  match rws with
  | [] => []
  | (node, i, new_r, reason) :: rws' =>
      match e !! (node, i) with
      | Some r => mkLambdExtract node i r reason
                  :: undo_records (<[(node, i) := new_r]> e) rws'
      | None => []
      end
  end.

(** [e] with the advice that [replace_all_validate] adds to the
    arguments of a depth-exhaustion error. *)
Definition with_advice (e : Exn) : Exn :=
  mkExn (exn_type e) (exn_args e ++ [ReplaceValidate.please_report]).

(** The message of [e] is that of a stack-depth exhaustion. *)
Definition depth_exhausted (e : Exn) : bool :=
  contains ReplaceValidate.s3 (str e).

(** The message of [e] is that of a type mismatch or of a value that
    does not belong to the graph. *)
Definition expected_failure (e : Exn) : bool :=
  contains ReplaceValidate.s1 (str e) || contains ReplaceValidate.s2 (str e).

(** The body of the loop of [replace_all_validate]. *)
Definition txn_body {ext : External} {cls : Feature Self} (chk : nat)
    (reason : Reason) : Var * Var → M Self unit :=
  λ '(r, new_r),
    try_except (replace r new_r reason) (ReplaceValidate.replace_failed chk reason).

(** The check that [replace_all_validate_remove] makes for each member
    of [remove]. *)
Definition remove_check {ext : External} {cls : Feature Self} (chk : nat)
    (replacements : list (Var * Var)) (reason : Reason) (warn : bool)
    : Item → M Self unit :=
  λ rm,
    let* g := get_fgraph in
    if ReplaceValidate.present g rm then
      fgraph_revert chk >>
      (if warn
       then print_err PWarning >>
            print_err (PReasonReplacements reason replacements)
       else ret ()) >>
      raise (mkExn ReplacementDidntRemovedError [])
    else ret ().

(** [m] never ends with an exception of class [T]. *)
Definition never_raises {S A} (T : ExnType) (m : M S A) : Prop :=
  ∀ w e w', m w = (Raise e, w') → exn_type e ≠ T.

(** The graph and the other features never raise an exception of class
    [T]. *)
Definition external_never_raises (ext : External) (T : ExnType) : Prop :=
  (∀ g r new_r reason es e,
     fg_replace g r new_r reason = (es, Some e) → exn_type e ≠ T) ∧
  (∀ g e, validate_before g = Some e → exn_type e ≠ T) ∧
  (∀ g e, validate_after g = Some e → exn_type e ≠ T).

(** The world once the warning of [replace_all_validate_remove] is
    printed, when [warn] is set. *)
Definition warned (warn : bool) (reason : Reason)
    (replacements : list (Var * Var)) (w : World Self) : World Self :=
  if warn
  then (print_err (PReasonReplacements reason replacements)
          (print_err PWarning w).2).2
  else w.

(** The log of the graph is switched off. *)
Definition suspended (w : World Self) : Prop :=
  history (self w) !! graph_id (fgraph w) = Some None.

(** The error of the reintroduction check. *)
Definition reintroduced : Exn :=
  mkExn InconsistencyError ["Trying to reintroduce a removed node"].

(** The world once a revert with a stale handle has switched the log of
    the graph off. *)
Definition switched_off (w : World Self) : World Self :=
  upd_self (λ s, set_history (<[graph_id (fgraph w) := None]> (history s)) s) w.

(** How many times [x] occurs in [l]. *)
Definition occurrences {A} `{EqDecision A} (x : A) (l : list A) : nat :=
  length (filter (λ y, y = x) l).

(** The list object at [l] holds [nodes], no bucket of the index refers
    to it, and every bucket refers to an object. *)
Definition snapshot (l : nat) (nodes : list Apply) (s : NodeFinderSelf) : Prop :=
  heap s !! l = Some nodes ∧
  (∀ o, d s !! o ≠ Some l) ∧
  (∀ o l', d s !! o = Some l' → is_Some (heap s !! l')).

(** [m] keeps the property [P] of worlds, whether it returns or
    raises. *)
Definition preserves {S A} (P : World S → Prop) (m : M S A) : Prop :=
  ∀ w, P w → P (m w).2.

(** The world [w] seen by another instance, whose state is [s]. *)
Definition with_self {S} (s : S) (w : World S) : World S :=
  mkWorld (fgraph w) s (stdout w) (stderr w).

(** The nodes of the graph, in the order of their import, after an
    event: an import adds the node at the end, a prune takes its first
    occurrence away. *)
Definition live_step (live : list Apply) (ev : NodeFinder.Event) : list Apply :=
  match ev with
  | NodeFinder.Import n => live ++ [n]
  | NodeFinder.Prune n => default live (list_remove n live)
  | NodeFinder.Query _ => live
  end.

Definition live_after (evs : list NodeFinder.Event) (live : list Apply) : list Apply :=
  foldl live_step live evs.

(** The hash of the op of [n] does not fail with an exception other than
    [TypeError]. *)
Definition sound_hash (n : Apply) : bool :=
  match hash (op n) with
  | Some e => bool_decide (exn_type e = TypeError)
  | None => true
  end.

(** The input slot [k] of the graph, if it exists, holds a variable that
    has a name. *)
Definition named_slot (k : Owner * nat) (w : World VarAttrs) : Prop :=
  ∀ v, edges (fgraph w) !! k = Some v → is_Some (names (self w) !! v).

(** The input slot [k] of the graph, if it exists, holds a variable whose
    [tag.nan_guard_mode_check] is true. *)
Definition guarded_slot (k : Owner * nat) (w : World VarAttrs) : Prop :=
  ∀ v, edges (fgraph w) !! k = Some v → truth (getattr_guard (self w) v) = true.

(** No variable has a [tag.nan_guard_mode_check] that is false without
    being the object [False] (such as [None] or [0]). *)
Definition plain_guards (s : VarAttrs) : Prop :=
  ∀ v, getattr_guard s v = PyFalse ∨ truth (getattr_guard s v) = true.

(** What a run of rewrites does to the names: every name is kept, and
    every named slot is still named. *)
Definition names_kept (w w' : World VarAttrs) : Prop :=
  (∀ v n, names (self w) !! v = Some n → names (self w') !! v = Some n) ∧
  (∀ k, named_slot k w → named_slot k w').

(** What a run of rewrites does to the guards: a guard that is not the
    object [False] is kept as it is, and, from plain guards, the guards
    are still plain and every guarded slot is still guarded. *)
Definition guards_kept (w w' : World VarAttrs) : Prop :=
  (∀ v o, guards (self w) !! v = Some o → o ≠ PyFalse →
          guards (self w') !! v = Some o) ∧
  (plain_guards (self w) →
   plain_guards (self w') ∧ ∀ k, guarded_slot k w → guarded_slot k w').

(** The node that owns [out] produces it by modifying another variable
    in place: the position of [out] among the outputs of the node is a key
    of the [destroy_map] of its op. *)
Definition produced_inplace {nodes : Nodes} (out : Var) : Prop :=
  ∃ node i dm, owner out = Some node ∧
               index_of out (node_outputs node) = Some i ∧
               destroy_map (op node) = Some dm ∧ i ∈ dm.

(** * Properties *)

Ltac munfold :=
  unfold bind, ret, raise, try_except, get_fgraph, get_self, modify_fgraph,
    modify_self, print, print_err, attribute_error in *.

(** ** The loop *)

Lemma for_each_app {S A} (l1 l2 : list A) (body : A → M S unit) (w w1 : World S) :
  for_each l1 body w = (Ok (), w1) →
  for_each (l1 ++ l2) body w = for_each l2 body w1.
Proof.
  revert w. induction l1 as [|x l1 IH]; intros w H; simpl in *.
  - unfold ret in H. by inversion H.
  - unfold bind in *. destruct (body x w) as [[[]|e] w'] eqn:Hx; [|done].
    by apply IH.
Qed.

Lemma for_each_raise {S A} (l1 l2 : list A) (body : A → M S unit) (w w1 : World S) e :
  for_each l1 body w = (Raise e, w1) →
  for_each (l1 ++ l2) body w = (Raise e, w1).
Proof.
  revert w. induction l1 as [|x l1 IH]; intros w H; simpl in *.
  - by unfold ret in H.
  - unfold bind in *. destruct (body x w) as [[[]|e'] w'] eqn:Hx; [|done].
    by apply IH.
Qed.

(** An invariant of the loop body is an invariant of the loop. *)
Lemma for_each_invariant {S A} (P : World S → Prop) (l : list A) (body : A → M S unit) :
  (∀ x w, P w → P (body x w).2) →
  ∀ w, P w → P (for_each l body w).2.
Proof.
  intros Hbody. induction l as [|x l IH]; intros w Hw; simpl; [done|].
  unfold bind. specialize (Hbody x w Hw).
  destruct (body x w) as [[[]|e] w']; simpl in *; [by apply IH|done].
Qed.

(** ** The change log *)

Lemma rewind_snoc l f e :
  rewind (l ++ [f]) e = rewind l (<[slot f := le_r f]> e).
Proof. unfold rewind. by rewrite foldr_app. Qed.

Lemma undo_graph_edges stack g :
  edges (undo_graph stack g) = rewind (reverse stack) (edges g).
Proof.
  revert g. induction stack as [|f stack IH]; intros g; simpl; [done|].
  rewrite IH, reverse_cons, rewind_snoc. done.
Qed.

Lemma undo_graph_calls stack g :
  calls (undo_graph stack g) = calls g ++ (undo_call <$> stack).
Proof.
  revert g. induction stack as [|f stack IH]; intros g; simpl.
  - by rewrite app_nil_r.
  - rewrite IH. simpl. by rewrite <- app_assoc.
Qed.

Lemma undo_graph_frame stack g :
  graph_id (undo_graph stack g) = graph_id g ∧
  attrs (undo_graph stack g) = attrs g ∧
  apply_nodes (undo_graph stack g) = apply_nodes g ∧
  variables (undo_graph stack g) = variables g.
Proof.
  revert g. induction stack as [|f stack IH]; intros g; simpl; [done|].
  destruct (IH (repoint (le_node f) (le_i f) (le_r f) (RRevert (le_reason f)) g))
    as (-> & -> & -> & ->). done.
Qed.

Lemma on_change_input_recording w l node i r new_r reason :
  history (self w) !! graph_id (fgraph w) = Some (Some l) →
  History.on_change_input node i r new_r reason w
  = (Ok (), upd_self (λ s, set_history
       (<[graph_id (fgraph w) := Some (l ++ [mkLambdExtract node i r reason])]>
          (history s)) s) w).
Proof.
  intros H. unfold History.on_change_input, history_get, history_set. munfold.
  by rewrite H.
Qed.

Lemma on_change_input_sentinel w node i r new_r reason :
  history (self w) !! graph_id (fgraph w) = Some None →
  History.on_change_input node i r new_r reason w = (Ok (), w).
Proof.
  intros H. unfold History.on_change_input, history_get, history_set. munfold.
  by rewrite H.
Qed.

Section Recording.
Context {ext : External} {cls : Feature Self} (LC : LogsChanges cls).

Lemma change_input_recording w0 w node i new_r reason :
  recording w0 w → recording w0 (change_input node i new_r reason w).2.
Proof.
  intros (Hid & Hattrs & Hdom & Hrm & l & Hl & Hrew & Hslots).
  unfold change_input. munfold.
  destruct (edges (fgraph w) !! (node, i)) as [r|] eqn:Hr; simpl.
  2: { by repeat split; [..|exists l]. }
  rewrite (lc_change _ LC).
  erewrite on_change_input_recording; simpl; [|by rewrite Hid].
  assert (Hin : (node, i) ∈ dom (edges (fgraph w0))).
  { rewrite <- Hdom. apply elem_of_dom. eauto. }
  repeat split; simpl; try done.
  - rewrite dom_insert_L. set_solver.
  - exists (l ++ [mkLambdExtract node i r reason]). repeat split.
    + rewrite Hid. by rewrite lookup_insert_eq.
    + rewrite rewind_snoc. unfold slot; simpl.
      rewrite insert_insert_eq. by rewrite insert_id.
    + apply Forall_app. split; [done|]. by apply Forall_singleton.
Qed.

Lemma quiet_recording {A} (m : M Self A) w0 w :
  quiet m → recording w0 w → recording w0 (m w).2.
Proof.
  intros Hq (Hid & Hattrs & Hdom & Hrm & l & Hl & Hrew & Hslots).
  destruct (Hq w) as (Hg & Hh & Hr & _). unfold recording.
  rewrite Hg, Hh, Hr. by repeat split; [..|exists l].
Qed.

Lemma upd_graph_recording w0 w (f : FunctionGraph → FunctionGraph) :
  (∀ g, graph_id (f g) = graph_id g ∧ attrs (f g) = attrs g ∧ edges (f g) = edges g) →
  recording w0 w → recording w0 (upd_fgraph f w).
Proof.
  intros Hf (Hid & Hattrs & Hdom & Hrm & l & Hl & Hrew & Hslots).
  destruct (Hf (fgraph w)) as (H1 & H2 & H3). unfold recording; simpl.
  rewrite H1, H2, H3. by repeat split; [..|exists l].
Qed.

Lemma run_edit_recording w0 w reason e :
  recording w0 w → recording w0 (run_edit reason e w).2.
Proof.
  intros Hw. destruct e as [node i new_r|n|n|v|v]; simpl.
  - by apply change_input_recording.
  - unfold import_node. munfold.
    pose proof (quiet_recording _ w0 w (lc_import _ LC n reason) Hw) as H.
    destruct (on_import n reason w) as [[[]|e] w']; simpl in *; [|done].
    by apply upd_graph_recording.
  - unfold prune_node. munfold.
    apply (quiet_recording _ w0 _ (lc_prune _ LC n reason)).
    by apply upd_graph_recording.
  - by apply upd_graph_recording.
  - by apply upd_graph_recording.
Qed.

Lemma run_edits_recording w0 w reason es :
  recording w0 w → recording w0 (run_edits reason es w).2.
Proof.
  apply (for_each_invariant (recording w0)). intros x w'.
  apply run_edit_recording.
Qed.

Lemma replace_recording w0 w r new_r reason :
  recording w0 w → recording w0 (replace r new_r reason w).2.
Proof.
  intros Hw. unfold replace. munfold.
  destruct (fg_replace (fgraph w) r new_r reason) as [es err].
  pose proof (run_edits_recording w0 w reason es Hw) as H.
  destruct (run_edits reason es w) as [[[]|e] w']; simpl in *; [|done].
  by destruct err.
Qed.

Lemma rewrites_recording w0 w replacements reason :
  recording w0 w → recording w0 (rewrites replacements reason w).2.
Proof.
  apply (for_each_invariant (recording w0)). intros [r new_r] w'.
  apply replace_recording.
Qed.

(** With the log switched off, the loop of [revert] replays every record
    and nothing else changes. *)
Lemma revert_loop_spec stack w :
  history (self w) !! graph_id (fgraph w) = Some None →
  Forall (λ f, slot f ∈ dom (edges (fgraph w))) stack →
  History.revert_loop stack w = (Ok (), upd_fgraph (undo_graph stack) w).
Proof.
  revert w. induction stack as [|f stack IH]; intros w Hh Hs; simpl.
  - by destruct w.
  - inversion Hs as [|? ? Hf Hs']; subst. clear Hs. rename Hs' into Hs.
    apply elem_of_dom in Hf as [r Hr]. unfold slot in Hr.
    unfold LambdExtractM.call, change_input. munfold. rewrite Hr.
    rewrite (lc_change _ LC). rewrite on_change_input_sentinel; [|done].
    rewrite IH; [done|done|]. simpl.
    eapply Forall_impl; [|exact Hs]. intros f' Hf'; simpl in *.
    rewrite dom_insert_L. set_solver.
Qed.

Lemma fgraph_revert_spec w0 w chk :
  recording w0 w →
  attrs (fgraph w0) !! "revert" = Some (APartial "revert") →
  attrs (fgraph w0) !! "checkpoint" = Some (AGetCheckpoint chk) →
  ∃ l, history (self w) !! graph_id (fgraph w) = Some (Some l) ∧
       fgraph_revert chk w = (Ok (), reverted l w) ∧
       edges (fgraph (reverted l w)) = edges (fgraph w0).
Proof.
  intros (Hid & Hattrs & Hdom & Hrm & l & Hl & Hrew & Hslots) Hr Hc.
  exists l. rewrite Hid. split; [done|].
  assert (Hedges : edges (fgraph (reverted l w)) = edges (fgraph w0)).
  { simpl. rewrite undo_graph_edges, reverse_involutive. done. }
  split; [|done].
  unfold fgraph_revert, History.revert, history_get, history_set,
    fgraph_checkpoint_nb. munfold.
  rewrite Hattrs, Hr. simpl. rewrite Hid, Hl. simpl. rewrite Hattrs, Hc.
  rewrite bool_decide_eq_true_2 by done.
  rewrite (revert_loop_spec); simpl.
  - destruct (undo_graph_frame (reverse l) (fgraph w)) as (-> & _).
    unfold reverted. by rewrite Hid.
  - by rewrite Hid, lookup_insert_eq.
  - rewrite Hdom. by apply Forall_reverse.
Qed.

End Recording.

Lemma fgraph_checkpoint_spec w :
  history_attached w = true →
  ∃ nb, attrs (fgraph w) !! "checkpoint" = Some (AGetCheckpoint nb) ∧
        fgraph_checkpoint w = (Ok (nb + 1), checkpointed nb w) ∧
        recording (checkpointed nb w) (checkpointed nb w) ∧
        edges (fgraph (checkpointed nb w)) = edges (fgraph w).
Proof.
  unfold history_attached. intros H.
  apply andb_prop in H as [H _]. apply andb_prop in H as [H _].
  destruct (attrs (fgraph w) !! "checkpoint") as [[nb| |]|] eqn:Hc; try done.
  exists nb. split; [done|].
  unfold fgraph_checkpoint, GetCheckpoint.call, history_set. munfold.
  rewrite Hc. split; [done|]. split; [|done].
  repeat split. exists []. simpl. split; [|done].
  by rewrite lookup_insert_eq.
Qed.

Lemma History_LogsChanges : LogsChanges History.feature.
Proof. split; simpl; done. Qed.

Lemma ReplaceValidate_LogsChanges : LogsChanges ReplaceValidate.feature.
Proof.
  split; simpl; [done| |done].
  intros n reason w. unfold ReplaceValidate.on_import. munfold.
  destruct (_nodes_removed (self w)) as [removed|] eqn:E; simpl; [|done].
  case_bool_decide; simpl; by rewrite ?E.
Qed.

(** ** The round trip of checkpoint and revert *)

Lemma change_input_logged {cls : Feature Self} (LC : LogsChanges cls)
    w node i new_r reason l0 r :
  history (self w) !! graph_id (fgraph w) = Some (Some l0) →
  edges (fgraph w) !! (node, i) = Some r →
  change_input node i new_r reason w
  = (Ok (), upd_self (λ s, set_history
       (<[graph_id (fgraph w) := Some (l0 ++ [mkLambdExtract node i r reason])]>
          (history s)) s)
       (upd_fgraph (repoint node i new_r reason) w)).
Proof.
  intros Hl Hr. unfold change_input. munfold. rewrite Hr.
  rewrite (lc_change _ LC).
  by rewrite (on_change_input_recording _ l0).
Qed.

Lemma change_input_no_slot {cls : Feature Self} w node i new_r reason :
  edges (fgraph w) !! (node, i) = None →
  change_input node i new_r reason w
  = (Raise (mkExn IndexError ["list index out of range"]), w).
Proof. intros Hr. unfold change_input. munfold. by rewrite Hr. Qed.

Lemma change_inputs_log rws : ∀ w l0 res w2,
  history (self w) !! graph_id (fgraph w) = Some (Some l0) →
  change_inputs (cls := History.feature) rws w = (res, w2) →
  history (self w2) !! graph_id (fgraph w2)
  = Some (Some (l0 ++ undo_records (edges (fgraph w)) rws)).
Proof.
  induction rws as [|[[[node i] new_r] reason] rws IH];
    intros w l0 res w2 Hl Hrun; unfold change_inputs in *; simpl in *.
  - inversion Hrun; subst. by rewrite app_nil_r.
  - unfold bind in Hrun.
    destruct (edges (fgraph w) !! (node, i)) as [r|] eqn:Hr.
    + rewrite (change_input_logged History_LogsChanges _ _ _ _ _ l0 r Hl Hr) in Hrun.
      rewrite cons_middle, app_assoc.
      eapply IH in Hrun; [exact Hrun|].
      simpl. by rewrite lookup_insert_eq.
    + rewrite change_input_no_slot in Hrun by done.
      inversion Hrun; subst. by rewrite app_nil_r.
Qed.

Lemma change_inputs_recording w0 w rws :
  recording w0 w →
  recording w0 (change_inputs (cls := History.feature) rws w).2.
Proof.
  apply (for_each_invariant (recording w0)). intros [[[node i] new_r] reason] w'.
  apply (change_input_recording History_LogsChanges).
Qed.

(** C2. Round-trip law: after [checkpoint()] returned [c], whatever
    sequence of edge rewrites follows, the log holds one undo record for
    each rewrite made, with the prior value of its slot; [revert(c)]
    succeeds, calls the edge-rewrite primitive of the graph once for each
    record, most recent first, with the prior value and the reason
    [("Revert", reason)]; the edges are then those of the moment of the
    checkpoint, and the log is empty and recording again. *)
Theorem revert_round_trip {ext : External} (w : World Self)
    (rws : list (Owner * nat * Var * Reason)) :
  history_attached w = true →
  ∃ c w1 res w2 w3,
    fgraph_checkpoint w = (Ok c, w1) ∧
    edges (fgraph w1) = edges (fgraph w) ∧
    change_inputs (cls := History.feature) rws w1 = (res, w2) ∧
    let l := undo_records (edges (fgraph w1)) rws in
    history (self w2) !! graph_id (fgraph w2) = Some (Some l) ∧
    fgraph_revert (cls := History.feature) c w2 = (Ok (), w3) ∧
    calls (fgraph w3) = calls (fgraph w2) ++ (undo_call <$> reverse l) ∧
    edges (fgraph w3) = edges (fgraph w) ∧
    history (self w3) !! graph_id (fgraph w3) = Some (Some []).
Proof.
  intros Hatt.
  destruct (fgraph_checkpoint_spec w Hatt) as (nb & Hnb & Hc & Hrec & He).
  set (w1 := checkpointed nb w) in *.
  destruct (change_inputs (cls := History.feature) rws w1) as [res w2] eqn:Hrun.
  assert (Hrec2 : recording w1 w2).
  { pose proof (change_inputs_recording w1 w1 rws Hrec) as H.
    by rewrite Hrun in H. }
  assert (Hlog : history (self w2) !! graph_id (fgraph w2)
                 = Some (Some (undo_records (edges (fgraph w1)) rws))).
  { apply (change_inputs_log rws w1 [] res w2); [|done].
    simpl. by rewrite lookup_insert_eq. }
  assert (Hrev : attrs (fgraph w1) !! "revert" = Some (APartial "revert")).
  { unfold history_attached in Hatt.
    apply andb_prop in Hatt as [Hatt _]. apply andb_prop in Hatt as [_ Hatt].
    apply bool_decide_eq_true_1 in Hatt. simpl.
    by rewrite lookup_insert_ne. }
  assert (Hchk : attrs (fgraph w1) !! "checkpoint" = Some (AGetCheckpoint (nb + 1))).
  { simpl. by rewrite lookup_insert_eq. }
  destruct (fgraph_revert_spec History_LogsChanges w1 w2 (nb + 1) Hrec2 Hrev Hchk)
    as (l & Hl & Hrevert & Hedges).
  rewrite Hlog in Hl. injection Hl as <-.
  exists (nb + 1), w1, res, w2, (reverted (undo_records (edges (fgraph w1)) rws) w2).
  split; [done|]. split; [done|]. split; [done|]. cbv zeta.
  split; [done|]. split; [done|]. split; [|split].
  - simpl. by rewrite undo_graph_calls.
  - transitivity (edges (fgraph w1)); [exact Hedges|exact He].
  - simpl. rewrite (proj1 (undo_graph_frame _ _)).
    by rewrite lookup_insert_eq.
Qed.

Lemma revert_round_trip_witness :
  history_attached Demo.history_world = true ∧
  ∃ c w1 res w2 w3,
    fgraph_checkpoint Demo.history_world = (Ok c, w1) ∧
    change_inputs (cls := History.feature)
      [(Node Demo.n2, 1, 4, RStr "opt"); (Output, 0, 5, RNone);
       (Node Demo.n2, 1, 6, RNone)] w1 = (res, w2) ∧
    fgraph_revert (ext := Demo.ext) (cls := History.feature) c w2 = (Ok (), w3) ∧
    edges (fgraph w3) = edges (fgraph Demo.history_world).
Proof.
  split; [reflexivity|].
  destruct (revert_round_trip (ext := Demo.ext) Demo.history_world
              [(Node Demo.n2, 1, 4, RStr "opt"); (Output, 0, 5, RNone);
               (Node Demo.n2, 1, 6, RNone)] eq_refl)
    as (c & w1 & res & w2 & w3 & H1 & _ & H2 & _ & H3 & _ & H4 & _).
  exists c, w1, res, w2, w3. repeat split; assumption.
Defined.

(** ** Transactions *)

Lemma bind_ok {S A B} (m : M S A) (k : A → M S B) w a w' :
  m w = (Ok a, w') → bind m k w = k a w'.
Proof. unfold bind. by intros ->. Qed.

Lemma bind_raise {S A B} (m : M S A) (k : A → M S B) w e w' :
  m w = (Raise e, w') → bind m k w = (Raise e, w').
Proof. unfold bind. by intros ->. Qed.

Lemma attached_facts w :
  attached w = true →
  history_attached w = true ∧
  attrs (fgraph w) !! "revert" = Some (APartial "revert") ∧
  attrs (fgraph w) !! "validate" = Some (APartial "validate_") ∧
  attrs (fgraph w) !! "replace_all_validate" = Some (APartial "replace_all_validate") ∧
  is_Some (_nodes_removed (self w)) ∧ is_Some (fail_validate (self w)).
Proof.
  unfold attached, history_attached. intros H.
  repeat (apply andb_prop in H as [H ?]).
  repeat match goal with
         | H : bool_decide _ = true |- _ => apply bool_decide_eq_true_1 in H
         end.
  repeat split; try done.
  rewrite H. simpl. by rewrite !bool_decide_eq_true_2.
Qed.

Section Transactions.
Context {ext : External}.
Local Existing Instance ReplaceValidate.feature.

Lemma validate_quiet : quiet (@execute_callbacks_validate ext Self ReplaceValidate.feature).
Proof.
  intros w. unfold execute_callbacks_validate. munfold. simpl.
  destruct (validate_before (fgraph w)); [done|].
  unfold ReplaceValidate.validate. munfold.
  destruct (fail_validate (self w)) as [[]|]; simpl; try done.
  by destruct (validate_after (fgraph w)).
Qed.

Lemma fgraph_validate_in_transaction w verbose r :
  attrs (fgraph w) !! "validate" = Some (APartial "validate_") →
  Validator.fgraph_validate (mkFrame "replace_all_validate" verbose r) w
  = execute_callbacks_validate w.
Proof.
  intros H. unfold Validator.fgraph_validate, Validator.validate_. munfold.
  rewrite H. simpl.
  by destruct (execute_callbacks_validate w) as [[[]|e] w'].
Qed.

Lemma print_err_recording w0 w p :
  recording w0 w → recording w0 (print_err p w).2.
Proof. by intros H. Qed.

(** What the handler of a failed rewrite does. *)
Lemma replace_failed_spec w0 w chk reason e :
  recording w0 w →
  attrs (fgraph w0) !! "revert" = Some (APartial "revert") →
  attrs (fgraph w0) !! "checkpoint" = Some (AGetCheckpoint chk) →
  if depth_exhausted e then
    ReplaceValidate.replace_failed chk reason e w = (Raise (with_advice e), w)
  else
    let w' := if expected_failure e then w else (print_err (PBug e reason) w).2 in
    ∃ l, history (self w) !! graph_id (fgraph w) = Some (Some l) ∧
         ReplaceValidate.replace_failed chk reason e w = (Raise e, reverted l w') ∧
         edges (fgraph (reverted l w')) = edges (fgraph w0).
Proof.
  intros Hrec Hr Hc. unfold ReplaceValidate.replace_failed, depth_exhausted,
    expected_failure.
  destruct (contains ReplaceValidate.s3 (str e)); [done|].
  cbv zeta.
  destruct (contains ReplaceValidate.s1 (str e)),
           (contains ReplaceValidate.s2 (str e)); simpl.
  1-3: destruct (fgraph_revert_spec ReplaceValidate_LogsChanges w0 w chk Hrec Hr Hc)
         as (l & Hl & Hrev & He);
       exists l; split; [done|]; split; [|done];
       munfold; by rewrite Hrev.
  pose proof (print_err_recording w0 w (PBug e reason) Hrec) as Hrec'.
  destruct (fgraph_revert_spec ReplaceValidate_LogsChanges w0 _ chk Hrec' Hr Hc)
    as (l & Hl & Hrev & He).
  exists l. split; [done|]. split; [|done].
  munfold. unfold print_err in Hrev. simpl in Hrev. by rewrite Hrev.
Qed.

Lemma loop_prefix chk reason pre : ∀ w w',
  rewrites pre reason w = (Ok (), w') →
  for_each pre (txn_body chk reason) w = (Ok (), w').
Proof.
  induction pre as [|[r new_r] pre IH]; intros w w' H; unfold rewrites in *;
    simpl in *; [done|].
  unfold bind, try_except in *.
  destruct (replace r new_r reason w) as [[[]|e] w1]; [|done].
  by apply IH.
Qed.

Lemma loop_outcome w0 chk reason reps :
  attrs (fgraph w0) !! "revert" = Some (APartial "revert") →
  attrs (fgraph w0) !! "checkpoint" = Some (AGetCheckpoint chk) →
  ∀ w, recording w0 w →
  match for_each reps (txn_body chk reason) w with
  | (Ok _, w') => recording w0 w' ∧ rewrites reps reason w = (Ok (), w')
  | (Raise e, w') =>
      edges (fgraph w') = edges (fgraph w0) ∨
      ∃ e0, depth_exhausted e0 = true ∧ e = with_advice e0
  end.
Proof.
  intros Hr Hc. induction reps as [|[r new_r] reps IH]; intros w Hrec;
    unfold rewrites in *; simpl; [done|].
  unfold bind, try_except.
  pose proof (replace_recording ReplaceValidate_LogsChanges w0 w r new_r reason Hrec)
    as Hrec1.
  destruct (replace r new_r reason w) as [[[]|e] w1]; simpl in Hrec1.
  - by apply IH.
  - pose proof (replace_failed_spec w0 w1 chk reason e Hrec1 Hr Hc) as H.
    destruct (depth_exhausted e) eqn:Hd.
    + rewrite H. right. by exists e.
    + destruct H as (l & _ & -> & He). by left.
Qed.

Lemma bound_r_None reps : ReplaceValidate.bound_r reps = None → reps = [].
Proof.
  unfold ReplaceValidate.bound_r.
  destruct (list.last reps) as [[r new_r]|] eqn:H; [done|].
  intros _. by apply last_None.
Qed.

Lemma bound_new_r_None reps : ReplaceValidate.bound_new_r reps = None → reps = [].
Proof.
  unfold ReplaceValidate.bound_new_r.
  destruct (list.last reps) as [[r new_r]|] eqn:H; [done|].
  intros _. by apply last_None.
Qed.

(** The outcomes of a transaction: it returns the checkpoint it took and
    the log records what it did, or it raises with the edges as they were
    before the call, or it passes on a depth-exhaustion error. *)
Lemma replace_all_validate_outcome w reps reason verbose :
  attached w = true →
  ∃ nb, attrs (fgraph w) !! "checkpoint" = Some (AGetCheckpoint nb) ∧
    match ReplaceValidate.replace_all_validate reps reason verbose w with
    | (Ok chk, w') => chk = nb + 1 ∧ recording (checkpointed nb w) w'
    | (Raise e, w') =>
        edges (fgraph w') = edges (fgraph w) ∨
        ∃ e0, depth_exhausted e0 = true ∧ e = with_advice e0
    end.
Proof.
  intros Hatt. destruct (attached_facts w Hatt) as (Hh & Hrev & Hval & _).
  destruct (fgraph_checkpoint_spec w Hh) as (nb & Hnb & Hc & Hrec & He).
  exists nb. split; [done|].
  set (w1 := checkpointed nb w) in *.
  assert (Hrev1 : attrs (fgraph w1) !! "revert" = Some (APartial "revert")).
  { simpl. by rewrite lookup_insert_ne. }
  assert (Hchk1 : attrs (fgraph w1) !! "checkpoint" = Some (AGetCheckpoint (nb + 1))).
  { simpl. by rewrite lookup_insert_eq. }
  assert (Hval1 : attrs (fgraph w1) !! "validate" = Some (APartial "validate_")).
  { simpl. by rewrite lookup_insert_ne. }
  unfold ReplaceValidate.replace_all_validate.
  rewrite (bind_ok _ _ _ _ _ Hc).
  pose proof (loop_outcome w1 (nb + 1) reason reps Hrev1 Hchk1 w1 Hrec) as Hloop.
  unfold txn_body in Hloop. unfold bind at 1.
  destruct (for_each reps _ w1) as [[[]|e] w2] eqn:Hrun.
  2: { destruct Hloop as [Hl|Hl]; [left|by right]. by rewrite Hl. }
  destruct Hloop as [Hrec2 Hrw].
  unfold bind at 1. unfold try_except at 1.
  rewrite fgraph_validate_in_transaction
    by (destruct Hrec2 as (_ & -> & _); done).
  pose proof (quiet_recording _ w1 w2 validate_quiet Hrec2) as Hrec3.
  destruct (execute_callbacks_validate w2) as [[[]|e] w3] eqn:Hv; simpl in Hrec3.
  - (* validation passed *)
    destruct (default optimizer_verbose verbose); munfold; [|done].
    destruct (ReplaceValidate.bound_r reps) as [r|] eqn:Hbr; simpl.
    + destruct (ReplaceValidate.bound_new_r reps) as [new_r|] eqn:Hbn; simpl; [done|].
      apply bound_new_r_None in Hbn. subst reps.
      unfold ReplaceValidate.bound_r in Hbr. done.
    + apply bound_r_None in Hbr. subst reps. simpl in Hrun.
      left. destruct Hrec3 as (_ & _ & _ & _ & l & Hl & Hrew & _).
      unfold ret in Hrun. inversion Hrun; subst w2.
      pose proof (validate_quiet w1) as (Hg & Hh1 & _). rewrite Hv in Hg, Hh1.
      simpl in Hg. rewrite Hg. exact He.
  - (* validation failed *)
    destruct (fgraph_revert_spec ReplaceValidate_LogsChanges w1 w3 (nb + 1)
                Hrec3 Hrev1 Hchk1) as (l & Hl & Hrevert & Hedges).
    munfold. rewrite Hrevert.
    destruct (default optimizer_verbose verbose); simpl.
    + destruct (ReplaceValidate.bound_r reps); simpl; left;
        (transitivity (edges (fgraph w1)); [exact Hedges|exact He]).
    + left. transitivity (edges (fgraph w1)); [exact Hedges|exact He].
Qed.

(** A transaction whose rewrites all succeeded and whose validation
    failed with [e]: the log is replayed, and [e] is raised again unless
    the diagnostic of the verbose mode finds [r] unbound. *)
Lemma validation_failure_outcome w reps reason verbose chk w1 w2 e w3 :
  attached w = true →
  fgraph_checkpoint w = (Ok chk, w1) →
  rewrites reps reason w1 = (Ok (), w2) →
  execute_callbacks_validate w2 = (Raise e, w3) →
  ∃ l, history (self w3) !! graph_id (fgraph w3) = Some (Some l) ∧
    let w4 := reverted l w3 in
    edges (fgraph w4) = edges (fgraph w) ∧
    ReplaceValidate.replace_all_validate reps reason verbose w =
      if default optimizer_verbose verbose then
        match ReplaceValidate.bound_r reps with
        | Some r => (Raise e, (print (PValidateFailed r reason e) w4).2)
        | None => (Raise (mkExn UnboundLocalError
                     ["local variable 'r' referenced before assignment"]), w4)
        end
      else (Raise e, w4).
Proof.
  intros Hatt Hc0 Hrw Hv.
  destruct (attached_facts w Hatt) as (Hh & Hrev & Hval & _).
  destruct (fgraph_checkpoint_spec w Hh) as (nb & Hnb & Hc & Hrec & He).
  rewrite Hc in Hc0. inversion Hc0; subst chk w1. clear Hc0.
  set (w1 := checkpointed nb w) in *.
  assert (Hrev1 : attrs (fgraph w1) !! "revert" = Some (APartial "revert")).
  { simpl. by rewrite lookup_insert_ne. }
  assert (Hchk1 : attrs (fgraph w1) !! "checkpoint" = Some (AGetCheckpoint (nb + 1))).
  { simpl. by rewrite lookup_insert_eq. }
  assert (Hrec2 : recording w1 w2).
  { pose proof (rewrites_recording ReplaceValidate_LogsChanges w1 w1 reps reason Hrec) as H.
    by rewrite Hrw in H. }
  assert (Hrec3 : recording w1 w3).
  { pose proof (quiet_recording _ w1 w2 validate_quiet Hrec2) as H.
    by rewrite Hv in H. }
  destruct (fgraph_revert_spec ReplaceValidate_LogsChanges w1 w3 (nb + 1)
              Hrec3 Hrev1 Hchk1) as (l & Hl & Hrevert & Hedges).
  exists l. split; [done|]. cbv zeta.
  split; [transitivity (edges (fgraph w1)); [exact Hedges|exact He]|].
  unfold ReplaceValidate.replace_all_validate.
  rewrite (bind_ok _ _ _ _ _ Hc).
  rewrite (bind_ok _ _ _ _ _ (loop_prefix (nb + 1) reason reps w1 w2 Hrw)).
  unfold bind at 1. unfold try_except at 1.
  rewrite fgraph_validate_in_transaction.
  2: { destruct Hrec2 as (_ & -> & _). simpl. by rewrite lookup_insert_ne. }
  rewrite Hv. munfold. rewrite Hrevert.
  destruct (default optimizer_verbose verbose); simpl; [|done].
  by destruct (ReplaceValidate.bound_r reps).
Qed.

(** C1 (the code departs from the claim). A transaction without
    rewrite pairs, in verbose mode, on a graph whose validation fails with
    the error "Trying to reintroduce a removed node": the edges are those
    from before the call, but the error that comes out is the
    [UnboundLocalError] of the diagnostic that prints [r], which the loop
    never bound, and not the validation error. *)
Theorem replace_all_validate_empty_verbose :
  let w := Demo.armed_world in
  let w1 := (fgraph_checkpoint w).2 in
  let out := ReplaceValidate.replace_all_validate (ext := Demo.ext)
               (cls := ReplaceValidate.feature) [] RNone (Some true) w in
  (execute_callbacks_validate (ext := Demo.ext) (cls := ReplaceValidate.feature) w1).1
    = Raise (mkExn InconsistencyError ["Trying to reintroduce a removed node"]) ∧
  out.1 = Raise (mkExn UnboundLocalError
                   ["local variable 'r' referenced before assignment"]) ∧
  edges (fgraph out.2) = edges (fgraph w).
Proof. cbv zeta. split; [|split]; vm_compute; reflexivity. Qed.

(** C3. Error classification: when the rewrites before it succeeded and
    a rewrite raises [e], then, if the message of [e] is that of a
    depth exhaustion, [e] (with the advice to raise the stack limit added
    to its arguments) comes out at once and the world is the one the
    failed rewrite left: nothing is reverted, nothing is printed;
    otherwise the log is replayed, the edges are those from before the
    call and [e] itself comes out, and the diagnostic stream received the
    message about [e] beforehand exactly when its message is neither that
    of a type mismatch nor that of a value foreign to the graph. *)
Theorem replace_error_classification w pre r new_r post reason verbose
    chk w1 w2 e w3 :
  attached w = true →
  fgraph_checkpoint w = (Ok chk, w1) →
  rewrites pre reason w1 = (Ok (), w2) →
  replace r new_r reason w2 = (Raise e, w3) →
  let out := ReplaceValidate.replace_all_validate
               (pre ++ (r, new_r) :: post) reason verbose w in
  if depth_exhausted e then out = (Raise (with_advice e), w3)
  else
    ∃ l, history (self w3) !! graph_id (fgraph w3) = Some (Some l) ∧
      let w3' := if expected_failure e then w3
                 else (print_err (PBug e reason) w3).2 in
      out = (Raise e, reverted l w3') ∧
      edges (fgraph out.2) = edges (fgraph w) ∧
      calls (fgraph out.2) = calls (fgraph w3) ++ (undo_call <$> reverse l) ∧
      stderr out.2 = (if expected_failure e then stderr w3
                      else stderr w3 ++ [PBug e reason]).
Proof.
  intros Hatt Hc0 Hrw Hfail.
  destruct (attached_facts w Hatt) as (Hh & Hrev & Hval & _).
  destruct (fgraph_checkpoint_spec w Hh) as (nb & Hnb & Hc & Hrec & He).
  rewrite Hc in Hc0. inversion Hc0; subst chk w1. clear Hc0.
  set (w1 := checkpointed nb w) in *.
  assert (Hrev1 : attrs (fgraph w1) !! "revert" = Some (APartial "revert")).
  { simpl. by rewrite lookup_insert_ne. }
  assert (Hchk1 : attrs (fgraph w1) !! "checkpoint" = Some (AGetCheckpoint (nb + 1))).
  { simpl. by rewrite lookup_insert_eq. }
  assert (Hrec2 : recording w1 w2).
  { pose proof (rewrites_recording ReplaceValidate_LogsChanges w1 w1 pre reason Hrec) as H.
    by rewrite Hrw in H. }
  assert (Hrec3 : recording w1 w3).
  { pose proof (replace_recording ReplaceValidate_LogsChanges w1 w2 r new_r reason Hrec2) as H.
    by rewrite Hfail in H. }
  pose proof (replace_failed_spec w1 w3 (nb + 1) reason e Hrec3 Hrev1 Hchk1) as Hspec.
  assert (Hout : ∀ e' w4,
            ReplaceValidate.replace_failed (nb + 1) reason e w3 = (Raise e', w4) →
            ReplaceValidate.replace_all_validate
              (pre ++ (r, new_r) :: post) reason verbose w = (Raise e', w4)).
  { intros e' w4 Hrf. unfold ReplaceValidate.replace_all_validate.
    rewrite (bind_ok _ _ _ _ _ Hc).
    pose proof (for_each_app pre ((r, new_r) :: post) (txn_body (nb + 1) reason)
                  w1 w2 (loop_prefix (nb + 1) reason pre w1 w2 Hrw)) as Happ.
    unfold txn_body in Happ. unfold bind at 1. rewrite Happ. simpl.
    unfold bind at 1. unfold try_except at 1. rewrite Hfail.
    by rewrite Hrf. }
  cbv zeta.
  destruct (depth_exhausted e); [by apply Hout|].
  destruct Hspec as (l & Hl & Hres & Hedges).
  exists l. split; [done|]. rewrite (Hout _ _ Hres). split; [done|].
  split; [transitivity (edges (fgraph w1)); [exact Hedges|exact He]|].
  split.
  - simpl. rewrite undo_graph_calls. by destruct (expected_failure e).
  - by destruct (expected_failure e).
Qed.

End Transactions.

Lemma replace_error_classification_witness :
  let w := Demo.world in
  let w1 := (fgraph_checkpoint w).2 in
  let w2 := (rewrites (ext := Demo.ext) (cls := ReplaceValidate.feature)
               [(1, 4)] RNone w1).2 in
  let e := mkExn Exception ["a listener failed"] in
  let w3 := (replace (ext := Demo.ext) (cls := ReplaceValidate.feature) 2 8 RNone w2).2 in
  let out := ReplaceValidate.replace_all_validate (ext := Demo.ext)
               (cls := ReplaceValidate.feature)
               ([(1, 4)] ++ (2, 8) :: [(3, 6)]) RNone None w in
  attached w = true ∧
  out.1 = Raise e ∧
  edges (fgraph out.2) = edges (fgraph w) ∧
  stderr out.2 = stderr w3 ++ [PBug e RNone].
Proof.
  intros w w1 w2 e w3 out.
  assert (Hatt : attached w = true) by (vm_compute; reflexivity).
  assert (Hc : fgraph_checkpoint w = (Ok 1, w1)) by (vm_compute; reflexivity).
  assert (Hrw : rewrites (ext := Demo.ext) (cls := ReplaceValidate.feature)
                  [(1, 4)] RNone w1 = (Ok (), w2)) by (vm_compute; reflexivity).
  assert (Hf : replace (ext := Demo.ext) (cls := ReplaceValidate.feature)
                 2 8 RNone w2 = (Raise e, w3)) by (vm_compute; reflexivity).
  pose proof (replace_error_classification (ext := Demo.ext) w [(1, 4)] 2 8
                [(3, 6)] RNone None 1 w1 w2 e w3 Hatt Hc Hrw Hf) as H.
  assert (Hd : depth_exhausted e = false) by (vm_compute; reflexivity).
  assert (Hx : expected_failure e = false) by (vm_compute; reflexivity).
  cbv zeta in H. rewrite Hd, Hx in H.
  destruct H as (l & _ & Hout & Hedges & _ & Herr).
  split; [exact Hatt|].
  split; [exact (f_equal fst Hout)|].
  split; [exact Hedges|exact Herr].
Defined.

(** ** Which operations raise which exceptions *)

Create HintDb never_raises.

Section NeverRaises.
Context {S : Type} (T : ExnType).

Lemma nr_ret {A} (a : A) : never_raises (S := S) T (ret a).
Proof. by intros w e w' H. Qed.

Lemma nr_raise {A} e : exn_type e ≠ T → never_raises (S := S) (A := A) T (raise e).
Proof. intros He w e' w' H. unfold raise in H. by inversion H; subst. Qed.

Lemma nr_bind {A B} (m : M S A) (k : A → M S B) :
  never_raises T m → (∀ a, never_raises T (k a)) → never_raises T (bind m k).
Proof.
  intros Hm Hk w e w' H. unfold bind in H.
  destruct (m w) as [[a|e1] w1] eqn:Hmw.
  - by eapply Hk.
  - inversion H; subst. by eapply Hm.
Qed.

Lemma nr_try_except {A} (m : M S A) (h : Exn → M S A) :
  never_raises T m → (∀ e, exn_type e ≠ T → never_raises T (h e)) →
  never_raises T (try_except m h).
Proof.
  intros Hm Hh w e w' H. unfold try_except in H.
  destruct (m w) as [[a|e1] w1] eqn:Hmw; [done|].
  eapply Hh; [|exact H]. by eapply Hm.
Qed.

Lemma nr_for_each {A} (l : list A) (body : A → M S unit) :
  (∀ x, never_raises T (body x)) → never_raises T (for_each l body).
Proof.
  intros Hb. induction l as [|x l IH]; simpl.
  - apply nr_ret.
  - apply nr_bind; [apply Hb|]. by intros _.
Qed.

Lemma nr_get_fgraph : never_raises (S := S) T get_fgraph.
Proof. by intros w e w' H. Qed.
Lemma nr_get_self : never_raises (S := S) T get_self.
Proof. by intros w e w' H. Qed.
Lemma nr_modify_fgraph f : never_raises (S := S) T (modify_fgraph f).
Proof. by intros w e w' H. Qed.
Lemma nr_modify_self f : never_raises (S := S) T (modify_self f).
Proof. by intros w e w' H. Qed.
Lemma nr_print p : never_raises (S := S) T (print p).
Proof. by intros w e w' H. Qed.
Lemma nr_print_err p : never_raises (S := S) T (print_err p).
Proof. by intros w e w' H. Qed.

End NeverRaises.

#[global] Hint Resolve nr_ret nr_bind nr_try_except nr_for_each nr_get_fgraph
  nr_get_self nr_modify_fgraph nr_modify_self nr_print nr_print_err
  : never_raises.
#[global] Hint Extern 1 (never_raises _ (raise _)) =>
  apply nr_raise; simpl; first [done | congruence] : never_raises.
#[global] Hint Extern 1 (never_raises _ (attribute_error _)) =>
  apply nr_raise; simpl; first [done | congruence] : never_raises.
#[global] Hint Extern 2 (never_raises _ (match ?x with _ => _ end)) =>
  destruct x : never_raises.
#[global] Hint Extern 2 (never_raises _ (let '(_, _) := ?x in _)) =>
  destruct x : never_raises.

Ltac nr := eauto 30 with never_raises.

Section Removal.
Context {ext : External}.
Local Existing Instance ReplaceValidate.feature.
Local Abbreviation RDR := ReplacementDidntRemovedError.

Lemma nr_history_get : never_raises RDR history_get.
Proof. unfold history_get. nr. Qed.
Lemma nr_history_set h : never_raises RDR (history_set h).
Proof. unfold history_set. nr. Qed.
Hint Resolve nr_history_get nr_history_set : never_raises.

Lemma nr_fgraph_checkpoint : never_raises RDR fgraph_checkpoint.
Proof. unfold fgraph_checkpoint, GetCheckpoint.call. nr. Qed.
Lemma nr_fgraph_checkpoint_nb : never_raises RDR fgraph_checkpoint_nb.
Proof. unfold fgraph_checkpoint_nb. nr. Qed.
Hint Resolve nr_fgraph_checkpoint nr_fgraph_checkpoint_nb : never_raises.

Lemma nr_on_change_input node i r new_r reason :
  never_raises RDR (History.on_change_input node i r new_r reason).
Proof. unfold History.on_change_input. nr. Qed.
Lemma nr_on_import n reason : never_raises RDR (ReplaceValidate.on_import n reason).
Proof. unfold ReplaceValidate.on_import. nr. Qed.
Lemma nr_validate : never_raises RDR ReplaceValidate.validate.
Proof. unfold ReplaceValidate.validate. nr. Qed.
Hint Resolve nr_on_change_input nr_on_import nr_validate : never_raises.

Lemma nr_change_input node i new_r reason :
  never_raises RDR (change_input node i new_r reason).
Proof. unfold change_input. simpl. nr. Qed.
Hint Resolve nr_change_input : never_raises.

Lemma nr_run_edit reason e : never_raises RDR (run_edit reason e).
Proof.
  destruct e; simpl; unfold import_node, prune_node, FeatureBase.on_prune; simpl; nr.
Qed.
Hint Resolve nr_run_edit : never_raises.

Lemma nr_fgraph_revert chk : never_raises RDR (fgraph_revert chk).
Proof.
  assert (Hloop : ∀ stack, never_raises RDR (History.revert_loop stack)).
  { induction stack; simpl; unfold LambdExtractM.call; nr. }
  assert (Hrevert : never_raises RDR (History.revert chk)).
  { unfold History.revert. nr. }
  unfold fgraph_revert. apply nr_bind; [nr|]. intros g.
  repeat case_match; nr.
Qed.
Hint Resolve nr_fgraph_revert : never_raises.

Section WithExternal.
Hypothesis Hext : external_never_raises ext RDR.

Lemma nr_replace r new_r reason : never_raises RDR (replace r new_r reason).
Proof.
  intros w e w' H. unfold replace, bind, get_fgraph in H.
  destruct (fg_replace (fgraph w) r new_r reason) as [es err] eqn:Hx.
  pose proof (nr_for_each RDR es (run_edit reason) (nr_run_edit reason)) as Hes.
  unfold run_edits in H.
  destruct (for_each es (run_edit reason) w) as [[[]|e1] w1] eqn:Hrun.
  - destruct err as [e1|]; [|done]. inversion H; subst.
    destruct Hext as (Hr & _). by eapply Hr.
  - inversion H; subst. by eapply Hes.
Qed.

Lemma nr_execute_callbacks_validate : never_raises RDR execute_callbacks_validate.
Proof.
  destruct Hext as (_ & Hb & Ha).
  intros w e w' H. unfold execute_callbacks_validate, bind, get_fgraph in H.
  destruct (validate_before (fgraph w)) as [e1|] eqn:Hvb.
  { inversion H; subst. by eapply Hb. }
  simpl in H.
  destruct (ReplaceValidate.validate w) as [[[]|e1] w1] eqn:Hv.
  - destruct (validate_after (fgraph w1)) as [e1|] eqn:Hva; [|done].
    inversion H; subst. by eapply Ha.
  - inversion H; subst. by eapply nr_validate.
Qed.
Hint Resolve nr_replace nr_execute_callbacks_validate : never_raises.

Lemma nr_fgraph_validate uf : never_raises RDR (Validator.fgraph_validate uf).
Proof.
  assert (Hv : never_raises RDR (Validator.validate_ uf)).
  { unfold Validator.validate_. nr. }
  unfold Validator.fgraph_validate. apply nr_bind; [nr|]. intros g.
  repeat case_match; nr.
Qed.
Hint Resolve nr_fgraph_validate : never_raises.

Lemma nr_replace_all_validate reps reason verbose :
  never_raises RDR (ReplaceValidate.replace_all_validate reps reason verbose).
Proof.
  unfold ReplaceValidate.replace_all_validate, ReplaceValidate.replace_failed,
    ReplaceValidate.local.
  nr.
Qed.

End WithExternal.
Lemma recording_set_nodes_removed w0 w r :
  recording w0 w →
  recording (upd_self (set_nodes_removed r) w0) (upd_self (set_nodes_removed r) w).
Proof.
  intros (Hid & Hattrs & Hdom & Hrm & l & Hl & Hrew & Hslots).
  by repeat split; [..|exists l].
Qed.

Lemma fgraph_replace_all_validate_eq w reps reason :
  attached w = true →
  ReplaceValidate.fgraph_replace_all_validate reps reason w
  = ReplaceValidate.replace_all_validate reps reason None w.
Proof.
  intros Hatt. destruct (attached_facts w Hatt) as (_ & _ & _ & H & _).
  unfold ReplaceValidate.fgraph_replace_all_validate. munfold. by rewrite H.
Qed.

Lemma remove_loop_spec w0 chk reps reason warn remove : ∀ w,
  recording w0 w →
  attrs (fgraph w0) !! "revert" = Some (APartial "revert") →
  attrs (fgraph w0) !! "checkpoint" = Some (AGetCheckpoint chk) →
  ∃ l, history (self w) !! graph_id (fgraph w) = Some (Some l) ∧
    edges (fgraph (reverted l w)) = edges (fgraph w0) ∧
    for_each remove (remove_check chk reps reason warn) w =
      if existsb (ReplaceValidate.present (fgraph w)) remove
      then (Raise (mkExn RDR []), warned warn reason reps (reverted l w))
      else (Ok (), w).
Proof.
  intros w Hrec Hr Hc.
  destruct (fgraph_revert_spec ReplaceValidate_LogsChanges w0 w chk Hrec Hr Hc)
    as (l & Hl & Hrev & He).
  exists l. split; [done|]. split; [done|].
  induction remove as [|rm remove IH]; simpl; [done|].
  unfold bind at 1. unfold remove_check at 1. munfold.
  destruct (ReplaceValidate.present (fgraph w) rm); simpl.
  - rewrite Hrev. unfold warned. by destruct warn.
  - exact IH.
Qed.

(** C4. Contract of [replace_all_validate_remove], on a graph the
    feature is attached to.  (1) When it returns, no member of [remove] is
    among the apply nodes or the variables of the graph.  (2) When the
    inner [replace_all_validate] returned and a member of [remove] is
    still in the graph, the log is replayed by a revert to the checkpoint
    of the inner call, so that the edges are those from before the call,
    the warning is printed exactly when [warn] is set, and
    [ReplacementDidntRemovedError] is raised.  (3) As long as the graph
    and the other features do not raise this class themselves, checkpoint,
    revert, validation, [replace_all_validate], [replace_validate] and
    the callbacks of the component never raise it, and whenever
    [replace_all_validate_remove] raises it the revert has happened: the
    edges are those from before the call and the log is empty. *)
Theorem replace_all_validate_remove_contract w reps remove reason warn :
  attached w = true →
  let out := ReplaceValidate.replace_all_validate_remove reps remove reason warn w in
  (out.1 = Ok () →
     ∀ rm, rm ∈ remove → ReplaceValidate.present (fgraph out.2) rm = false) ∧
  (∀ chk w1,
     ReplaceValidate.fgraph_replace_all_validate reps reason w = (Ok chk, w1) →
     (∃ rm, rm ∈ remove ∧ ReplaceValidate.present (fgraph w1) rm = true) →
     ∃ l, history (self w1) !! graph_id (fgraph w1) = Some (Some l) ∧
       out.1 = Raise (mkExn RDR []) ∧
       edges (fgraph out.2) = edges (fgraph w) ∧
       calls (fgraph out.2) = calls (fgraph w1) ++ (undo_call <$> reverse l) ∧
       stderr out.2 = stderr w1 ++
         (if warn then [PWarning; PReasonReplacements reason reps] else [])) ∧
  (external_never_raises ext RDR →
     never_raises RDR fgraph_checkpoint ∧
     (∀ chk, never_raises RDR (fgraph_revert chk)) ∧
     (∀ uf, never_raises RDR (Validator.fgraph_validate uf)) ∧
     (∀ reps' reason' verbose,
        never_raises RDR (ReplaceValidate.replace_all_validate reps' reason' verbose)) ∧
     (∀ r new_r reason',
        never_raises RDR (ReplaceValidate.replace_validate r new_r reason')) ∧
     (∀ n reason', never_raises RDR (ReplaceValidate.on_import n reason')) ∧
     never_raises RDR ReplaceValidate.validate ∧
     (∀ e, out.1 = Raise e → exn_type e = RDR →
        edges (fgraph out.2) = edges (fgraph w) ∧
        history (self out.2) !! graph_id (fgraph out.2) = Some (Some []))).
Proof.
  intros Hatt out.
  destruct (attached_facts w Hatt) as (Hh & Hrev & Hval & _ & [removed Hrm] & _).
  destruct (replace_all_validate_outcome w reps reason None Hatt) as (nb & Hnb & Hout).
  assert (Hcases :
    match ReplaceValidate.fgraph_replace_all_validate reps reason w with
    | (Ok chk, w1) =>
        ∃ l, history (self w1) !! graph_id (fgraph w1) = Some (Some l) ∧
          let w1' := upd_self (set_nodes_removed
                        (Some (removed ∪ list_to_set remove))) w1 in
          edges (fgraph (reverted l w1')) = edges (fgraph w) ∧
          out = if existsb (ReplaceValidate.present (fgraph w1)) remove
                then (Raise (mkExn RDR []), warned warn reason reps (reverted l w1'))
                else (Ok (), w1')
    | (Raise e, w1) => out = (Raise e, w1)
    end).
  { rewrite (fgraph_replace_all_validate_eq w reps reason Hatt).
    pose proof (fgraph_replace_all_validate_eq w reps reason Hatt) as Heq.
    destruct (ReplaceValidate.replace_all_validate reps reason None w)
      as [[chk|e] w1] eqn:Hinner.
    2: { unfold out, ReplaceValidate.replace_all_validate_remove.
         by rewrite (bind_raise _ _ _ _ _ Heq). }
    unfold out, ReplaceValidate.replace_all_validate_remove.
    rewrite (bind_ok _ _ _ _ _ Heq).
    destruct Hout as [-> Hrec]. munfold.
    assert (Hrm1 : _nodes_removed (self w1) = Some removed).
    { destruct Hrec as (_ & _ & _ & -> & _). done. }
    rewrite Hrm1.
    set (r' := Some (removed ∪ list_to_set remove)).
    pose proof (recording_set_nodes_removed _ _ r' Hrec) as Hrec'.
    destruct (remove_loop_spec _ (nb + 1) reps reason warn remove _ Hrec')
      as (l & Hl & He & Hloop).
    { simpl. by rewrite lookup_insert_ne. }
    { simpl. by rewrite lookup_insert_eq. }
    exists l. split; [done|]. split; [exact He|].
    unfold remove_check in Hloop. exact Hloop. }
  split; [|split].
  - intros Hok rm Hin.
    destruct (ReplaceValidate.fgraph_replace_all_validate reps reason w)
      as [[chk|e] w1].
    2: { rewrite Hcases in Hok. done. }
    destruct Hcases as (l & _ & _ & Hres).
    destruct (existsb (ReplaceValidate.present (fgraph w1)) remove) eqn:Hex;
      rewrite Hres in *; [done|]. simpl.
    destruct (ReplaceValidate.present (fgraph w1) rm) eqn:Hp; [|done].
    assert (existsb (ReplaceValidate.present (fgraph w1)) remove = true); [|congruence].
    apply existsb_exists. exists rm. split; [|done]. by apply list_elem_of_In.
  - intros chk w1 Hinner (rm & Hin & Hp). rewrite Hinner in Hcases.
    destruct Hcases as (l & Hl & He & Hres).
    assert (Hex : existsb (ReplaceValidate.present (fgraph w1)) remove = true).
    { apply existsb_exists. exists rm. split; [|done]. by apply list_elem_of_In. }
    rewrite Hex in Hres. exists l. rewrite Hres. split; [done|]. split; [done|].
    split; [|split].
    + destruct warn; exact He.
    + destruct warn; simpl; by rewrite undo_graph_calls.
    + destruct warn; simpl; [by rewrite <- app_assoc|by rewrite app_nil_r].
  - intros Hext. split; [apply nr_fgraph_checkpoint|].
    split; [apply nr_fgraph_revert|].
    split; [intros uf; by apply nr_fgraph_validate|].
    split; [intros; by apply nr_replace_all_validate|].
    split.
    { intros r new_r reason'. unfold ReplaceValidate.replace_validate.
      apply nr_bind; [by apply nr_replace_all_validate|]. intros _. apply nr_ret. }
    split; [apply nr_on_import|]. split; [apply nr_validate|].
    intros e Hraise Hty.
    destruct (ReplaceValidate.fgraph_replace_all_validate reps reason w)
      as [[chk|e1] w1] eqn:Hinner.
    2: { rewrite Hcases in Hraise. simpl in Hraise. inversion Hraise; subst e1.
         rewrite (fgraph_replace_all_validate_eq w reps reason Hatt) in Hinner.
         by apply (nr_replace_all_validate Hext) in Hinner. }
    destruct Hcases as (l & Hl & He & Hres).
    destruct (existsb (ReplaceValidate.present (fgraph w1)) remove);
      rewrite Hres in *; [|done].
    split.
    + destruct warn; exact He.
    + destruct warn; simpl; rewrite (proj1 (undo_graph_frame _ _));
        by rewrite lookup_insert_eq.
Qed.

End Removal.

Lemma replace_all_validate_remove_contract_witness :
  let out := ReplaceValidate.replace_all_validate_remove (ext := Demo.ext)
               (cls := ReplaceValidate.feature) [(1, 4)] [INode Demo.n1] RNone true
               Demo.world in
  attached Demo.world = true ∧
  out.1 = Raise (mkExn ReplacementDidntRemovedError []) ∧
  edges (fgraph out.2) = edges (fgraph Demo.world).
Proof.
  intros out.
  assert (Hatt : attached Demo.world = true) by (vm_compute; reflexivity).
  split; [exact Hatt|].
  destruct (replace_all_validate_remove_contract (ext := Demo.ext) Demo.world
              [(1, 4)] [INode Demo.n1] RNone true Hatt) as (_ & H & _).
  destruct (H 1 (ReplaceValidate.fgraph_replace_all_validate (ext := Demo.ext)
                   (cls := ReplaceValidate.feature) [(1, 4)] RNone Demo.world).2)
    as (l & _ & Hr & He & _).
  - vm_compute; reflexivity.
  - exists (INode Demo.n1). split; [apply list_elem_of_here|vm_compute; reflexivity].
  - split; [exact Hr|exact He].
Defined.

(** ** Attaching *)

(** The attach of [History], of [Validator] and of [NodeFinder], and the
    own check of [ReplaceValidate], raise [AlreadyThere] before they
    change anything. *)
Lemma on_attach_already_there_unchanged {ext : External} :
  (∀ w e w', History.on_attach w = (Raise e, w') → w' = w) ∧
  (∀ w e w', Validator.on_attach w = (Raise e, w') → w' = w) ∧
  (∀ w e w', NodeFinder.on_attach (cls := NodeFinder.feature) w = (Raise e, w') →
             exn_type e = AlreadyThere → w' = w) ∧
  (∀ w e w', ReplaceValidate.on_attach w = (Raise e, w') →
             hasattr (fgraph w) "replace_validate"
             || hasattr (fgraph w) "replace_all_validate"
             || hasattr (fgraph w) "replace_all_validate_remove" = true →
             w' = w).
Proof.
  repeat split.
  - intros w e w'. unfold History.on_attach. munfold.
    destruct (hasattr (fgraph w) "checkpoint" || hasattr (fgraph w) "revert");
      intros H; by inversion H.
  - intros w e w'. unfold Validator.on_attach. munfold.
    destruct (hasattr (fgraph w) "validate" || hasattr (fgraph w) "validate_time");
      intros H; by inversion H.
  - intros w e w'. unfold NodeFinder.on_attach. munfold.
    destruct (nf_fgraph (self w)).
    { intros H Hty. inversion H; subst. done. }
    destruct (hasattr (fgraph w) "get_nodes").
    { intros H _. by inversion H. }
    simpl. unfold Bookkeeper.on_attach. munfold. simpl.
    intros H Hty. exfalso. revert H.
    generalize (upd_fgraph (setattr "get_nodes" (APartial "query"))
                  (upd_self (NodeFinder.set_nf_fgraph (Some (graph_id (fgraph w)))) w)).
    generalize (io_toposort (setattr "get_nodes" (APartial "query") (fgraph w))).
    intros l. induction l as [|n l IH]; intros w0 H; simpl in H; [done|].
    unfold bind in H. unfold NodeFinder.on_import at 1 in H.
    destruct (hash (op n)) as [e0|] eqn:Hh.
    + destruct n as [id [k|k|k]]; simpl in *; try done.
      * inversion Hh; subst e0. simpl in H. by eapply IH.
      * inversion Hh; subst e0. simpl in H. munfold. inversion H; subst e. done.
    + munfold. destruct (d (self w0) !! op n); simpl in H; by eapply IH.
  - intros w e w' H Hhas. unfold ReplaceValidate.on_attach in H. munfold.
    rewrite Hhas in H. by inversion H.
Qed.

(** C5 (the code departs from the claim). [ReplaceValidate.on_attach] on
    a graph that a [Validator] already serves: the attach raises
    [AlreadyThere], from [Validator.on_attach], after [History.on_attach]
    has run: the graph now has the entry points [checkpoint] and [revert],
    which it did not have, and the instance has an undo log for the
    graph. *)
Theorem replace_validate_attach_not_cancelled :
  let w := Demo.validator_world in
  let out := ReplaceValidate.on_attach w in
  out.1 = Raise (mkExn AlreadyThere
    ["Validator feature is already present or in conflict with another plugin."]) ∧
  hasattr (fgraph w) "checkpoint" = false ∧
  hasattr (fgraph w) "revert" = false ∧
  hasattr (fgraph out.2) "checkpoint" = true ∧
  hasattr (fgraph out.2) "revert" = true ∧
  history (self w) !! graph_id (fgraph w) = None ∧
  history (self out.2) !! graph_id (fgraph w) = Some (Some []) ∧
  fgraph out.2 ≠ fgraph w.
Proof.
  cbv zeta. repeat split; try (vm_compute; reflexivity).
  intros H. apply (f_equal (λ g, hasattr g "checkpoint")) in H.
  vm_compute in H. discriminate.
Qed.

(** ** The reintroduction check *)

Section Reintroduction.
Context {ext : External}.
Local Existing Instance ReplaceValidate.feature.

Lemma validate_armed w :
  fail_validate (self w) = Some true →
  ReplaceValidate.validate w
  = (Raise reintroduced, upd_self (set_fail_validate (Some false)) w).
Proof. intros H. unfold ReplaceValidate.validate. munfold. by rewrite H. Qed.

Lemma validate_unarmed w :
  fail_validate (self w) = Some false → ReplaceValidate.validate w = (Ok (), w).
Proof. intros H. unfold ReplaceValidate.validate. munfold. by rewrite H. Qed.

Lemma import_removed_node w node reason removed :
  _nodes_removed (self w) = Some removed →
  INode node ∈ removed →
  import_node node reason w
  = (Ok (), upd_fgraph (λ g, set_apply_nodes ({[node]} ∪ apply_nodes g) g)
              (upd_self (set_fail_validate (Some true)) w)).
Proof.
  intros Hrm Hin. unfold import_node. simpl.
  unfold ReplaceValidate.on_import. munfold. rewrite Hrm.
  by rewrite bool_decide_eq_true_2.
Qed.

(** C6. Reintroduction detection: when a node of the removed-node set
    is imported again, the import succeeds, the node is in the graph, the
    flag [fail_validate] is set, and the next [validate] of the component
    raises the [InconsistencyError] "Trying to reintroduce a removed
    node"; so does the next [fgraph.validate()], from any caller, when the
    checks of the features registered before the component pass. *)
Theorem reintroduction_detected w node reason removed :
  _nodes_removed (self w) = Some removed →
  INode node ∈ removed →
  ∃ w1 w2,
    import_node node reason w = (Ok (), w1) ∧
    node ∈ apply_nodes (fgraph w1) ∧
    fail_validate (self w1) = Some true ∧
    ReplaceValidate.validate w1 = (Raise reintroduced, w2) ∧
    (∀ uf, attrs (fgraph w1) !! "validate" = Some (APartial "validate_") →
           validate_before (fgraph w1) = None →
           (Validator.fgraph_validate uf w1).1 = Raise reintroduced).
Proof.
  intros Hrm Hin. eexists _, _.
  split; [by eapply import_removed_node|].
  split; [simpl; set_solver|]. split; [done|].
  split; [by apply validate_armed|].
  intros uf Hattr Hvb.
  unfold Validator.fgraph_validate, Validator.validate_. munfold.
  rewrite Hattr. cbn iota.
  unfold execute_callbacks_validate. munfold. rewrite Hvb.
  cbn [validate ReplaceValidate.feature].
  rewrite validate_armed by done.
  case_bool_decide; [done|]. by destruct (f_verbose uf).
Qed.

(** C10. The reintroduction flag clears itself: with the flag set, a
    [validate] of the component raises the [InconsistencyError] and
    leaves the flag unset and the graph as it was, so the node is still
    there; the [validate] that follows passes and changes nothing.  An
    import of a removed node sets the flag, so it makes exactly one
    [validate] fail. *)
Theorem reintroduction_flag_clears_itself w node reason removed :
  _nodes_removed (self w) = Some removed →
  INode node ∈ removed →
  ∃ w1 w2,
    import_node node reason w = (Ok (), w1) ∧
    ReplaceValidate.validate w1 = (Raise reintroduced, w2) ∧
    fail_validate (self w2) = Some false ∧
    fgraph w2 = fgraph w1 ∧
    node ∈ apply_nodes (fgraph w2) ∧
    ReplaceValidate.validate w2 = (Ok (), w2).
Proof.
  intros Hrm Hin. eexists _, _.
  split; [by eapply import_removed_node|].
  split; [by apply validate_armed|].
  split; [done|]. split; [done|].
  split; [simpl; set_solver|].
  by apply validate_unarmed.
Qed.

End Reintroduction.

Lemma reintroduction_detected_witness :
  let w := upd_self (set_nodes_removed (Some {[INode Demo.n1]})) Demo.world in
  _nodes_removed (self w) = Some {[INode Demo.n1]} ∧
  (ReplaceValidate.validate
     (import_node (cls := ReplaceValidate.feature) Demo.n1 RNone w).2).1
  = Raise reintroduced.
Proof.
  intros w. split; [reflexivity|].
  destruct (reintroduction_detected (ext := Demo.ext) w Demo.n1 RNone
              {[INode Demo.n1]} eq_refl ltac:(set_solver))
    as (w1 & w2 & Himp & _ & _ & Hval & _).
  rewrite Himp. simpl. by rewrite Hval.
Defined.

Lemma reintroduction_flag_clears_itself_witness :
  let w := upd_self (set_nodes_removed (Some {[INode Demo.n1]})) Demo.world in
  let w1 := (import_node (cls := ReplaceValidate.feature) Demo.n1 RNone w).2 in
  let w2 := (ReplaceValidate.validate w1).2 in
  _nodes_removed (self w) = Some {[INode Demo.n1]} ∧
  (ReplaceValidate.validate w1).1 = Raise reintroduced ∧
  (ReplaceValidate.validate w2).1 = Ok ().
Proof.
  intros w w1 w2. split; [reflexivity|].
  destruct (reintroduction_flag_clears_itself w Demo.n1 RNone
              {[INode Demo.n1]} eq_refl ltac:(set_solver))
    as (w1' & w2' & Himp & Hval & _ & _ & _ & Hval2).
  unfold w2, w1. rewrite Himp. simpl. rewrite Hval. simpl. by rewrite Hval2.
Defined.

(** ** A revert with a stale handle *)

Section StaleRevert.
Context {ext : External} {cls : Feature Self} (LC : LogsChanges cls).

Lemma run_edit_suspended reason e w :
  suspended w → suspended (run_edit reason e w).2.
Proof.
  unfold suspended. intros Hs.
  destruct e as [node i new_r|n|n|v|v]; simpl; try done.
  - unfold change_input. munfold.
    destruct (edges (fgraph w) !! (node, i)) as [r|]; [|done].
    rewrite (lc_change _ LC). by rewrite on_change_input_sentinel.
  - unfold import_node. munfold.
    destruct (lc_import _ LC n reason w) as (Hg & Hh & _).
    destruct (on_import n reason w) as [[[]|e] w']; simpl in *;
      by rewrite Hg, Hh.
  - unfold prune_node. munfold.
    destruct (lc_prune _ LC n reason
                (upd_fgraph (λ g, set_apply_nodes (apply_nodes g ∖ {[n]}) g) w))
      as (Hg & Hh & _).
    by rewrite Hg, Hh.
Qed.

Lemma revert_suspended handle w :
  suspended w → suspended (History.revert handle w).2.
Proof.
  unfold suspended. intros Hs.
  unfold History.revert, history_get, history_set, fgraph_checkpoint_nb. munfold.
  rewrite Hs. simpl.
  assert (Hs' : <[graph_id (fgraph w) := None]> (history (self w))
                !! graph_id (fgraph w) = Some None) by by rewrite lookup_insert_eq.
  destruct (attrs (fgraph w) !! "checkpoint") as [[nb| |]|]; simpl; try done.
  case_bool_decide; simpl; [|done]. by rewrite lookup_insert_eq.
Qed.

Lemma fgraph_revert_suspended handle w :
  suspended w → suspended (fgraph_revert handle w).2.
Proof.
  intros Hs. pose proof (revert_suspended handle w Hs) as Hr.
  unfold fgraph_revert. munfold.
  repeat case_match; done.
Qed.

(** C9, as the code has it. A revert with a handle other than the
    number of the last checkpoint raises the assertion error after it has
    switched the log off: nothing is undone and the log is not restored.
    While the log is off every [on_change_input] is dropped, and it stays
    off through any edits and any further revert.  It is not off for
    good: the next [checkpoint()] sets the log to the empty list, and the
    notifications that follow are recorded again. *)
Theorem stale_revert_suspends_log w handle nb h :
  attrs (fgraph w) !! "checkpoint" = Some (AGetCheckpoint nb) →
  attrs (fgraph w) !! "revert" = Some (APartial "revert") →
  history (self w) !! graph_id (fgraph w) = Some h →
  handle ≠ nb →
  let w1 := switched_off w in
  fgraph_revert handle w = (Raise (mkExn AssertionError []), w1) ∧
  suspended w1 ∧
  (∀ w', suspended w' → ∀ node i r new_r reason,
     History.on_change_input node i r new_r reason w' = (Ok (), w')) ∧
  (∀ reason es, suspended (run_edits reason es w1).2) ∧
  (∀ handle', suspended (fgraph_revert handle' w1).2) ∧
  ∃ w2, fgraph_checkpoint w1 = (Ok (nb + 1), w2) ∧
        history (self w2) !! graph_id (fgraph w2) = Some (Some []) ∧
        ∀ node i r new_r reason,
          history (self (History.on_change_input node i r new_r reason w2).2)
            !! graph_id (fgraph w2)
          = Some (Some [mkLambdExtract node i r reason]).
Proof.
  intros Hc Hr Hh Hne w1.
  assert (Hs1 : suspended w1).
  { unfold suspended, w1. simpl. by rewrite lookup_insert_eq. }
  split.
  { unfold fgraph_revert, History.revert, history_get, history_set,
      fgraph_checkpoint_nb. munfold.
    rewrite Hr. simpl. rewrite Hh. simpl. rewrite Hc.
    rewrite bool_decide_eq_false_2 by done. done. }
  split; [done|].
  split; [intros; by apply on_change_input_sentinel|].
  split.
  { intros reason es.
    apply (for_each_invariant suspended); [|done].
    intros e w'. apply run_edit_suspended. }
  split; [intros; by apply fgraph_revert_suspended|].
  exists (checkpointed nb w1).
  split.
  { unfold fgraph_checkpoint, GetCheckpoint.call, history_set. munfold.
    simpl. by rewrite Hc. }
  split; [simpl; by rewrite lookup_insert_eq|].
  intros node i r new_r reason.
  rewrite (on_change_input_recording _ []).
  - simpl. by rewrite lookup_insert_eq.
  - simpl. by rewrite lookup_insert_eq.
Qed.

End StaleRevert.

Lemma stale_revert_suspends_log_witness :
  let w := Demo.history_world in
  let w1 := (fgraph_revert (ext := Demo.ext) (cls := History.feature) 7 w).2 in
  (fgraph_revert (ext := Demo.ext) (cls := History.feature) 7 w).1
    = Raise (mkExn AssertionError []) ∧
  suspended w1 ∧
  suspended (run_edits (cls := History.feature) RNone [EChangeInput Output 0 5] w1).2.
Proof.
  intros w w1.
  destruct (stale_revert_suspends_log (ext := Demo.ext) History_LogsChanges w 7 0
              (Some []) ltac:(vm_compute; reflexivity) ltac:(vm_compute; reflexivity)
              ltac:(vm_compute; reflexivity) ltac:(discriminate))
    as (Hrev & Hs & _ & Hedits & _).
  unfold w1. rewrite Hrev.
  split; [reflexivity|]. split; [exact Hs|apply Hedits].
Defined.

(** C9 as stated does not hold: after the failed revert, a checkpoint
    and then a rewrite of output 0 leave a log with the undo record of
    that rewrite. *)
Lemma stale_revert_not_permanent :
  let w := Demo.history_world in
  let w1 := (fgraph_revert (ext := Demo.ext) (cls := History.feature) 7 w).2 in
  let w2 := (fgraph_checkpoint w1).2 in
  let w3 := (change_input (cls := History.feature) Output 0 5 RNone w2).2 in
  history (self w1) !! graph_id (fgraph w1) = Some None ∧
  history (self w3) !! graph_id (fgraph w3)
  = Some (Some [mkLambdExtract Output 0 3 RNone]) ∧
  ¬ suspended w3.
Proof.
  cbv zeta. split; [vm_compute; reflexivity|].
  split; [vm_compute; reflexivity|].
  unfold suspended. intros H. vm_compute in H. discriminate.
Qed.

(** ** The replay of Bookkeeper *)

Lemma occurrences_fmap {A B} `{EqDecision A} `{EqDecision B} (f : A → B)
    (x : A) (l : list A) :
  (∀ a b, f a = f b → a = b) →
  occurrences (f x) (f <$> l) = occurrences x l.
Proof.
  intros Hinj. unfold occurrences. induction l as [|y l IH]; [done|].
  rewrite fmap_cons, !filter_cons.
  destruct (decide (f y = f x)) as [Hf|Hf], (decide (y = x)) as [Hy|Hy]; simpl.
  - by rewrite IH.
  - by apply Hinj in Hf.
  - by subst.
  - done.
Qed.

Lemma recorder_replay (f : Apply → Callback) (body : Apply → M (list Callback) unit) l :
  (∀ n w, body n w = (Ok (), upd_self (λ log, log ++ [f n]) w)) →
  ∀ w, for_each l body w = (Ok (), upd_self (λ log, log ++ (f <$> l)) w).
Proof.
  intros Hbody. induction l as [|n l IH]; intros w; simpl.
  - unfold ret, upd_self. rewrite app_nil_r. by destruct w.
  - unfold bind. rewrite Hbody, IH. unfold upd_self; simpl.
    by rewrite <- app_assoc.
Qed.

(** C8, with the reason the code gives. [Bookkeeper.on_attach] calls
    [on_import] for the nodes of the topological sort of the graph, in
    that order, once for each place of a node in the sort, with the
    reason "on_attach", and nothing else; [on_detach] does the same with
    [on_prune] and the reason "Bookkeeper.detach". *)
Theorem bookkeeper_replay {ext : External} (w : World (list Callback)) :
  let nodes := io_toposort (fgraph w) in
  let imports := (λ n, CbImport n (RStr "on_attach")) <$> nodes in
  let prunes := (λ n, CbPrune n (RStr "Bookkeeper.detach")) <$> nodes in
  Bookkeeper.on_attach (cls := Recorder.feature) w
    = (Ok (), upd_self (λ log, log ++ imports) w) ∧
  Bookkeeper.on_detach (cls := Recorder.feature) w
    = (Ok (), upd_self (λ log, log ++ prunes) w) ∧
  ∀ n, occurrences (CbImport n (RStr "on_attach")) imports = occurrences n nodes ∧
       occurrences (CbPrune n (RStr "Bookkeeper.detach")) prunes = occurrences n nodes.
Proof.
  cbv zeta. split; [|split].
  - unfold Bookkeeper.on_attach. munfold. simpl.
    by apply (recorder_replay (λ n, CbImport n (RStr "on_attach"))).
  - unfold Bookkeeper.on_detach. munfold. simpl.
    by apply (recorder_replay (λ n, CbPrune n (RStr "Bookkeeper.detach"))).
  - intros n. split.
    + apply (occurrences_fmap (λ n, CbImport n (RStr "on_attach"))).
      intros a b H. by inversion H.
    + apply (occurrences_fmap (λ n, CbPrune n (RStr "Bookkeeper.detach"))).
      intros a b H. by inversion H.
Qed.

(** C8 as stated does not hold: the reason that [on_detach] passes to
    [on_prune] is "Bookkeeper.detach", not "detach". *)
Lemma bookkeeper_detach_reason :
  let out := Bookkeeper.on_detach (ext := Demo.ext) (cls := Recorder.feature)
               Demo.recorder0 in
  self out.2 = [CbPrune Demo.n1 (RStr "Bookkeeper.detach");
                CbPrune Demo.n2 (RStr "Bookkeeper.detach")] ∧
  self out.2 ≠ [CbPrune Demo.n1 (RStr "detach"); CbPrune Demo.n2 (RStr "detach")].
Proof. cbv zeta. split; [vm_compute; reflexivity|]. vm_compute. discriminate. Qed.

(** ** The node index *)

Lemma applying_app o l1 l2 :
  NodeFinder.applying o (l1 ++ l2)
  = NodeFinder.applying o l1 ++ NodeFinder.applying o l2.
Proof. unfold NodeFinder.applying. apply list.filter_app. Qed.

Lemma applying_singleton o n :
  NodeFinder.applying o [n] = if decide (op n = o) then [n] else [].
Proof.
  unfold NodeFinder.applying. rewrite filter_cons, filter_nil.
  by destruct (decide (op n = o)).
Qed.

Lemma list_remove_elem {A} `{EqDecision A} (x : A) l :
  x ∈ l → is_Some (list_remove x l).
Proof.
  induction l as [|y l IH]; intros Hin; simpl.
  - by apply elem_of_nil in Hin.
  - destruct (decide (x = y)); [eauto|].
    apply elem_of_cons in Hin as [?|Hin]; [done|].
    destruct (IH Hin) as [l' ->]. simpl. eauto.
Qed.

Lemma list_remove_NoDup {A} `{EqDecision A} (x : A) l l' :
  NoDup l → list_remove x l = Some l' → (x ∉ l') ∧ NoDup l'.
Proof.
  revert l'. induction l as [|y l IH]; intros l' Hnd H; simpl in H; [done|].
  apply list.NoDup_cons in Hnd as [Hy Hnd].
  destruct (decide (x = y)) as [->|Hne].
  - by inversion H; subst.
  - destruct (list_remove x l) as [l0|] eqn:Hl; simpl in H; [|done].
    inversion H; subst. destruct (IH l0 Hnd eq_refl) as [Hx Hnd0].
    assert (Hsub : ∀ z, z ∈ l0 → z ∈ l).
    { clear -Hl. revert l0 Hl. induction l as [|y l IH]; intros l0 Hl z Hz;
        simpl in Hl; [done|].
      destruct (decide (x = y)); [inversion Hl; subst; by right|].
      destruct (list_remove x l) as [l1|]; simpl in Hl; [|done].
      inversion Hl; subst. apply elem_of_cons in Hz as [->|Hz]; [by left|].
      right. by eapply IH. }
    split.
    + intros Hin. apply elem_of_cons in Hin as [?|?]; done.
    + apply list.NoDup_cons. split; [|done]. intros Hin. by apply Hy, Hsub.
Qed.

Lemma list_remove_applying n live live' :
  list_remove n live = Some live' →
  list_remove n (NodeFinder.applying (op n) live)
    = Some (NodeFinder.applying (op n) live') ∧
  ∀ o, o ≠ op n → NodeFinder.applying o live' = NodeFinder.applying o live.
Proof.
  unfold NodeFinder.applying.
  revert live'. induction live as [|m live IH]; intros live' H; simpl in H; [done|].
  destruct (decide (n = m)) as [->|Hne].
  - inversion H; subst. split.
    + rewrite filter_cons_True by done. simpl. by rewrite decide_True.
    + intros o Ho. by rewrite filter_cons_False.
  - destruct (list_remove n live) as [l0|] eqn:Hl; simpl in H; [|done].
    inversion H; subst. destruct (IH l0 eq_refl) as [IH1 IH2]. split.
    + rewrite !filter_cons. destruct (decide (op m = op n)); [|done].
      simpl. rewrite decide_False by done. by rewrite IH1.
    + intros o Ho. rewrite !filter_cons. rewrite (IH2 o Ho). done.
Qed.

Lemma indexes_empty g : NodeFinder.indexes (mkNodeFinder g ∅ ∅) [].
Proof. split; [intros o|intros o1 o2 l]; simpl; by rewrite ?lookup_empty. Qed.

Lemma bucket_in_heap s live o l :
  NodeFinder.indexes s live → d s !! o = Some l → l ∈ dom (heap s).
Proof.
  intros [Hb _] Hd. specialize (Hb o). rewrite Hd in Hb.
  destruct Hb as (_ & Hh & _). apply elem_of_dom. eauto.
Qed.

Lemma new_object_fresh s : NodeFinder.new_object s ∉ dom (heap s).
Proof. unfold NodeFinder.new_object. apply is_fresh. Qed.

Lemma on_import_indexes (w : World NodeFinderSelf) live n reason :
  NodeFinder.indexes (self w) live →
  hash (op n) = None →
  ∃ w', NodeFinder.on_import n reason w = (Ok (), w') ∧
        NodeFinder.indexes (self w') (live ++ [n]).
Proof.
  intros Hidx Hh. pose proof Hidx as [Hb Hinj].
  unfold NodeFinder.on_import. rewrite Hh. munfold.
  destruct (d (self w) !! op n) as [l|] eqn:Hd.
  - eexists. split; [done|]. simpl. split; simpl; [|done].
    intros o. destruct (decide (o = op n)) as [->|Hne].
    + rewrite Hd. pose proof (Hb (op n)) as Hbn. rewrite Hd in Hbn.
      destruct Hbn as (_ & Hheap & Hne).
      split; [done|]. rewrite lookup_insert_eq.
      unfold NodeFinder.deref. rewrite Hheap. simpl.
      rewrite applying_app, applying_singleton, decide_True by done.
      split; [done|]. intros Habs. by apply app_eq_nil in Habs as [_ ?].
    + pose proof (Hb o) as Hbo.
      rewrite applying_app, applying_singleton, decide_False, app_nil_r by done.
      destruct (d (self w) !! o) as [l'|] eqn:Hd'; [|done].
      rewrite lookup_insert_ne; [done|]. intros <-.
      apply Hne. by eapply Hinj.
  - eexists. split; [done|]. simpl.
    pose proof (new_object_fresh (self w)) as Hfresh.
    set (l := NodeFinder.new_object (self w)) in *.
    split; simpl.
    + intros o. destruct (decide (o = op n)) as [->|Hne].
      * rewrite lookup_insert_eq. split; [done|]. rewrite lookup_insert_eq.
        pose proof (Hb (op n)) as Hbn. rewrite Hd in Hbn.
        rewrite applying_app, (Hbn Hh), applying_singleton, decide_True by done.
        done.
      * rewrite lookup_insert_ne by done. pose proof (Hb o) as Hbo.
        rewrite applying_app, applying_singleton, decide_False, app_nil_r by done.
        destruct (d (self w) !! o) as [l'|] eqn:Hd'; [|done].
        assert (l' ≠ l).
        { intros ->. apply Hfresh. by eapply bucket_in_heap. }
        by rewrite !lookup_insert_ne.
    + intros o1 o2 l0 H1 H2.
      destruct (decide (o1 = op n)) as [->|Hne1], (decide (o2 = op n)) as [->|Hne2];
        try done.
      * rewrite lookup_insert_eq in H1. rewrite lookup_insert_ne in H2 by done.
        inversion H1; subst l0. exfalso. apply Hfresh. by eapply bucket_in_heap.
      * rewrite lookup_insert_eq in H2. rewrite lookup_insert_ne in H1 by done.
        inversion H2; subst l0. exfalso. apply Hfresh. by eapply bucket_in_heap.
      * rewrite lookup_insert_ne in H1, H2 by done. by eapply Hinj.
Qed.

Lemma on_prune_indexes (w : World NodeFinderSelf) live n reason :
  NodeFinder.indexes (self w) live →
  hash (op n) = None →
  n ∈ live →
  ∃ w' live', NodeFinder.on_prune n reason w = (Ok (), w') ∧
    list_remove n live = Some live' ∧
    NodeFinder.indexes (self w') live' ∧
    (NodeFinder.applying (op n) live' = [] → d (self w') !! op n = None).
Proof.
  intros Hidx Hh Hin. pose proof Hidx as [Hb Hinj].
  destruct (list_remove_elem n live Hin) as [live' Hlive].
  destruct (list_remove_applying n live live' Hlive) as [Hrem Hother].
  assert (Hn : n ∈ NodeFinder.applying (op n) live).
  { unfold NodeFinder.applying. by apply list_elem_of_filter. }
  unfold NodeFinder.on_prune. rewrite Hh. munfold.
  pose proof (Hb (op n)) as Hbn.
  destruct (d (self w) !! op n) as [l|] eqn:Hd.
  2: { rewrite (Hbn Hh) in Hn. by apply elem_of_nil in Hn. }
  destruct Hbn as (_ & Hheap & _).
  unfold NodeFinder.deref. rewrite Hheap. simpl. rewrite Hrem.
  assert (Hrest : ∀ o, o ≠ op n →
            match d (self w) !! o with
            | Some l0 => hash o = None
                         ∧ <[l := NodeFinder.applying (op n) live']> (heap (self w)) !! l0
                           = Some (NodeFinder.applying o live')
                         ∧ NodeFinder.applying o live' ≠ []
            | None => hash o = None → NodeFinder.applying o live' = []
            end).
  { intros o Ho. pose proof (Hb o) as Hbo. rewrite (Hother o Ho).
    destruct (d (self w) !! o) as [l'|] eqn:Hd'; [|done].
    rewrite lookup_insert_ne; [done|]. intros <-. apply Ho. by eapply Hinj. }
  destruct (NodeFinder.applying (op n) live') as [|m rest] eqn:Hnodes.
  - exists (upd_self (NodeFinder.set_d (delete (op n) (d (self w))))
             (upd_self (NodeFinder.store l []) w)), live'.
    split; [done|]. split; [done|]. split; [|intros _; simpl; apply lookup_delete_eq].
    split; simpl.
    + intros o. destruct (decide (o = op n)) as [->|Hne].
      * rewrite lookup_delete_eq. by rewrite Hnodes.
      * rewrite lookup_delete_ne by done. by apply Hrest.
    + intros o1 o2 l0 H1 H2.
      apply lookup_delete_Some in H1 as [_ H1].
      apply lookup_delete_Some in H2 as [_ H2]. by eapply Hinj.
  - exists (upd_self (NodeFinder.store l (m :: rest)) w), live'.
    split; [done|]. split; [done|].
    split; [|intros Habs; by rewrite Hnodes in Habs].
    split; simpl; [|done].
    intros o. destruct (decide (o = op n)) as [->|Hne].
    + rewrite Hd, lookup_insert_eq, Hnodes. done.
    + by apply Hrest.
Qed.

Lemma query_indexes (w : World NodeFinderSelf) live o :
  NodeFinder.indexes (self w) live →
  hash o = None →
  let l := NodeFinder.new_object (self w) in
  let w' := upd_self (NodeFinder.store l (NodeFinder.applying o live)) w in
  NodeFinder.query o w = (Ok l, w') ∧
  (l ∉ dom (heap (self w))) ∧
  NodeFinder.indexes (self w') live ∧
  snapshot l (NodeFinder.applying o live) (self w').
Proof.
  intros Hidx Hh l w'. pose proof Hidx as [Hb Hinj].
  pose proof (new_object_fresh (self w)) as Hfresh. fold l in Hfresh.
  assert (Hq : NodeFinder.query o w = (Ok l, w')).
  { unfold NodeFinder.query. rewrite Hh. munfold. fold l.
    pose proof (Hb o) as Hbo. unfold w'.
    destruct (d (self w) !! o) as [l0|] eqn:Hd.
    - destruct Hbo as (_ & Hheap & _). unfold NodeFinder.deref. by rewrite Hheap.
    - by rewrite (Hbo Hh). }
  split; [done|]. split; [done|].
  assert (Hrange : ∀ o' l', d (self w) !! o' = Some l' → l' ≠ l).
  { intros o' l' Hd' ->. apply Hfresh. by eapply bucket_in_heap. }
  split; [|split; [|split]].
  - split; simpl; [|done]. intros o'. pose proof (Hb o') as Hbo.
    destruct (d (self w) !! o') as [l'|] eqn:Hd'; [|done].
    rewrite lookup_insert_ne; [done|]. intros Heq. by eapply Hrange.
  - simpl. by rewrite lookup_insert_eq.
  - simpl. intros o' Hd'. by eapply Hrange.
  - simpl. intros o' l' Hd'.
    rewrite lookup_insert_ne by (intros Heq; by eapply Hrange).
    apply elem_of_dom. by eapply bucket_in_heap.
Qed.

Lemma store_snapshot l nodes l0 v s :
  snapshot l nodes s → l0 ≠ l → snapshot l nodes (NodeFinder.store l0 v s).
Proof.
  intros (Hl & Hd & Hb) Hne. split; [|split]; simpl.
  - by rewrite lookup_insert_ne.
  - done.
  - intros o l' Hd'. destruct (decide (l0 = l')) as [->|?].
    + rewrite lookup_insert_eq. eauto.
    + rewrite lookup_insert_ne by done. by eapply Hb.
Qed.

Lemma new_object_snapshot l nodes s :
  snapshot l nodes s → NodeFinder.new_object s ≠ l.
Proof.
  intros (Hl & _) Heq. apply (new_object_fresh s). rewrite Heq.
  apply elem_of_dom. eauto.
Qed.

Lemma run_event_snapshot l nodes ev (w : World NodeFinderSelf) :
  snapshot l nodes (self w) →
  snapshot l nodes (self (NodeFinder.run_event ev w).2).
Proof.
  intros Hs. pose proof Hs as (Hl & Hd & Hb).
  pose proof (new_object_snapshot l nodes (self w) Hs) as Hnew.
  destruct ev as [n|n|o]; simpl.
  - unfold NodeFinder.on_import.
    destruct (hash (op n)) as [e|]; [by case_bool_decide|].
    munfold. destruct (d (self w) !! op n) as [l0|] eqn:Hd0; simpl.
    + apply store_snapshot; [done|]. intros ->. by eapply Hd.
    + split; [|split]; simpl.
      * by rewrite !lookup_insert_ne.
      * intros o Ho. destruct (decide (op n = o)) as [<-|Hne].
        -- rewrite lookup_insert_eq in Ho. by inversion Ho.
        -- rewrite lookup_insert_ne in Ho by done. by eapply Hd.
      * intros o l' Ho. destruct (decide (op n = o)) as [<-|Hne].
        -- rewrite lookup_insert_eq in Ho. inversion Ho; subst l'.
           rewrite lookup_insert_eq. eauto.
        -- rewrite lookup_insert_ne in Ho by done.
           destruct (Hb o l' Ho) as [v Hv].
           destruct (decide (NodeFinder.new_object (self w) = l')) as [->|?].
           ++ rewrite lookup_insert_eq. eauto.
           ++ rewrite !lookup_insert_ne by done. eauto.
  - unfold NodeFinder.on_prune.
    destruct (hash (op n)) as [e|]; [by case_bool_decide|].
    munfold. destruct (d (self w) !! op n) as [l0|] eqn:Hd0; simpl; [|done].
    destruct (list_remove n (NodeFinder.deref (self w) l0)) as [rest|]; simpl; [|done].
    assert (Hs' : snapshot l nodes (NodeFinder.store l0 rest (self w))).
    { apply store_snapshot; [done|]. intros ->. by eapply Hd. }
    destruct rest as [|m rest]; simpl; [|done].
    destruct Hs' as (Hl' & Hd' & Hb'). split; [|split]; simpl.
    + done.
    + intros o Ho. apply lookup_delete_Some in Ho as [_ Ho]. by eapply Hd.
    + intros o l' Ho. apply lookup_delete_Some in Ho as [_ Ho]. by eapply Hb'.
  - unfold NodeFinder.query.
    destruct (hash o) as [e|]; [by case_bool_decide|].
    munfold. simpl. by apply store_snapshot.
Qed.

(** C7. Node index.  In a state of the index that agrees with the list
    [live] of the nodes of the graph (the empty index does, and every
    import and prune keep it so):
    (1) importing a node with a hashable op appends it to the list of its
        op;
    (2) pruning a node of [live] with a hashable op succeeds, the index
        agrees with [live] without that node, the bucket of the op is
        deleted when no node applies the op any more, and, the nodes of
        [live] being distinct, a query of its op returns a list without
        the node;
    (3) querying a hashable op returns a new list object, which no bucket
        refers to, holding the nodes of [live] that apply the op, in
        order (none when there is none), and no later import, prune or
        query changes this object;
    (4) importing a node whose op is unhashable returns without any
        change;
    (5) querying an unhashable op raises a [TypeError]. *)
Theorem node_index_correct (w : World NodeFinderSelf) (live : list Apply) :
  NodeFinder.indexes (self w) live →
  (∀ n reason, hash (op n) = None →
     ∃ w', NodeFinder.on_import n reason w = (Ok (), w') ∧
           NodeFinder.indexes (self w') (live ++ [n])) ∧
  (∀ n reason, hash (op n) = None → n ∈ live →
     ∃ w' live',
       NodeFinder.on_prune n reason w = (Ok (), w') ∧
       list_remove n live = Some live' ∧
       NodeFinder.indexes (self w') live' ∧
       (NodeFinder.applying (op n) live' = [] → d (self w') !! op n = None) ∧
       (NoDup live →
        ∃ l w'', NodeFinder.query (op n) w' = (Ok l, w'') ∧
                 heap (self w'') !! l = Some (NodeFinder.applying (op n) live') ∧
                 n ∉ NodeFinder.applying (op n) live')) ∧
  (∀ o, hash o = None →
     ∃ l w', NodeFinder.query o w = (Ok l, w') ∧
             (l ∉ dom (heap (self w))) ∧
             (∀ o', d (self w') !! o' ≠ Some l) ∧
             d (self w') = d (self w) ∧
             heap (self w') !! l = Some (NodeFinder.applying o live) ∧
             ∀ evs, heap (self (for_each evs NodeFinder.run_event w').2) !! l
                    = Some (NodeFinder.applying o live)) ∧
  (∀ n reason, exn_type <$> hash (op n) = Some TypeError →
     NodeFinder.on_import n reason w = (Ok (), w)) ∧
  (∀ o, exn_type <$> hash o = Some TypeError →
     ∃ e, NodeFinder.query o w = (Raise e, w) ∧ exn_type e = TypeError).
Proof.
  intros Hidx. split; [|split; [|split; [|split]]].
  - intros n reason Hh. by apply on_import_indexes.
  - intros n reason Hh Hin.
    destruct (on_prune_indexes w live n reason Hidx Hh Hin)
      as (w' & live' & Hp & Hrem & Hidx' & Hdel).
    exists w', live'. repeat (split; [done|]).
    intros Hnd.
    destruct (query_indexes w' live' (op n) Hidx' Hh) as (Hq & _ & _ & Hsnap & _).
    eexists _, _. split; [exact Hq|]. split; [exact Hsnap|].
    destruct (list_remove_NoDup n live live' Hnd Hrem) as [Hn _].
    intros Hin'. apply Hn. unfold NodeFinder.applying in Hin'.
    by apply list_elem_of_filter in Hin' as [_ ?].
  - intros o Hh.
    destruct (query_indexes w live o Hidx Hh) as (Hq & Hfresh & _ & Hsnap).
    eexists _, _. split; [exact Hq|]. split; [exact Hfresh|].
    pose proof Hsnap as (Hl & Hd & _).
    split; [exact Hd|]. split; [done|]. split; [exact Hl|].
    intros evs.
    apply (for_each_invariant
             (λ w0, snapshot _ (NodeFinder.applying o live) (self w0)));
      [|exact Hsnap].
    intros ev w0. apply run_event_snapshot.
  - intros n reason Hh. unfold NodeFinder.on_import.
    destruct (hash (op n)) as [e|]; [|done]. simpl in Hh.
    inversion Hh as [Hty]. by rewrite Hty.
  - intros o Hh. unfold NodeFinder.query.
    destruct (hash o) as [e|]; [|done]. simpl in Hh.
    inversion Hh as [Hty]. rewrite Hty. simpl. eexists. split; done.
Qed.

Lemma node_index_correct_witness :
  let w := (for_each [NodeFinder.Import Demo.n1; NodeFinder.Import Demo.n2]
              NodeFinder.run_event Demo.finder0).2 in
  let w' := (NodeFinder.on_prune Demo.n1 RNone w).2 in
  NodeFinder.indexes (self w) [Demo.n1; Demo.n2] ∧
  NodeFinder.indexes (self w') [Demo.n2].
Proof.
  intros w w'.
  assert (Hidx : NodeFinder.indexes (self w) [Demo.n1; Demo.n2]).
  { destruct (on_import_indexes Demo.finder0 [] Demo.n1 RNone
                (indexes_empty None) eq_refl) as (w1 & H1 & Hi1).
    destruct (on_import_indexes w1 [Demo.n1] Demo.n2 RNone Hi1 eq_refl)
      as (w2 & H2 & Hi2).
    unfold w. simpl. unfold bind. rewrite H1, H2. exact Hi2. }
  split; [exact Hidx|].
  destruct (node_index_correct w [Demo.n1; Demo.n2] Hidx) as (_ & Hprune & _).
  destruct (Hprune Demo.n1 RNone eq_refl ltac:(apply list_elem_of_here))
    as (w1 & live' & Hp & Hrem & Hi & _).
  unfold w'. rewrite Hp. vm_compute in Hrem.
  inversion Hrem; subst live'. exact Hi.
Defined.

(** ** What the operations keep *)

Section Preserves.
Context {S : Type} (P : World S → Prop).

Lemma pres_ret {A} (a : A) : preserves P (ret a).
Proof. by intros w. Qed.

Lemma pres_raise {A} e : preserves (A := A) P (raise e).
Proof. by intros w. Qed.

Lemma pres_bind {A B} (m : M S A) (k : A → M S B) :
  preserves P m → (∀ a, preserves P (k a)) → preserves P (bind m k).
Proof.
  intros Hm Hk w Hw. unfold bind. specialize (Hm w Hw).
  destruct (m w) as [[a|e] w1]; simpl in *; [by apply Hk|done].
Qed.

Lemma pres_try_except {A} (m : M S A) (h : Exn → M S A) :
  preserves P m → (∀ e, preserves P (h e)) → preserves P (try_except m h).
Proof.
  intros Hm Hh w Hw. unfold try_except. specialize (Hm w Hw).
  destruct (m w) as [[a|e] w1]; simpl in *; [done|by apply Hh].
Qed.

Lemma pres_for_each {A} (l : list A) (body : A → M S unit) :
  (∀ x, preserves P (body x)) → preserves P (for_each l body).
Proof. intros Hb w. by apply for_each_invariant. Qed.

Lemma pres_get_fgraph : preserves P get_fgraph.
Proof. by intros w. Qed.

Lemma pres_get_self : preserves P get_self.
Proof. by intros w. Qed.

End Preserves.

Create HintDb preserves.
#[global] Hint Resolve pres_ret pres_raise pres_bind pres_try_except
  pres_for_each pres_get_fgraph pres_get_self : preserves.
#[global] Hint Extern 1 (preserves _ (attribute_error _)) =>
  apply pres_raise : preserves.
#[global] Hint Extern 2 (preserves _ (match ?x with _ => _ end)) =>
  destruct x : preserves.
#[global] Hint Extern 2 (preserves _ (let '(_, _) := ?x in _)) =>
  destruct x : preserves.

Ltac pres := eauto 30 with preserves.

Section KeepAttached.
Context {ext : External}.
Local Existing Instance ReplaceValidate.feature.
Local Abbreviation att := (λ w : World Self, attached w = true).

Lemma attached_iff w :
  attached w = true ↔
  (∃ nb, attrs (fgraph w) !! "checkpoint" = Some (AGetCheckpoint nb)) ∧
  attrs (fgraph w) !! "revert" = Some (APartial "revert") ∧
  attrs (fgraph w) !! "validate" = Some (APartial "validate_") ∧
  attrs (fgraph w) !! "replace_all_validate" = Some (APartial "replace_all_validate") ∧
  is_Some (history (self w) !! graph_id (fgraph w)) ∧
  is_Some (_nodes_removed (self w)) ∧ is_Some (fail_validate (self w)).
Proof.
  split.
  - intros H. destruct (attached_facts w H) as (Hh & Hr & Hv & Ha & Hn & Hf).
    unfold history_attached in Hh.
    repeat (apply andb_prop in Hh as [Hh ?]).
    destruct (attrs (fgraph w) !! "checkpoint") as [[nb| |]|] eqn:Hc; try done.
    repeat split; eauto. by eapply bool_decide_eq_true_1.
  - intros ([nb Hc] & Hr & Hv & Ha & Hh & Hn & Hf).
    unfold attached, history_attached. rewrite Hc. simpl.
    by rewrite !bool_decide_eq_true_2.
Qed.

Lemma pres_history_set h : preserves att (history_set h).
Proof.
  intros w Hw. apply attached_iff in Hw as (Hc & Hr & Hv & Ha & Hh & Hn & Hf).
  apply attached_iff. unfold history_set. munfold. simpl.
  repeat split; try done. rewrite lookup_insert_eq. eauto.
Qed.

Lemma pres_history_get : preserves att history_get.
Proof. unfold history_get. pres. Qed.

Lemma pres_print p : preserves att (print p).
Proof. by intros w. Qed.

Lemma pres_print_err p : preserves att (print_err p).
Proof. by intros w. Qed.

Lemma pres_graph_edit (f : FunctionGraph → FunctionGraph) :
  (∀ g, graph_id (f g) = graph_id g ∧ attrs (f g) = attrs g) →
  preserves att (modify_fgraph f).
Proof.
  intros Hf w Hw. apply attached_iff in Hw. apply attached_iff.
  unfold modify_fgraph, upd_fgraph. simpl.
  destruct (Hf (fgraph w)) as [-> ->]. done.
Qed.

Lemma pres_checkpoint_counter nb :
  preserves att (modify_fgraph (setattr "checkpoint" (AGetCheckpoint nb))).
Proof.
  intros w Hw. apply attached_iff in Hw as (Hc & Hr & Hv & Ha & Hh & Hn & Hf).
  apply attached_iff. simpl. rewrite lookup_insert_eq.
  rewrite !lookup_insert_ne by done. eauto 10.
Qed.

Lemma pres_set_fail_validate b :
  preserves att (modify_self (set_fail_validate (Some b))).
Proof.
  intros w Hw. apply attached_iff in Hw as (Hc & Hr & Hv & Ha & Hh & Hn & Hf).
  apply attached_iff. simpl. eauto 10.
Qed.

Lemma pres_set_nodes_removed r :
  preserves att (modify_self (set_nodes_removed (Some r))).
Proof.
  intros w Hw. apply attached_iff in Hw as (Hc & Hr & Hv & Ha & Hh & Hn & Hf).
  apply attached_iff. simpl. eauto 10.
Qed.

Hint Resolve pres_history_set pres_history_get pres_print pres_print_err
  pres_checkpoint_counter pres_set_fail_validate pres_set_nodes_removed
  : preserves.
Hint Extern 1 (preserves _ (modify_fgraph _)) =>
  apply pres_graph_edit; intros ?; by split : preserves.

Lemma pres_fgraph_checkpoint : preserves att fgraph_checkpoint.
Proof. unfold fgraph_checkpoint, GetCheckpoint.call. pres. Qed.

Lemma pres_fgraph_checkpoint_nb : preserves att fgraph_checkpoint_nb.
Proof. unfold fgraph_checkpoint_nb. pres. Qed.

Lemma pres_on_change_input node i r new_r reason :
  preserves att (History.on_change_input node i r new_r reason).
Proof. unfold History.on_change_input. pres. Qed.

Lemma pres_on_import n reason : preserves att (ReplaceValidate.on_import n reason).
Proof. unfold ReplaceValidate.on_import. pres. Qed.

Lemma pres_validate : preserves att ReplaceValidate.validate.
Proof. unfold ReplaceValidate.validate. pres. Qed.

Hint Resolve pres_fgraph_checkpoint pres_fgraph_checkpoint_nb
  pres_on_change_input pres_on_import pres_validate : preserves.

Lemma pres_change_input node i new_r reason :
  preserves att (change_input node i new_r reason).
Proof. unfold change_input. simpl. pres. Qed.
Hint Resolve pres_change_input : preserves.

Lemma pres_run_edit reason e : preserves att (run_edit reason e).
Proof.
  destruct e; simpl; unfold import_node, prune_node, FeatureBase.on_prune;
    simpl; pres.
Qed.
Hint Resolve pres_run_edit : preserves.

Lemma pres_replace r new_r reason : preserves att (replace r new_r reason).
Proof. unfold replace, run_edits. pres. Qed.

Lemma pres_fgraph_revert chk : preserves att (fgraph_revert chk).
Proof.
  assert (Hloop : ∀ stack, preserves att (History.revert_loop stack)).
  { induction stack; simpl; unfold LambdExtractM.call; pres. }
  assert (Hrevert : preserves att (History.revert chk)).
  { unfold History.revert. pres. }
  unfold fgraph_revert. apply pres_bind; [pres|]. intros g.
  repeat case_match; pres.
Qed.

Lemma pres_execute_callbacks_validate :
  preserves att execute_callbacks_validate.
Proof. unfold execute_callbacks_validate. simpl. pres. Qed.

Hint Resolve pres_replace pres_fgraph_revert pres_execute_callbacks_validate
  : preserves.

Lemma pres_fgraph_validate uf : preserves att (Validator.fgraph_validate uf).
Proof.
  assert (Hv : preserves att (Validator.validate_ uf)).
  { unfold Validator.validate_. pres. }
  unfold Validator.fgraph_validate. apply pres_bind; [pres|]. intros g.
  repeat case_match; pres.
Qed.
Hint Resolve pres_fgraph_validate : preserves.

Lemma pres_replace_all_validate reps reason verbose :
  preserves att (ReplaceValidate.replace_all_validate reps reason verbose).
Proof.
  unfold ReplaceValidate.replace_all_validate, ReplaceValidate.replace_failed,
    ReplaceValidate.local.
  pres.
Qed.
Hint Resolve pres_replace_all_validate : preserves.

Lemma pres_fgraph_replace_all_validate reps reason :
  preserves att (ReplaceValidate.fgraph_replace_all_validate reps reason).
Proof.
  unfold ReplaceValidate.fgraph_replace_all_validate.
  apply pres_bind; [pres|]. intros g. repeat case_match; pres.
Qed.
Hint Resolve pres_fgraph_replace_all_validate : preserves.

Lemma pres_replace_all_validate_remove reps remove reason warn :
  preserves att (ReplaceValidate.replace_all_validate_remove reps remove reason warn).
Proof. unfold ReplaceValidate.replace_all_validate_remove. pres. Qed.

End KeepAttached.

(** ** More on transactions *)

Section MoreTransactions.
Context {ext : External}.
Local Existing Instance ReplaceValidate.feature.

Lemma checkpointed_attrs w nb :
  attrs (fgraph (checkpointed nb w)) !! "checkpoint" = Some (AGetCheckpoint (nb + 1)) ∧
  (∀ name, name ≠ "checkpoint" →
     attrs (fgraph (checkpointed nb w)) !! name = attrs (fgraph w) !! name).
Proof.
  simpl. split; [by rewrite lookup_insert_eq|].
  intros name Hne. by rewrite lookup_insert_ne.
Qed.

(** What a transaction that returns has done. *)
Lemma replace_all_validate_success w reps reason verbose chk w' :
  attached w = true →
  ReplaceValidate.replace_all_validate reps reason verbose w = (Ok chk, w') →
  ∃ nb w2 w3,
    attrs (fgraph w) !! "checkpoint" = Some (AGetCheckpoint nb) ∧
    chk = nb + 1 ∧
    rewrites reps reason (checkpointed nb w) = (Ok (), w2) ∧
    execute_callbacks_validate w2 = (Ok (), w3) ∧
    fgraph w' = fgraph w2 ∧ self w' = self w3 ∧ stderr w' = stderr w2 ∧
    recording (checkpointed nb w) w'.
Proof.
  intros Hatt Hrun.
  destruct (attached_facts w Hatt) as (Hh & Hrev & Hval & _).
  destruct (fgraph_checkpoint_spec w Hh) as (nb & Hnb & Hc & Hrec & He).
  destruct (replace_all_validate_outcome w reps reason verbose Hatt)
    as (nb' & Hnb' & Hout).
  rewrite Hnb in Hnb'. inversion Hnb'; subst nb'. rewrite Hrun in Hout.
  destruct Hout as [-> Hrecout].
  set (w1 := checkpointed nb w) in *.
  destruct (checkpointed_attrs w nb) as [Hchk1 Hother].
  assert (Hrev1 : attrs (fgraph w1) !! "revert" = Some (APartial "revert")).
  { by rewrite Hother. }
  unfold ReplaceValidate.replace_all_validate in Hrun.
  rewrite (bind_ok _ _ _ _ _ Hc) in Hrun.
  pose proof (loop_outcome w1 (nb + 1) reason reps Hrev1 Hchk1 w1 Hrec) as Hloop.
  unfold txn_body in Hloop. unfold bind at 1 in Hrun.
  destruct (for_each reps _ w1) as [[[]|e] w2] eqn:Hloopeq; [|done].
  destruct Hloop as [Hrec2 Hrw].
  unfold bind at 1 in Hrun. unfold try_except at 1 in Hrun.
  rewrite fgraph_validate_in_transaction in Hrun.
  2: { destruct Hrec2 as (_ & -> & _). by rewrite Hother. }
  pose proof (validate_quiet w2) as (Hg & _ & _ & _ & Herr).
  destruct (execute_callbacks_validate w2) as [[[]|e] w3] eqn:Hv; simpl in Hg, Herr.
  2: { munfold.
       destruct (fgraph_revert (nb + 1) w3) as [[[]|e1] w4]; [|done].
       destruct (default optimizer_verbose verbose); [|done].
       by destruct (ReplaceValidate.bound_r reps). }
  exists nb, w2, w3. repeat (split; [done|]).
  munfold. destruct (default optimizer_verbose verbose).
  - destruct (ReplaceValidate.bound_r reps); simpl in Hrun; [|done].
    destruct (ReplaceValidate.bound_new_r reps); simpl in Hrun; [|done].
    inversion Hrun; subst w'. simpl.
    split; [exact Hg|]. split; [done|]. split; [exact Herr|]. exact Hrecout.
  - inversion Hrun; subst w'.
    split; [exact Hg|]. split; [done|]. split; [exact Herr|]. exact Hrecout.
Qed.

Lemma stale_revert_raises w handle nb h :
  attrs (fgraph w) !! "checkpoint" = Some (AGetCheckpoint nb) →
  attrs (fgraph w) !! "revert" = Some (APartial "revert") →
  history (self w) !! graph_id (fgraph w) = Some h →
  handle ≠ nb →
  fgraph_revert handle w = (Raise (mkExn AssertionError []), switched_off w).
Proof.
  intros Hc Hr Hh Hne.
  unfold fgraph_revert, History.revert, history_get, history_set,
    fgraph_checkpoint_nb. munfold.
  rewrite Hr. simpl. rewrite Hh. simpl. rewrite Hc.
  by rewrite bool_decide_eq_false_2.
Qed.

Lemma committed_or_not w reps reason verbose chk w' :
  attached w = true →
  ReplaceValidate.replace_all_validate reps reason verbose w = (Ok chk, w') →
  attrs (fgraph w') !! "checkpoint" = Some (AGetCheckpoint chk).
Proof.
  intros Hatt Hrun.
  destruct (replace_all_validate_success w reps reason verbose chk w' Hatt Hrun)
    as (nb & w2 & w3 & Hnb & -> & _ & _ & _ & _ & _ & Hrec).
  destruct Hrec as (_ & -> & _). apply checkpointed_attrs.
Qed.

(** X1. A transaction is atomic on the edges: whenever
    [replace_all_validate] raises, either the edges of the graph are
    those from before the call, or the exception is a depth-exhaustion
    error passed on with the advice added; in both cases the graph still
    has its entry points. *)
Theorem transaction_atomic w reps reason verbose e w' :
  attached w = true →
  ReplaceValidate.replace_all_validate reps reason verbose w = (Raise e, w') →
  attached w' = true ∧
  (edges (fgraph w') = edges (fgraph w) ∨
   ∃ e0, depth_exhausted e0 = true ∧ e = with_advice e0).
Proof.
  intros Hatt Hrun. split.
  - pose proof (pres_replace_all_validate reps reason verbose w Hatt) as H.
    by rewrite Hrun in H.
  - destruct (replace_all_validate_outcome w reps reason verbose Hatt)
      as (nb & _ & Hout).
    by rewrite Hrun in Hout.
Qed.

(** X2. A transaction that returns gives the handle of a checkpoint it
    took, one more than the counter before the call; the graph is the one
    its rewrites made; and a revert to that handle right after it succeeds
    and gives back the edges from before the call. *)
Theorem committed_transaction_revertible w reps reason verbose chk w' :
  attached w = true →
  ReplaceValidate.replace_all_validate reps reason verbose w = (Ok chk, w') →
  ∃ nb w2 l,
    attrs (fgraph w) !! "checkpoint" = Some (AGetCheckpoint nb) ∧
    chk = nb + 1 ∧
    attrs (fgraph w') !! "checkpoint" = Some (AGetCheckpoint chk) ∧
    rewrites reps reason (checkpointed nb w) = (Ok (), w2) ∧
    fgraph w' = fgraph w2 ∧
    history (self w') !! graph_id (fgraph w') = Some (Some l) ∧
    fgraph_revert chk w' = (Ok (), reverted l w') ∧
    edges (fgraph (reverted l w')) = edges (fgraph w).
Proof.
  intros Hatt Hrun.
  destruct (replace_all_validate_success w reps reason verbose chk w' Hatt Hrun)
    as (nb & w2 & w3 & Hnb & -> & Hrw & _ & Hg & _ & _ & Hrec).
  destruct (attached_facts w Hatt) as (_ & Hrev & _).
  destruct (checkpointed_attrs w nb) as [Hchk1 Hother].
  destruct (fgraph_revert_spec ReplaceValidate_LogsChanges _ w' (nb + 1) Hrec)
    as (l & Hl & Hrevert & He); [by rewrite Hother|done|].
  exists nb, w2, l. repeat (split; [done|]).
  split; [destruct Hrec as (_ & -> & _); done|].
  repeat (split; [done|]). done.
Qed.

(** X3. [replace_validate], the transaction of one pair: when the
    rewrite succeeds and the validation fails with [e], it is [e] that
    comes out, in verbose mode too, and the edges are those from before
    the call. *)
Theorem replace_validate_validation_failure w r new_r reason chk w1 w2 e w3 :
  attached w = true →
  fgraph_checkpoint w = (Ok chk, w1) →
  replace r new_r reason w1 = (Ok (), w2) →
  execute_callbacks_validate w2 = (Raise e, w3) →
  let out := ReplaceValidate.replace_validate r new_r reason w in
  out.1 = Raise e ∧
  edges (fgraph out.2) = edges (fgraph w) ∧
  stdout out.2 = stdout w3 ++
    (if optimizer_verbose then [PValidateFailed r reason e] else []).
Proof.
  intros Hatt Hc Hr Hv out.
  assert (Hrw : rewrites [(r, new_r)] reason w1 = (Ok (), w2)).
  { unfold rewrites. simpl. unfold bind. by rewrite Hr. }
  destruct (validation_failure_outcome w [(r, new_r)] reason None chk w1 w2 e w3
              Hatt Hc Hrw Hv) as (l & Hl & He & Hout).
  unfold out, ReplaceValidate.replace_validate. unfold bind. rewrite Hout.
  simpl. destruct optimizer_verbose; simpl.
  - split; [done|]. split; [exact He|done].
  - split; [done|]. split; [exact He|]. by rewrite app_nil_r.
Qed.


(** X5. The history has depth one: after two transactions that
    returned, the handle of the second is the handle of the first plus
    one; a revert to the first handle raises the assertion error and
    undoes nothing; a revert to the second gives back the edges that the
    first transaction left, not those from before it. *)
Theorem history_depth_one w reps1 reason1 verbose1 chk1 w1
    reps2 reason2 verbose2 chk2 w2 :
  attached w = true →
  ReplaceValidate.replace_all_validate reps1 reason1 verbose1 w = (Ok chk1, w1) →
  ReplaceValidate.replace_all_validate reps2 reason2 verbose2 w1 = (Ok chk2, w2) →
  chk2 = chk1 + 1 ∧
  (fgraph_revert chk1 w2).1 = Raise (mkExn AssertionError []) ∧
  fgraph (fgraph_revert chk1 w2).2 = fgraph w2 ∧
  ∃ l, fgraph_revert chk2 w2 = (Ok (), reverted l w2) ∧
       edges (fgraph (reverted l w2)) = edges (fgraph w1).
Proof.
  intros Hatt H1 H2.
  assert (Hatt1 : attached w1 = true).
  { pose proof (pres_replace_all_validate reps1 reason1 verbose1 w Hatt) as H.
    by rewrite H1 in H. }
  pose proof (committed_or_not w reps1 reason1 verbose1 chk1 w1 Hatt H1) as Hc1.
  destruct (replace_all_validate_success w1 reps2 reason2 verbose2 chk2 w2 Hatt1 H2)
    as (nb & w3 & w4 & Hnb & -> & _ & _ & _ & _ & _ & Hrec).
  rewrite Hc1 in Hnb. inversion Hnb; subst nb.
  destruct (attached_facts w1 Hatt1) as (_ & Hrev & _).
  destruct (checkpointed_attrs w1 chk1) as [Hchk Hother].
  destruct (fgraph_revert_spec ReplaceValidate_LogsChanges _ w2 (chk1 + 1) Hrec)
    as (l & Hl & Hrevert & He); [by rewrite Hother|done|].
  split; [done|].
  assert (Hstale : fgraph_revert chk1 w2
                   = (Raise (mkExn AssertionError []), switched_off w2)).
  { eapply stale_revert_raises.
    - destruct Hrec as (_ & -> & _). exact Hchk.
    - destruct Hrec as (_ & -> & _). by rewrite Hother.
    - exact Hl.
    - lia. }
  rewrite Hstale. split; [done|]. split; [done|].
  exists l. split; [done|]. exact He.
Qed.

End MoreTransactions.

Lemma transaction_atomic_witness :
  let out := ReplaceValidate.replace_all_validate (ext := Demo.ext)
               (cls := ReplaceValidate.feature) [(3, 5)] RNone None Demo.world in
  attached Demo.world = true ∧
  out.1 = Raise (mkExn InconsistencyError ["output computed inplace"]) ∧
  attached out.2 = true.
Proof.
  intros out.
  assert (Hatt : attached Demo.world = true) by (vm_compute; reflexivity).
  assert (Hrun : ReplaceValidate.replace_all_validate (ext := Demo.ext)
                   (cls := ReplaceValidate.feature) [(3, 5)] RNone None Demo.world
                 = (Raise (mkExn InconsistencyError ["output computed inplace"]), out.2))
    by (vm_compute; reflexivity).
  destruct (transaction_atomic (ext := Demo.ext) Demo.world [(3, 5)] RNone None
              _ _ Hatt Hrun) as [H _].
  split; [exact Hatt|]. split; [exact (f_equal fst Hrun)|exact H].
Defined.

Lemma committed_transaction_revertible_witness :
  let out := ReplaceValidate.replace_all_validate (ext := Demo.ext)
               (cls := ReplaceValidate.feature) [(1, 4)] RNone None Demo.world in
  attached Demo.world = true ∧
  out.1 = Ok 1 ∧
  edges (fgraph (fgraph_revert (ext := Demo.ext) (cls := ReplaceValidate.feature)
                   1 out.2).2)
  = edges (fgraph Demo.world).
Proof.
  intros out.
  assert (Hatt : attached Demo.world = true) by (vm_compute; reflexivity).
  assert (Hrun : ReplaceValidate.replace_all_validate (ext := Demo.ext)
                   (cls := ReplaceValidate.feature) [(1, 4)] RNone None Demo.world
                 = (Ok 1, out.2)) by (vm_compute; reflexivity).
  destruct (committed_transaction_revertible (ext := Demo.ext) Demo.world [(1, 4)]
              RNone None 1 out.2 Hatt Hrun)
    as (nb & w2 & l & _ & _ & _ & _ & _ & _ & Hrev & He).
  split; [exact Hatt|]. split; [exact (f_equal fst Hrun)|].
  rewrite Hrev. exact He.
Defined.

Lemma replace_validate_validation_failure_witness :
  let w := Demo.world in
  let w1 := (fgraph_checkpoint w).2 in
  let w2 := (replace (ext := Demo.ext) (cls := ReplaceValidate.feature) 3 5 RNone w1).2 in
  let e := mkExn InconsistencyError ["output computed inplace"] in
  let out := ReplaceValidate.replace_validate (ext := Demo.ext)
               (cls := ReplaceValidate.feature) 3 5 RNone w in
  attached w = true ∧ out.1 = Raise e ∧ edges (fgraph out.2) = edges (fgraph w).
Proof.
  intros w w1 w2 e out.
  assert (Hatt : attached w = true) by (vm_compute; reflexivity).
  assert (Hc : fgraph_checkpoint w = (Ok 1, w1)) by (vm_compute; reflexivity).
  assert (Hr : replace (ext := Demo.ext) (cls := ReplaceValidate.feature) 3 5 RNone w1
               = (Ok (), w2)) by (vm_compute; reflexivity).
  assert (Hv : execute_callbacks_validate (ext := Demo.ext)
                 (cls := ReplaceValidate.feature) w2 = (Raise e, w2))
    by (vm_compute; reflexivity).
  destruct (replace_validate_validation_failure (ext := Demo.ext) w 3 5 RNone 1
              w1 w2 e w2 Hatt Hc Hr Hv) as (H1 & H2 & _).
  split; [exact Hatt|]. split; [exact H1|exact H2].
Defined.


Lemma history_depth_one_witness :
  let w := Demo.world in
  let w1 := (ReplaceValidate.replace_all_validate (ext := Demo.ext)
               (cls := ReplaceValidate.feature) [(1, 4)] RNone None w).2 in
  let w2 := (ReplaceValidate.replace_all_validate (ext := Demo.ext)
               (cls := ReplaceValidate.feature) [(2, 6)] RNone None w1).2 in
  attached w = true ∧
  (fgraph_revert (ext := Demo.ext) (cls := ReplaceValidate.feature) 1 w2).1
  = Raise (mkExn AssertionError []) ∧
  edges (fgraph (fgraph_revert (ext := Demo.ext) (cls := ReplaceValidate.feature)
                   2 w2).2)
  = edges (fgraph w1).
Proof.
  intros w w1 w2.
  assert (Hatt : attached w = true) by (vm_compute; reflexivity).
  assert (H1 : ReplaceValidate.replace_all_validate (ext := Demo.ext)
                 (cls := ReplaceValidate.feature) [(1, 4)] RNone None w = (Ok 1, w1))
    by (vm_compute; reflexivity).
  assert (H2 : ReplaceValidate.replace_all_validate (ext := Demo.ext)
                 (cls := ReplaceValidate.feature) [(2, 6)] RNone None w1 = (Ok 2, w2))
    by (vm_compute; reflexivity).
  destruct (history_depth_one (ext := Demo.ext) w [(1, 4)] RNone None 1 w1
              [(2, 6)] RNone None 2 w2 Hatt H1 H2)
    as (_ & Hstale & _ & l & Hrev & He).
  split; [exact Hatt|]. split; [exact Hstale|].
  rewrite Hrev. exact He.
Defined.

(** ** More on the change log *)

Lemma revert_empty_log {ext : External} {cls : Feature Self} w chk :
  attrs (fgraph w) !! "checkpoint" = Some (AGetCheckpoint chk) →
  attrs (fgraph w) !! "revert" = Some (APartial "revert") →
  history (self w) !! graph_id (fgraph w) = Some (Some []) →
  fgraph_revert chk w
  = (Ok (), upd_self (λ s, set_history
       (<[graph_id (fgraph w) := Some []]>
          (<[graph_id (fgraph w) := None]> (history s))) s) w).
Proof.
  intros Hc Hr Hh.
  unfold fgraph_revert, History.revert, history_get, history_set,
    fgraph_checkpoint_nb. munfold.
  rewrite Hr. simpl. rewrite Hh. simpl. rewrite Hc.
  by rewrite bool_decide_eq_true_2.
Qed.

(** X6. Revert is idempotent: after a checkpoint, any rewrites and a
    revert to the checkpoint, a second revert to the same handle succeeds,
    calls no edge rewrite and leaves the world exactly as it is. *)
Theorem revert_idempotent {ext : External} (w : World Self)
    (rws : list (Owner * nat * Var * Reason)) :
  history_attached w = true →
  ∃ c w1 res w2 w3,
    fgraph_checkpoint w = (Ok c, w1) ∧
    change_inputs (cls := History.feature) rws w1 = (res, w2) ∧
    fgraph_revert (cls := History.feature) c w2 = (Ok (), w3) ∧
    fgraph_revert (cls := History.feature) c w3 = (Ok (), w3).
Proof.
  intros Hatt.
  destruct (fgraph_checkpoint_spec w Hatt) as (nb & Hnb & Hc & Hrec & He).
  set (w1 := checkpointed nb w) in *.
  destruct (change_inputs (cls := History.feature) rws w1) as [res w2] eqn:Hrun.
  assert (Hrec2 : recording w1 w2).
  { pose proof (change_inputs_recording w1 w1 rws Hrec) as H.
    by rewrite Hrun in H. }
  assert (Hrev : attrs (fgraph w1) !! "revert" = Some (APartial "revert")).
  { unfold history_attached in Hatt.
    apply andb_prop in Hatt as [Hatt _]. apply andb_prop in Hatt as [_ Hatt].
    apply bool_decide_eq_true_1 in Hatt. simpl.
    by rewrite lookup_insert_ne. }
  assert (Hchk : attrs (fgraph w1) !! "checkpoint" = Some (AGetCheckpoint (nb + 1))).
  { simpl. by rewrite lookup_insert_eq. }
  destruct (fgraph_revert_spec History_LogsChanges w1 w2 (nb + 1) Hrec2 Hrev Hchk)
    as (l & Hl & Hrevert & Hedges).
  exists (nb + 1), w1, res, w2, (reverted l w2).
  repeat (split; [done|]).
  destruct Hrec2 as (Hid & Hattrs & _).
  destruct (undo_graph_frame (reverse l) (fgraph w2)) as (Hgid & Hga & _).
  rewrite revert_empty_log.
  - unfold reverted, upd_self, upd_fgraph, set_history. simpl.
    rewrite Hgid. by rewrite !insert_insert_eq.
  - simpl. by rewrite Hga, Hattrs.
  - simpl. by rewrite Hga, Hattrs.
  - simpl. rewrite Hgid. by rewrite lookup_insert_eq.
Qed.

Lemma revert_idempotent_witness :
  history_attached Demo.history_world = true ∧
  ∃ c w1 res w2 w3,
    fgraph_checkpoint Demo.history_world = (Ok c, w1) ∧
    change_inputs (cls := History.feature)
      [(Output, 0, 5, RNone); (Node Demo.n1, 0, 2, RNone)] w1 = (res, w2) ∧
    fgraph_revert (ext := Demo.ext) (cls := History.feature) c w2 = (Ok (), w3) ∧
    fgraph_revert (ext := Demo.ext) (cls := History.feature) c w3 = (Ok (), w3).
Proof.
  split; [reflexivity|].
  apply (revert_idempotent (ext := Demo.ext) Demo.history_world
           [(Output, 0, 5, RNone); (Node Demo.n1, 0, 2, RNone)] eq_refl).
Defined.

(** ** The removed-node set *)

Section RemovedNodes.
Context {ext : External}.
Local Existing Instance ReplaceValidate.feature.

Lemma replace_all_validate_remove_cases w reps remove reason warn removed :
  attached w = true →
  _nodes_removed (self w) = Some removed →
  let out := ReplaceValidate.replace_all_validate_remove reps remove reason warn w in
  match ReplaceValidate.fgraph_replace_all_validate reps reason w with
  | (Ok chk, w1) =>
      ∃ l,
        let w1' := upd_self (set_nodes_removed
                      (Some (removed ∪ list_to_set remove))) w1 in
        out = if existsb (ReplaceValidate.present (fgraph w1)) remove
              then (Raise (mkExn ReplacementDidntRemovedError []),
                    warned warn reason reps (reverted l w1'))
              else (Ok (), w1')
  | (Raise e, w1) => out = (Raise e, w1)
  end.
Proof.
  intros Hatt Hrm out.
  destruct (attached_facts w Hatt) as (Hh & Hrev & Hval & _).
  destruct (replace_all_validate_outcome w reps reason None Hatt) as (nb & Hnb & Hout).
  rewrite (fgraph_replace_all_validate_eq w reps reason Hatt).
  pose proof (fgraph_replace_all_validate_eq w reps reason Hatt) as Heq.
  destruct (ReplaceValidate.replace_all_validate reps reason None w)
    as [[chk|e] w1] eqn:Hinner.
  2: { unfold out, ReplaceValidate.replace_all_validate_remove.
       by rewrite (bind_raise _ _ _ _ _ Heq). }
  unfold out, ReplaceValidate.replace_all_validate_remove.
  rewrite (bind_ok _ _ _ _ _ Heq).
  destruct Hout as [-> Hrec]. munfold.
  assert (Hrm1 : _nodes_removed (self w1) = Some removed).
  { destruct Hrec as (_ & _ & _ & -> & _). done. }
  rewrite Hrm1.
  set (r' := Some (removed ∪ list_to_set remove)).
  pose proof (recording_set_nodes_removed _ _ r' Hrec) as Hrec'.
  destruct (remove_loop_spec _ (nb + 1) reps reason warn remove _ Hrec')
    as (l & Hl & He & Hloop).
  { simpl. by rewrite lookup_insert_ne. }
  { simpl. by rewrite lookup_insert_eq. }
  exists l. unfold remove_check in Hloop. exact Hloop.
Qed.

(** X7. The removed-node set is not rolled back: once the inner
    transaction of [replace_all_validate_remove] has returned, the members
    of [remove] are in the set, also when the call ends with
    [ReplacementDidntRemovedError] and a revert; a later import of such a
    node sets the flag of the reintroduction check. *)
Theorem removed_nodes_recorded w reps remove reason warn removed chk w1 :
  attached w = true →
  _nodes_removed (self w) = Some removed →
  ReplaceValidate.fgraph_replace_all_validate reps reason w = (Ok chk, w1) →
  let out := ReplaceValidate.replace_all_validate_remove reps remove reason warn w in
  _nodes_removed (self out.2) = Some (removed ∪ list_to_set remove) ∧
  ∀ n reason', INode n ∈ remove →
    fail_validate (self (import_node n reason' out.2).2) = Some true.
Proof.
  intros Hatt Hrm Hinner out.
  pose proof (replace_all_validate_remove_cases w reps remove reason warn removed
                Hatt Hrm) as Hcases.
  rewrite Hinner in Hcases. destruct Hcases as (l & Hout). fold out in Hout.
  assert (Hset : _nodes_removed (self out.2) = Some (removed ∪ list_to_set remove)).
  { rewrite Hout.
    destruct (existsb (ReplaceValidate.present (fgraph w1)) remove); [|done].
    by destruct warn. }
  split; [done|].
  intros n reason' Hin.
  rewrite (import_removed_node out.2 n reason' _ Hset); [done|].
  apply elem_of_union_r. by apply elem_of_list_to_set.
Qed.

End RemovedNodes.

Lemma removed_nodes_recorded_witness :
  let out := ReplaceValidate.replace_all_validate_remove (ext := Demo.ext)
               (cls := ReplaceValidate.feature) [(1, 4)] [INode Demo.n1] RNone true
               Demo.world in
  attached Demo.world = true ∧
  out.1 = Raise (mkExn ReplacementDidntRemovedError []) ∧
  _nodes_removed (self out.2) = Some (∅ ∪ list_to_set [INode Demo.n1]).
Proof.
  intros out.
  assert (Hatt : attached Demo.world = true) by (vm_compute; reflexivity).
  split; [exact Hatt|]. split; [vm_compute; reflexivity|].
  apply (removed_nodes_recorded (ext := Demo.ext) Demo.world [(1, 4)]
           [INode Demo.n1] RNone true ∅ 1
           (ReplaceValidate.fgraph_replace_all_validate (ext := Demo.ext)
              (cls := ReplaceValidate.feature) [(1, 4)] RNone Demo.world).2 Hatt).
  - reflexivity.
  - vm_compute; reflexivity.
Defined.

(** ** Probing the consistency *)

Section Consistent.
Context {ext : External}.
Local Existing Instance ReplaceValidate.feature.

Lemma fgraph_validate_bound w uf :
  attrs (fgraph w) !! "validate" = Some (APartial "validate_") →
  Validator.fgraph_validate uf w = Validator.validate_ uf w.
Proof.
  intros H. unfold Validator.fgraph_validate. munfold. by rewrite H.
Qed.

Lemma consistent_bound w :
  attrs (fgraph w) !! "validate" = Some (APartial "validate_") →
  Validator.consistent_ w
  = (match (execute_callbacks_validate w).1 with
     | Ok _ => Ok true
     | Raise _ => Ok false
     end, (execute_callbacks_validate w).2).
Proof.
  intros H. unfold Validator.consistent_. unfold try_except, bind.
  rewrite (fgraph_validate_bound w _ H).
  unfold Validator.validate_, try_except. simpl.
  by destruct (execute_callbacks_validate w) as [[[]|e] w1].
Qed.

(** X8. [consistent_] never raises.  It returns [False] on a graph
    without the [validate] entry point.  On a graph that has it, it
    returns [True] exactly when the checks pass, prints nothing, and
    leaves the world that the checks leave: when the reintroduction flag
    is set (and the other checks pass) it returns [False] and unsets the
    flag, so that the probe that follows returns [True]. *)
Theorem consistent_probe (w : World Self) :
  (∃ b, (Validator.consistent_ w).1 = Ok b) ∧
  (attrs (fgraph w) !! "validate" = None →
     Validator.consistent_ w = (Ok false, w)) ∧
  (attrs (fgraph w) !! "validate" = Some (APartial "validate_") →
     Validator.consistent_ w
     = (match (execute_callbacks_validate w).1 with
        | Ok _ => Ok true
        | Raise _ => Ok false
        end, (execute_callbacks_validate w).2) ∧
     (fail_validate (self w) = Some true →
      validate_before (fgraph w) = None → validate_after (fgraph w) = None →
      let w1 := upd_self (set_fail_validate (Some false)) w in
      Validator.consistent_ w = (Ok false, w1) ∧
      Validator.consistent_ w1 = (Ok true, w1))).
Proof.
  split; [|split].
  - unfold Validator.consistent_, try_except, bind.
    destruct (Validator.fgraph_validate _ w) as [[[]|e] w1]; simpl; eauto.
  - intros H. unfold Validator.consistent_, Validator.fgraph_validate. munfold.
    by rewrite H.
  - intros H. split; [by apply consistent_bound|].
    intros Hf Hb Ha w1.
    assert (H1 : attrs (fgraph w1) !! "validate" = Some (APartial "validate_")) by done.
    rewrite (consistent_bound w H), (consistent_bound w1 H1).
    unfold execute_callbacks_validate. munfold. simpl. rewrite Hb.
    rewrite validate_armed by done.
    rewrite (validate_unarmed w1) by done. simpl. by rewrite Ha.
Qed.

End Consistent.

Lemma consistent_probe_witness :
  let w := Demo.armed_world in
  let w1 := (Validator.consistent_ (ext := Demo.ext)
               (cls := ReplaceValidate.feature) w).2 in
  (Validator.consistent_ (ext := Demo.ext) (cls := ReplaceValidate.feature) w).1
  = Ok false ∧
  (Validator.consistent_ (ext := Demo.ext) (cls := ReplaceValidate.feature) w1).1
  = Ok true.
Proof.
  intros w w1.
  destruct (consistent_probe (ext := Demo.ext) w) as (_ & _ & H).
  destruct (H ltac:(vm_compute; reflexivity)) as (_ & H2).
  destruct (H2 ltac:(vm_compute; reflexivity) eq_refl ltac:(vm_compute; reflexivity))
    as (Ha & Hb).
  unfold w1. rewrite Ha. simpl. rewrite Hb. done.
Defined.

(** ** Attaching and detaching *)

Lemma hasattr_false g name : hasattr g name = false ↔ attrs g !! name = None.
Proof.
  unfold hasattr. rewrite bool_decide_eq_false.
  rewrite <- eq_None_not_Some. done.
Qed.

Lemma hasattr_true g name : hasattr g name = true ↔ is_Some (attrs g !! name).
Proof. unfold hasattr. by rewrite bool_decide_eq_true. Qed.

(** X9. Attaching twice: once an attach of [History], [Validator],
    [ReplaceValidate] or [NodeFinder] has succeeded, an attach of the same
    class to the graph by any fresh instance raises [AlreadyThere] and
    changes nothing, neither in the graph nor in the instance. *)
Theorem second_attach_already_there {ext : External} :
  (∀ w w1 s, History.on_attach w = (Ok (), w1) →
     ∃ e, History.on_attach (with_self s w1) = (Raise e, with_self s w1) ∧
          exn_type e = AlreadyThere) ∧
  (∀ w w1 s, Validator.on_attach w = (Ok (), w1) →
     ∃ e, Validator.on_attach (with_self s w1) = (Raise e, with_self s w1) ∧
          exn_type e = AlreadyThere) ∧
  (∀ w w1 s, ReplaceValidate.on_attach w = (Ok (), w1) →
     ∃ e, ReplaceValidate.on_attach (with_self s w1) = (Raise e, with_self s w1) ∧
          exn_type e = AlreadyThere) ∧
  (∀ w w1 s, NodeFinder.on_attach (cls := NodeFinder.feature) w = (Ok (), w1) →
     nf_fgraph s = None →
     ∃ e, NodeFinder.on_attach (cls := NodeFinder.feature) (with_self s w1)
          = (Raise e, with_self s w1) ∧
          exn_type e = AlreadyThere).
Proof.
  split; [|split; [|split]].
  - intros w w1 s H. unfold History.on_attach in *. munfold.
    destruct (hasattr (fgraph w) "checkpoint" || hasattr (fgraph w) "revert");
      [done|].
    inversion H; subst w1. simpl.
    assert (Hc : hasattr (setattr "revert" (APartial "revert")
                   (setattr "checkpoint" (AGetCheckpoint 0) (fgraph w)))
                   "checkpoint" = true).
    { apply hasattr_true. simpl. rewrite lookup_insert_ne by done.
      rewrite lookup_insert_eq. eauto. }
    rewrite Hc. simpl. eauto.
  - intros w w1 s H. unfold Validator.on_attach in *. munfold.
    destruct (hasattr (fgraph w) "validate" || hasattr (fgraph w) "validate_time");
      [done|].
    inversion H; subst w1. simpl.
    assert (Hc : hasattr (setattr "consistent" (APartial "consistent_")
                   (setattr "validate" (APartial "validate_") (fgraph w)))
                   "validate" = true).
    { apply hasattr_true. simpl. rewrite lookup_insert_ne by done.
      rewrite lookup_insert_eq. eauto. }
    rewrite Hc. simpl. eauto.
  - intros w w1 s H.
    assert (Hhas : hasattr (fgraph w1) "replace_validate" = true).
    { unfold ReplaceValidate.on_attach, ReplaceValidate.unpickle, History.on_attach,
        Validator.on_attach, History.unpickle, Validator.unpickle, history_set in H.
      munfold.
      destruct (hasattr (fgraph w) "replace_validate"
                || hasattr (fgraph w) "replace_all_validate"
                || hasattr (fgraph w) "replace_all_validate_remove"); [done|].
      simpl in H.
      destruct (hasattr (fgraph w) "checkpoint" || hasattr (fgraph w) "revert");
        [done|].
      simpl in H.
      match type of H with
      | context [if ?b then _ else _] => destruct b; [done|]
      end.
      inversion H; subst w1. apply hasattr_true. simpl.
      rewrite lookup_insert_ne by done. rewrite lookup_insert_ne by done.
      rewrite lookup_insert_eq. eauto. }
    unfold ReplaceValidate.on_attach. munfold. simpl. rewrite Hhas. simpl. eauto.
  - intros w w1 s H Hs.
    assert (Hhas : hasattr (fgraph w1) "get_nodes" = true).
    { unfold NodeFinder.on_attach in H. munfold.
      destruct (nf_fgraph (self w)); [done|].
      destruct (hasattr (fgraph w) "get_nodes"); [done|].
      simpl in H.
      unfold Bookkeeper.on_attach in H. munfold. simpl in H.
      match type of H with
      | for_each ?l ?b ?w0 = _ =>
          assert (Hinv : hasattr (fgraph (for_each l b w0).2) "get_nodes" = true)
      end.
      { apply (for_each_invariant
                 (λ w0 : World NodeFinderSelf, hasattr (fgraph w0) "get_nodes" = true)).
        - intros n w0 Hw0. unfold NodeFinder.on_import. munfold.
          destruct (hash (op n)); [by case_bool_decide|].
          by destruct (d (self w0) !! op n).
        - apply hasattr_true. simpl. rewrite lookup_insert_eq. eauto. }
      by rewrite H in Hinv. }
    unfold NodeFinder.on_attach. munfold. simpl. rewrite Hs, Hhas. eauto.
Qed.

Lemma second_attach_already_there_witness :
  let w1 := (History.on_attach Demo.world0).2 in
  History.on_attach Demo.world0 = (Ok (), w1) ∧
  ∃ e, History.on_attach (with_self Demo.fresh_self w1)
       = (Raise e, with_self Demo.fresh_self w1) ∧
       exn_type e = AlreadyThere.
Proof.
  intros w1.
  assert (H : History.on_attach Demo.world0 = (Ok (), w1)) by (vm_compute; reflexivity).
  split; [exact H|].
  destruct (second_attach_already_there (ext := Demo.ext)) as (Hh & _).
  exact (Hh Demo.world0 w1 Demo.fresh_self H).
Defined.

Lemma del_attr_ok (w : World Self) name :
  is_Some (attrs (fgraph w) !! name) →
  History.del_attr name w = (Ok (), upd_fgraph (delattr name) w).
Proof.
  intros H. apply hasattr_true in H. unfold History.del_attr. munfold.
  by rewrite H.
Qed.

Lemma del_attr_missing (w : World Self) name :
  attrs (fgraph w) !! name = None →
  History.del_attr name w = (Raise (mkExn AttributeError [name]), w).
Proof.
  intros H. apply hasattr_false in H. unfold History.del_attr. munfold.
  by rewrite H.
Qed.

Lemma history_on_detach_ok (w : World Self) :
  is_Some (attrs (fgraph w) !! "checkpoint") →
  is_Some (attrs (fgraph w) !! "revert") →
  is_Some (history (self w) !! graph_id (fgraph w)) →
  History.on_detach w
  = (Ok (), upd_self (λ s, set_history (delete (graph_id (fgraph w)) (history s)) s)
              (upd_fgraph (delattr "revert") (upd_fgraph (delattr "checkpoint") w))).
Proof.
  intros Hc Hr [h Hh]. unfold History.on_detach.
  erewrite bind_ok; [|by apply del_attr_ok].
  erewrite bind_ok; [|apply del_attr_ok; simpl; by rewrite lookup_delete_ne].
  unfold history_get. munfold. simpl. by rewrite Hh.
Qed.

Lemma validator_on_detach_ok (w : World Self) :
  is_Some (attrs (fgraph w) !! "validate") →
  is_Some (attrs (fgraph w) !! "consistent") →
  Validator.on_detach w
  = (Ok (), upd_fgraph (delattr "consistent") (upd_fgraph (delattr "validate") w)).
Proof.
  intros Hv Hc. unfold Validator.on_detach.
  erewrite bind_ok; [|by apply del_attr_ok].
  apply del_attr_ok. simpl. by rewrite lookup_delete_ne.
Qed.

(** What a successful attach of [ReplaceValidate] found and made. *)
Lemma replace_validate_on_attach_success w w1 :
  ReplaceValidate.on_attach w = (Ok (), w1) →
  (∀ name, name ∈ ["replace_validate"; "replace_all_validate";
                   "replace_all_validate_remove"; "checkpoint"; "revert";
                   "validate"; "validate_time"] →
           attrs (fgraph w) !! name = None) ∧
  w1 = mkWorld
         (setattr "replace_all_validate_remove" (APartial "replace_all_validate_remove")
         (setattr "replace_all_validate" (APartial "replace_all_validate")
         (setattr "replace_validate" (APartial "replace_validate")
         (setattr "consistent" (APartial "consistent_")
         (setattr "validate" (APartial "validate_")
         (setattr "revert" (APartial "revert")
         (setattr "checkpoint" (AGetCheckpoint 0)
         (setattr "consistent" (APartial "consistent_")
         (setattr "validate" (APartial "validate_")
         (setattr "revert" (APartial "revert")
         (setattr "checkpoint" (AGetCheckpoint 0) (fgraph w))))))))))))
         (mkSelf (<[graph_id (fgraph w) := Some []]> (history (self w)))
                 (Some ∅) (Some false))
         (stdout w) (stderr w).
Proof.
  unfold ReplaceValidate.on_attach, ReplaceValidate.unpickle, History.on_attach,
    Validator.on_attach, History.unpickle, Validator.unpickle, history_set.
  munfold. intros H.
  destruct (hasattr (fgraph w) "replace_validate") eqn:H1; [done|].
  destruct (hasattr (fgraph w) "replace_all_validate") eqn:H2; [done|].
  destruct (hasattr (fgraph w) "replace_all_validate_remove") eqn:H3; [done|].
  simpl in H.
  destruct (hasattr (fgraph w) "checkpoint") eqn:H4; [done|].
  destruct (hasattr (fgraph w) "revert") eqn:H5; [done|].
  simpl in H.
  assert (Hv : ∀ name, name ≠ "checkpoint" → name ≠ "revert" →
            hasattr (setattr "revert" (APartial "revert")
              (setattr "checkpoint" (AGetCheckpoint 0) (fgraph w))) name
            = hasattr (fgraph w) name).
  { intros name Hn1 Hn2. unfold hasattr. simpl. by rewrite !lookup_insert_ne. }
  rewrite !Hv in H by done.
  destruct (hasattr (fgraph w) "validate") eqn:H6; [done|].
  destruct (hasattr (fgraph w) "validate_time") eqn:H7; [done|].
  simpl in H. inversion H; subst w1. clear H. split; [|done].
  intros name Hin. apply hasattr_false.
  repeat (apply elem_of_cons in Hin as [->|Hin]; [done|]).
  by apply elem_of_nil in Hin.
Qed.

Lemma graph_ext (g g' : FunctionGraph) :
  graph_id g = graph_id g' → edges g = edges g' →
  apply_nodes g = apply_nodes g' → variables g = variables g' →
  attrs g = attrs g' → calls g = calls g' → g = g'.
Proof. destruct g, g'. simpl. by intros -> -> -> -> -> ->. Qed.

Lemma attrs_setattr name v g : attrs (setattr name v g) = <[name := v]> (attrs g).
Proof. done. Qed.
Lemma attrs_delattr name g : attrs (delattr name g) = delete name (attrs g).
Proof. done. Qed.
Lemma graph_id_setattr name v g : graph_id (setattr name v g) = graph_id g.
Proof. done. Qed.
Lemma graph_id_delattr name g : graph_id (delattr name g) = graph_id g.
Proof. done. Qed.
Lemma edges_setattr name v g : edges (setattr name v g) = edges g.
Proof. done. Qed.
Lemma edges_delattr name g : edges (delattr name g) = edges g.
Proof. done. Qed.
Lemma apply_nodes_setattr name v g : apply_nodes (setattr name v g) = apply_nodes g.
Proof. done. Qed.
Lemma apply_nodes_delattr name g : apply_nodes (delattr name g) = apply_nodes g.
Proof. done. Qed.
Lemma variables_setattr name v g : variables (setattr name v g) = variables g.
Proof. done. Qed.
Lemma variables_delattr name g : variables (delattr name g) = variables g.
Proof. done. Qed.
Lemma calls_setattr name v g : calls (setattr name v g) = calls g.
Proof. done. Qed.
Lemma calls_delattr name g : calls (delattr name g) = calls g.
Proof. done. Qed.

Ltac graph_fields :=
  repeat first
    [ rewrite attrs_setattr | rewrite attrs_delattr
    | rewrite graph_id_setattr | rewrite graph_id_delattr
    | rewrite edges_setattr | rewrite edges_delattr
    | rewrite apply_nodes_setattr | rewrite apply_nodes_delattr
    | rewrite variables_setattr | rewrite variables_delattr
    | rewrite calls_setattr | rewrite calls_delattr ].

(** X10. Attach then detach: when [ReplaceValidate.on_attach]
    succeeds on a graph without an attribute [consistent] and an instance
    without a log for the graph, the graph is then attached, and
    [on_detach] succeeds and gives back the graph and the logs exactly as
    they were; the instance keeps [fail_validate] and loses
    [_nodes_removed]; a second [on_detach] raises an [AttributeError] and
    changes nothing. *)
Theorem attach_detach_round_trip (w w1 : World Self) :
  ReplaceValidate.on_attach w = (Ok (), w1) →
  attrs (fgraph w) !! "consistent" = None →
  history (self w) !! graph_id (fgraph w) = None →
  attached w1 = true ∧
  ∃ w2, ReplaceValidate.on_detach w1 = (Ok (), w2) ∧
        fgraph w2 = fgraph w ∧
        history (self w2) = history (self w) ∧
        _nodes_removed (self w2) = None ∧
        fail_validate (self w2) = Some false ∧
        stdout w2 = stdout w ∧ stderr w2 = stderr w ∧
        ∃ e, ReplaceValidate.on_detach w2 = (Raise e, w2) ∧
             exn_type e = AttributeError.
Proof.
  intros Hatt Hcons Hhist.
  destruct (replace_validate_on_attach_success w w1 Hatt) as [Hnone ->].
  assert (H1 := Hnone "replace_validate" ltac:(set_solver)).
  assert (H2 := Hnone "replace_all_validate" ltac:(set_solver)).
  assert (H3 := Hnone "replace_all_validate_remove" ltac:(set_solver)).
  assert (H4 := Hnone "checkpoint" ltac:(set_solver)).
  assert (H5 := Hnone "revert" ltac:(set_solver)).
  assert (H6 := Hnone "validate" ltac:(set_solver)).
  clear Hnone Hatt.
  split.
  { apply attached_iff. simpl. simplify_map_eq. eauto 10. }
  eexists. split.
  { unfold ReplaceValidate.on_detach.
    erewrite bind_ok; [|apply history_on_detach_ok; simpl; simplify_map_eq; eauto].
    erewrite bind_ok; [|apply validator_on_detach_ok; simpl; simplify_map_eq; eauto].
    munfold. simpl.
    repeat (rewrite del_attr_ok by (simpl; simplify_map_eq; eauto); simpl).
    reflexivity. }
  simpl.
  assert (Hg : ∀ A : gmap string Attr,
            A !! "replace_validate" = None → A !! "replace_all_validate" = None →
            A !! "replace_all_validate_remove" = None → A !! "checkpoint" = None →
            A !! "revert" = None → A !! "validate" = None → A !! "consistent" = None →
            delete "replace_all_validate_remove"
              (delete "replace_all_validate"
                 (delete "replace_validate"
                    (delete "consistent"
                       (delete "validate"
                          (delete "revert"
                             (delete "checkpoint"
              (<["replace_all_validate_remove" := APartial "replace_all_validate_remove"]>
              (<["replace_all_validate" := APartial "replace_all_validate"]>
              (<["replace_validate" := APartial "replace_validate"]>
              (<["consistent" := APartial "consistent_"]>
              (<["validate" := APartial "validate_"]>
              (<["revert" := APartial "revert"]>
              (<["checkpoint" := AGetCheckpoint 0]>
              (<["consistent" := APartial "consistent_"]>
              (<["validate" := APartial "validate_"]>
              (<["revert" := APartial "revert"]>
              (<["checkpoint" := AGetCheckpoint 0]> A))))))))))))))))) = A).
  { intros A Ha1 Ha2 Ha3 Ha4 Ha5 Ha6 Ha7. apply map_eq. intros k.
    destruct (decide (k = "replace_all_validate_remove")) as [->|];
      [by simplify_map_eq|].
    destruct (decide (k = "replace_all_validate")) as [->|]; [by simplify_map_eq|].
    destruct (decide (k = "replace_validate")) as [->|]; [by simplify_map_eq|].
    destruct (decide (k = "consistent")) as [->|]; [by simplify_map_eq|].
    destruct (decide (k = "validate")) as [->|]; [by simplify_map_eq|].
    destruct (decide (k = "revert")) as [->|]; [by simplify_map_eq|].
    destruct (decide (k = "checkpoint")) as [->|]; [by simplify_map_eq|].
    by simplify_map_eq. }
  split.
  { apply graph_ext; graph_fields; try reflexivity. by apply Hg. }
  split.
  { rewrite delete_insert_eq. by apply delete_id. }
  repeat (split; [done|]).
  eexists. split.
  - unfold ReplaceValidate.on_detach, History.on_detach.
    unfold bind at 1. unfold bind at 1. unfold bind at 1.
    rewrite del_attr_missing; [reflexivity|].
    simpl. by simplify_map_eq.
  - done.
Qed.

Lemma attach_detach_round_trip_witness :
  let w1 := (ReplaceValidate.on_attach Demo.world0).2 in
  ReplaceValidate.on_attach Demo.world0 = (Ok (), w1) ∧
  fgraph (ReplaceValidate.on_detach w1).2 = fgraph Demo.world0.
Proof.
  intros w1.
  assert (H : ReplaceValidate.on_attach Demo.world0 = (Ok (), w1))
    by (vm_compute; reflexivity).
  split; [exact H|].
  destruct (attach_detach_round_trip Demo.world0 w1 H eq_refl eq_refl)
    as (_ & w2 & Hd & Hg & _).
  rewrite Hd. exact Hg.
Defined.

(** ** More on the node index *)

Lemma list_remove_Some_elem {A} `{EqDecision A} (x : A) l l' :
  list_remove x l = Some l' → x ∈ l.
Proof.
  revert l'. induction l as [|y l IH]; intros l' H; simpl in H; [done|].
  destruct (decide (x = y)) as [->|]; [by left|].
  destruct (list_remove x l) as [l0|]; simpl in H; [|done].
  right. by eapply IH.
Qed.

Lemma indexes_applying (s : NodeFinderSelf) live live' :
  NodeFinder.indexes s live →
  (∀ o, hash o = None → NodeFinder.applying o live' = NodeFinder.applying o live) →
  NodeFinder.indexes s live'.
Proof.
  intros [Hb Hinj] Heq. split; [|done]. intros o. specialize (Hb o).
  destruct (d s !! o) as [l|].
  - destruct Hb as (Hh & Hheap & Hne). by rewrite (Heq o Hh).
  - intros Hh. rewrite (Heq o Hh). by apply Hb.
Qed.

Lemma indexes_unindexed_import (s : NodeFinderSelf) live n :
  hash (op n) ≠ None → NodeFinder.indexes s live → NodeFinder.indexes s (live ++ [n]).
Proof.
  intros Hn Hidx. apply (indexes_applying s live); [done|].
  intros o Hh. rewrite applying_app, applying_singleton.
  rewrite decide_False; [by rewrite app_nil_r|]. intros Heq. by rewrite Heq in Hn.
Qed.

Lemma indexes_unindexed_prune (s : NodeFinderSelf) live n :
  hash (op n) ≠ None → NodeFinder.indexes s live →
  NodeFinder.indexes s (default live (list_remove n live)).
Proof.
  intros Hn Hidx. destruct (list_remove n live) as [live'|] eqn:Hrem; [|done].
  simpl. apply (indexes_applying s live); [done|].
  intros o Hh. destruct (list_remove_applying n live live' Hrem) as [_ Hother].
  apply Hother. intros Heq. by rewrite <- Heq in Hn.
Qed.

Lemma on_import_frame (w : World NodeFinderSelf) n reason :
  fgraph (NodeFinder.on_import n reason w).2 = fgraph w ∧
  nf_fgraph (self (NodeFinder.on_import n reason w).2) = nf_fgraph (self w) ∧
  stdout (NodeFinder.on_import n reason w).2 = stdout w.
Proof.
  unfold NodeFinder.on_import.
  destruct (hash (op n)); [by case_bool_decide|].
  munfold. by destruct (d (self w) !! op n).
Qed.

Lemma on_prune_frame (w : World NodeFinderSelf) n reason :
  fgraph (NodeFinder.on_prune n reason w).2 = fgraph w ∧
  nf_fgraph (self (NodeFinder.on_prune n reason w).2) = nf_fgraph (self w) ∧
  stdout (NodeFinder.on_prune n reason w).2 = stdout w ∧
  stderr (NodeFinder.on_prune n reason w).2 = stderr w.
Proof.
  unfold NodeFinder.on_prune.
  destruct (hash (op n)); [by case_bool_decide|].
  munfold. destruct (d (self w) !! op n); [|done].
  destruct (list_remove n _) as [[|m rest]|]; done.
Qed.

Lemma on_import_sound (w : World NodeFinderSelf) live n reason :
  NodeFinder.indexes (self w) live →
  sound_hash n = true →
  ∃ w', NodeFinder.on_import n reason w = (Ok (), w') ∧
        NodeFinder.indexes (self w') (live ++ [n]) ∧
        stderr w' = stderr w.
Proof.
  intros Hidx Hn. destruct (hash (op n)) as [e|] eqn:Hh.
  - exists w. unfold NodeFinder.on_import. unfold sound_hash in Hn.
    rewrite Hh in *. rewrite Hn. split; [done|]. split; [|done].
    apply indexes_unindexed_import; [|done]. by rewrite Hh.
  - destruct (on_import_indexes w live n reason Hidx Hh) as (w' & Hi & Hidx').
    exists w'. split; [done|]. split; [done|].
    revert Hi. unfold NodeFinder.on_import. rewrite Hh. munfold.
    destruct (d (self w) !! op n); intros Hi; by inversion Hi.
Qed.

Lemma on_prune_sound (w : World NodeFinderSelf) live n reason :
  NodeFinder.indexes (self w) live →
  sound_hash n = true →
  n ∈ live →
  ∃ w' live', NodeFinder.on_prune n reason w = (Ok (), w') ∧
              list_remove n live = Some live' ∧
              NodeFinder.indexes (self w') live'.
Proof.
  intros Hidx Hn Hin. destruct (hash (op n)) as [e|] eqn:Hh.
  - destruct (list_remove_elem n live Hin) as [live' Hrem].
    exists w, live'. unfold NodeFinder.on_prune. unfold sound_hash in Hn.
    rewrite Hh in *. rewrite Hn. split; [done|]. split; [done|].
    pose proof (indexes_unindexed_prune (self w) live n) as H.
    rewrite Hrem in H. apply H; [|done]. by rewrite Hh.
  - destruct (on_prune_indexes w live n reason Hidx Hh Hin)
      as (w' & live' & Hp & Hrem & Hidx' & _).
    by exists w', live'.
Qed.

(** X11. The index follows the graph: from a state of the index that
    agrees with the node list [live], after any run of imports, prunes and
    queries that does not raise, the index agrees with the list that the
    run leaves (an import adds the node at the end, a prune takes it
    away), and a query of a hashable op returns a new list holding the
    nodes of that list that apply the op, in the order of their import. *)
Theorem index_follows_graph (w w' : World NodeFinderSelf) live evs :
  NodeFinder.indexes (self w) live →
  for_each evs NodeFinder.run_event w = (Ok (), w') →
  NodeFinder.indexes (self w') (live_after evs live) ∧
  ∀ o, hash o = None →
    ∃ l w'', NodeFinder.query o w' = (Ok l, w'') ∧
             heap (self w'') !! l
             = Some (NodeFinder.applying o (live_after evs live)).
Proof.
  intros Hidx Hrun.
  assert (Hfinal : NodeFinder.indexes (self w') (live_after evs live)).
  { revert w live Hidx Hrun. induction evs as [|ev evs IH]; intros w live Hidx Hrun.
    - simpl in Hrun. unfold ret in Hrun. by inversion Hrun; subst.
    - simpl in Hrun. unfold bind in Hrun.
      destruct (NodeFinder.run_event ev w) as [[[]|e] w1] eqn:Hev; [|done].
      simpl. apply (IH w1); [|done]. clear IH Hrun.
      destruct ev as [n|n|o]; simpl in *.
      + destruct (hash (op n)) as [e|] eqn:Hh.
        * unfold NodeFinder.on_import in Hev. rewrite Hh in Hev.
          case_bool_decide; [|done]. inversion Hev; subst w1.
          apply indexes_unindexed_import; [|done]. by rewrite Hh.
        * destruct (on_import_indexes w live n RNone Hidx Hh) as (w2 & Hi & Hidx2).
          rewrite Hi in Hev. by inversion Hev; subst.
      + destruct (hash (op n)) as [e|] eqn:Hh.
        * unfold NodeFinder.on_prune in Hev. rewrite Hh in Hev.
          case_bool_decide; [|done]. inversion Hev; subst w1.
          apply indexes_unindexed_prune; [|done]. by rewrite Hh.
        * assert (Hin : n ∈ live).
          { unfold NodeFinder.on_prune in Hev. rewrite Hh in Hev. munfold.
            pose proof Hidx as [Hb _]. specialize (Hb (op n)).
            destruct (d (self w) !! op n) as [l|]; [|done].
            destruct Hb as (_ & Hheap & _).
            unfold NodeFinder.deref in Hev. rewrite Hheap in Hev. simpl in Hev.
            destruct (list_remove n (NodeFinder.applying (op n) live))
              as [rest|] eqn:Hrem; [|done].
            apply list_remove_Some_elem in Hrem.
            unfold NodeFinder.applying in Hrem.
            by apply list_elem_of_filter in Hrem as [_ ?]. }
          destruct (on_prune_indexes w live n RNone Hidx Hh Hin)
            as (w2 & live' & Hp & Hrem & Hidx2 & _).
          rewrite Hp in Hev. inversion Hev; subst w1. by rewrite Hrem.
      + destruct (hash o) as [e|] eqn:Hh.
        * unfold bind, NodeFinder.query in Hev. rewrite Hh in Hev.
          by case_bool_decide.
        * destruct (query_indexes w live o Hidx Hh) as (Hq & _ & Hidx2 & _).
          unfold bind in Hev. rewrite Hq in Hev. by inversion Hev; subst. }
  split; [done|].
  intros o Hh.
  destruct (query_indexes w' _ o Hfinal Hh) as (Hq & _ & _ & Hsnap & _).
  eauto.
Qed.

Lemma index_follows_graph_witness :
  let evs := [NodeFinder.Import Demo.n1; NodeFinder.Import Demo.n3;
              NodeFinder.Import Demo.n2; NodeFinder.Prune Demo.n1] in
  let w' := (for_each evs NodeFinder.run_event Demo.finder0).2 in
  for_each evs NodeFinder.run_event Demo.finder0 = (Ok (), w') ∧
  NodeFinder.indexes (self w') [Demo.n3; Demo.n2].
Proof.
  intros evs w'.
  assert (Hrun : for_each evs NodeFinder.run_event Demo.finder0 = (Ok (), w'))
    by (vm_compute; reflexivity).
  split; [exact Hrun|].
  destruct (index_follows_graph Demo.finder0 w' [] evs (indexes_empty None) Hrun)
    as [H _].
  exact H.
Defined.

(** X12. What the index does with a node it cannot handle.  Pruning a
    node with a hashable op that is not among the nodes of the index
    raises a [KeyError] when no node applies its op and a [ValueError]
    otherwise; importing, pruning or querying with an op whose hash fails
    raises the exception of the hash (an import prints two lines to the
    diagnostic stream first); pruning a node with an unhashable op returns
    at once.  In all these cases the index is unchanged. *)
Theorem index_rejections (w : World NodeFinderSelf) live :
  NodeFinder.indexes (self w) live →
  (∀ n reason, hash (op n) = None → n ∉ live →
     ∃ e, NodeFinder.on_prune n reason w = (Raise e, w) ∧
          exn_type e = (if decide (NodeFinder.applying (op n) live = [])
                        then KeyError else ValueError)) ∧
  (∀ n reason e, hash (op n) = Some e → exn_type e ≠ TypeError →
     (NodeFinder.on_import n reason w).1 = Raise e ∧
     self (NodeFinder.on_import n reason w).2 = self w ∧
     stderr (NodeFinder.on_import n reason w).2
     = stderr w ++ [POffendingNode n; POffendingNotHashable] ∧
     NodeFinder.on_prune n reason w = (Raise e, w) ∧
     NodeFinder.query (op n) w = (Raise e, w)) ∧
  (∀ n reason e, hash (op n) = Some e → exn_type e = TypeError →
     NodeFinder.on_prune n reason w = (Ok (), w)).
Proof.
  intros Hidx. pose proof Hidx as [Hb _]. split; [|split].
  - intros n reason Hh Hnin. unfold NodeFinder.on_prune. rewrite Hh. munfold.
    specialize (Hb (op n)).
    destruct (d (self w) !! op n) as [l|] eqn:Hd.
    + destruct Hb as (_ & Hheap & Hne). unfold NodeFinder.deref. rewrite Hheap.
      simpl.
      destruct (list_remove n (NodeFinder.applying (op n) live)) as [rest|] eqn:Hrem.
      { exfalso. apply Hnin. apply list_remove_Some_elem in Hrem.
        unfold NodeFinder.applying in Hrem.
        by apply list_elem_of_filter in Hrem as [_ ?]. }
      eexists. split; [done|]. by rewrite decide_False.
    + eexists. split; [done|]. rewrite decide_True; [done|]. by apply Hb.
  - intros n reason e Hh Hty.
    unfold NodeFinder.on_import, NodeFinder.on_prune, NodeFinder.query.
    rewrite Hh. rewrite !bool_decide_eq_false_2 by done. munfold. simpl.
    rewrite <- app_assoc. done.
  - intros n reason e Hh Hty. unfold NodeFinder.on_prune. rewrite Hh.
    by rewrite bool_decide_eq_true_2.
Qed.

Lemma index_rejections_witness :
  let w := (NodeFinder.on_import Demo.n1 RNone Demo.finder0).2 in
  NodeFinder.indexes (self w) [Demo.n1] ∧
  ∃ e, NodeFinder.on_prune Demo.n2 RNone w = (Raise e, w) ∧
       exn_type e = ValueError.
Proof.
  intros w.
  assert (Hidx : NodeFinder.indexes (self w) [Demo.n1]).
  { destruct (on_import_indexes Demo.finder0 [] Demo.n1 RNone
                (indexes_empty None) eq_refl) as (w1 & H1 & Hi1).
    unfold w. rewrite H1. exact Hi1. }
  split; [exact Hidx|].
  destruct (index_rejections w [Demo.n1] Hidx) as (H & _).
  destruct (H Demo.n2 RNone eq_refl) as (e & He & Hty).
  { intros Hin. apply list_elem_of_singleton in Hin. discriminate. }
  exists e. split; [exact He|]. exact Hty.
Defined.

(** ** Attaching and detaching the node index *)

Lemma imports_sound (nodes : list Apply) reason :
  ∀ (w : World NodeFinderSelf) live,
  NodeFinder.indexes (self w) live →
  Forall (λ n, sound_hash n = true) nodes →
  ∃ w', for_each nodes (λ n, NodeFinder.on_import n reason) w = (Ok (), w') ∧
        NodeFinder.indexes (self w') (live ++ nodes) ∧
        fgraph w' = fgraph w ∧
        nf_fgraph (self w') = nf_fgraph (self w) ∧
        stdout w' = stdout w ∧ stderr w' = stderr w.
Proof.
  induction nodes as [|n nodes IH]; intros w live Hidx Hs.
  - exists w. rewrite app_nil_r. done.
  - inversion Hs as [|? ? Hn Hrest]; subst.
    destruct (on_import_sound w live n reason Hidx Hn) as (w1 & Hi & Hidx1 & Herr).
    destruct (on_import_frame w n reason) as (Hg & Hnf & Hout).
    rewrite Hi in Hg, Hnf, Hout. simpl in Hg, Hnf, Hout.
    destruct (IH w1 (live ++ [n]) Hidx1 Hrest) as (w' & Hrun & Hidx' & Hg' & Hnf' & Hout' & Herr').
    exists w'. simpl. rewrite (bind_ok _ _ _ _ _ Hi).
    rewrite <- app_assoc in Hidx'. simpl in Hidx'.
    split; [done|]. split; [done|]. repeat split; congruence.
Qed.

Lemma prunes_sound (nodes : list Apply) reason :
  ∀ (w : World NodeFinderSelf) rest,
  NodeFinder.indexes (self w) (nodes ++ rest) →
  Forall (λ n, sound_hash n = true) nodes →
  ∃ w', for_each nodes (λ n, NodeFinder.on_prune n reason) w = (Ok (), w') ∧
        NodeFinder.indexes (self w') rest ∧
        fgraph w' = fgraph w ∧
        nf_fgraph (self w') = nf_fgraph (self w) ∧
        stdout w' = stdout w ∧ stderr w' = stderr w.
Proof.
  induction nodes as [|n nodes IH]; intros w rest Hidx Hs.
  - by exists w.
  - inversion Hs as [|? ? Hn Hrest]; subst.
    destruct (on_prune_sound w _ n reason Hidx Hn) as (w1 & live' & Hp & Hrem & Hidx1).
    { by left. }
    simpl in Hrem. rewrite decide_True in Hrem by done. inversion Hrem; subst live'.
    destruct (on_prune_frame w n reason) as (Hg & Hnf & Hout & Herr).
    rewrite Hp in Hg, Hnf, Hout, Herr. simpl in Hg, Hnf, Hout, Herr.
    destruct (IH w1 rest Hidx1 Hrest) as (w' & Hrun & Hidx' & Hg' & Hnf' & Hout' & Herr').
    exists w'. simpl. rewrite (bind_ok _ _ _ _ _ Hp).
    split; [done|]. split; [done|]. repeat split; congruence.
Qed.

Lemma indexes_nil_empty (s : NodeFinderSelf) : NodeFinder.indexes s [] → d s = ∅.
Proof.
  intros [Hb _]. apply map_eq. intros o. rewrite lookup_empty.
  specialize (Hb o). destruct (d s !! o); [|done].
  by destruct Hb as (_ & _ & Hne).
Qed.

(** X13. Attaching and detaching the node index.  On a graph that has no
    [get_nodes], whose sort does not depend on the attributes of the graph
    and in which no op has a failing hash, the attach of an instance with
    an empty index that serves no graph succeeds: the graph gets
    [get_nodes] and is otherwise unchanged, the instance serves the graph,
    and the index agrees with the nodes of the graph in the order of the
    sort.  A second attach of the instance raises an [Exception] that is
    not [AlreadyThere] and changes nothing.  The detach that follows
    succeeds, gives back the graph as it was and leaves the index empty;
    a second detach raises an [Exception] and changes nothing. *)
Theorem node_finder_attach_detach {ext : External} (w : World NodeFinderSelf) :
  nf_fgraph (self w) = None →
  NodeFinder.indexes (self w) [] →
  hasattr (fgraph w) "get_nodes" = false →
  (∀ g name a, io_toposort (setattr name a g) = io_toposort g) →
  (∀ g name, io_toposort (delattr name g) = io_toposort g) →
  Forall (λ n, sound_hash n = true) (io_toposort (fgraph w)) →
  ∃ w1 w2,
    NodeFinder.on_attach (cls := NodeFinder.feature) w = (Ok (), w1) ∧
    fgraph w1 = setattr "get_nodes" (APartial "query") (fgraph w) ∧
    nf_fgraph (self w1) = Some (graph_id (fgraph w)) ∧
    NodeFinder.indexes (self w1) (io_toposort (fgraph w)) ∧
    stdout w1 = stdout w ∧ stderr w1 = stderr w ∧
    (∃ e, NodeFinder.on_attach (cls := NodeFinder.feature) w1 = (Raise e, w1) ∧
          exn_type e = Exception) ∧
    NodeFinder.on_detach (cls := NodeFinder.feature) w1 = (Ok (), w2) ∧
    fgraph w2 = fgraph w ∧
    nf_fgraph (self w2) = None ∧
    d (self w2) = ∅ ∧
    stdout w2 = stdout w ∧ stderr w2 = stderr w ∧
    (∃ e, NodeFinder.on_detach (cls := NodeFinder.feature) w2 = (Raise e, w2) ∧
          exn_type e = Exception).
Proof.
  intros Hnf Hidx Hhas Hset Hdel Hsound.
  set (wa := upd_fgraph (setattr "get_nodes" (APartial "query"))
               (upd_self (NodeFinder.set_nf_fgraph (Some (graph_id (fgraph w)))) w)).
  assert (Hidxa : NodeFinder.indexes (self wa) []) by (by destruct Hidx).
  destruct (imports_sound (io_toposort (fgraph w)) (RStr "on_attach") wa [] Hidxa Hsound)
    as (w1 & Hrun & Hidx1 & Hg1 & Hnf1 & Hout1 & Herr1).
  simpl in Hidx1, Hg1, Hnf1, Hout1, Herr1.
  set (wd := upd_fgraph (delattr "get_nodes")
               (upd_self (NodeFinder.set_nf_fgraph None) w1)).
  assert (Hidxd : NodeFinder.indexes (self wd) (io_toposort (fgraph w) ++ []))
    by (rewrite app_nil_r; by destruct Hidx1).
  destruct (prunes_sound (io_toposort (fgraph w)) (RStr "Bookkeeper.detach") wd []
              Hidxd Hsound)
    as (w2 & Hrun2 & Hidx2 & Hg2 & Hnf2 & Hout2 & Herr2).
  simpl in Hg2, Hnf2, Hout2, Herr2.
  assert (Hattrs : attrs (fgraph w) !! "get_nodes" = None) by (by apply hasattr_false).
  assert (Hback : delattr "get_nodes" (fgraph w1) = fgraph w).
  { rewrite Hg1. unfold delattr, setattr. simpl.
    rewrite delete_insert_id by done. by destruct (fgraph w). }
  exists w1, w2.
  assert (Hatt : NodeFinder.on_attach (cls := NodeFinder.feature) w = (Ok (), w1)).
  { unfold NodeFinder.on_attach. munfold. rewrite Hnf, Hhas. simpl.
    unfold Bookkeeper.on_attach. munfold. simpl. rewrite Hset. exact Hrun. }
  assert (Hdet : NodeFinder.on_detach (cls := NodeFinder.feature) w1 = (Ok (), w2)).
  { unfold NodeFinder.on_detach. munfold. rewrite Hnf1, Hg1. simpl.
    rewrite bool_decide_eq_true_2 by done.
    assert (Hh : hasattr (setattr "get_nodes" (APartial "query") (fgraph w)) "get_nodes"
                 = true).
    { apply hasattr_true. simpl. rewrite lookup_insert_eq. eauto. }
    rewrite Hh. simpl. unfold Bookkeeper.on_detach. munfold. simpl.
    rewrite Hg1, Hdel, Hset. exact Hrun2. }
  split_and!; try done; try congruence.
  - eexists. split.
    + unfold NodeFinder.on_attach. munfold. by rewrite Hnf1.
    + reflexivity.
  - by apply indexes_nil_empty.
  - eexists. split.
    + unfold NodeFinder.on_detach. munfold. rewrite Hnf2. reflexivity.
    + reflexivity.
Qed.

Lemma node_finder_attach_detach_witness :
  ∃ w1 w2,
    NodeFinder.on_attach (ext := Demo.ext) (cls := NodeFinder.feature) Demo.finder0
      = (Ok (), w1) ∧
    NodeFinder.indexes (self w1) [Demo.n1; Demo.n2] ∧
    NodeFinder.on_detach (ext := Demo.ext) (cls := NodeFinder.feature) w1
      = (Ok (), w2) ∧
    fgraph w2 = fgraph Demo.finder0 ∧ d (self w2) = ∅.
Proof.
  assert (H1 : hasattr (fgraph Demo.finder0) "get_nodes" = false)
    by (vm_compute; reflexivity).
  assert (H2 : Forall (λ n, sound_hash n = true)
                 (io_toposort (External := Demo.ext) (fgraph Demo.finder0))).
  { repeat constructor. }
  destruct (node_finder_attach_detach (ext := Demo.ext) Demo.finder0
              eq_refl (indexes_empty None) H1 (λ _ _ _, eq_refl) (λ _ _, eq_refl) H2)
    as (w1 & w2 & Ha & _ & _ & Hi & _ & _ & _ & Hd & Hg & _ & Hd2 & _).
  exists w1, w2. repeat split; try assumption; apply Hi.
Defined.


(** ** Names and guards of the variables through the rewrites *)

Lemma names_kept_refl w : names_kept w w.
Proof. by split. Qed.

Lemma names_kept_trans w1 w2 w3 :
  names_kept w1 w2 → names_kept w2 w3 → names_kept w1 w3.
Proof. intros [H1 H2] [H3 H4]. split; eauto. Qed.

Lemma names_kept_same (w w' : World VarAttrs) :
  edges (fgraph w') = edges (fgraph w) → names (self w') = names (self w) →
  names_kept w w'.
Proof.
  intros He Hn. split; [by rewrite Hn|].
  intros k Hk v. rewrite He, Hn. apply Hk.
Qed.

Lemma preserve_names_step (w : World VarAttrs) node i r new_r reason :
  edges (fgraph w) !! (node, i) = Some r →
  let w1 := upd_fgraph (repoint node i new_r reason) w in
  let w2 := (PreserveNames.on_change_input node i r new_r reason w1).2 in
  (PreserveNames.on_change_input node i r new_r reason w1).1 = Ok () ∧
  fgraph w2 = fgraph w1 ∧ guards (self w2) = guards (self w) ∧
  stdout w2 = stdout w ∧ stderr w2 = stderr w ∧
  names_kept w w2.
Proof.
  intros He w1 w2. unfold w2, PreserveNames.on_change_input. munfold. simpl.
  destruct (names (self w) !! r) as [n|] eqn:Hr;
    [destruct (names (self w) !! new_r) as [m|] eqn:Hnew|]; simpl;
    (split_and!; [done..|]).
  - split; [done|]. intros k Hk v. simpl.
    destruct (decide (k = (node, i))) as [->|Hne].
    + rewrite lookup_insert_eq. intros [= <-]. eauto.
    + rewrite lookup_insert_ne by done. apply Hk.
  - split; simpl.
    + intros v m Hv. rewrite lookup_insert_ne; [done|]. congruence.
    + intros k Hk v. simpl.
      destruct (decide (k = (node, i))) as [->|Hne].
      * rewrite lookup_insert_eq. intros [= <-]. rewrite lookup_insert_eq. eauto.
      * rewrite lookup_insert_ne by done. intros Hv.
        destruct (Hk v Hv) as [m Hm].
        destruct (decide (v = new_r)) as [->|]; [congruence|].
        rewrite lookup_insert_ne by done. eauto.
  - split; [done|]. intros k Hk v. simpl.
    destruct (decide (k = (node, i))) as [->|Hne].
    + intros _. destruct (Hk r He) as [m Hm]. congruence.
    + rewrite lookup_insert_ne by done. apply Hk.
Qed.

Lemma preserve_attributes_step (w : World VarAttrs) node i r new_r reason :
  edges (fgraph w) !! (node, i) = Some r →
  let w1 := upd_fgraph (repoint node i new_r reason) w in
  let w2 := (PreserveVariableAttributes.on_change_input node i r new_r reason w1).2 in
  (PreserveVariableAttributes.on_change_input node i r new_r reason w1).1 = Ok () ∧
  fgraph w2 = fgraph w1 ∧
  stdout w2 = stdout w ∧ stderr w2 = stderr w ∧
  names_kept w w2 ∧
  guards (self w2)
  = if truth (getattr_guard (self w) r)
       && bool_decide (getattr_guard (self w) new_r = PyFalse)
    then <[new_r := getattr_guard (self w) r]> (guards (self w))
    else guards (self w).
Proof.
  intros He w1 w2.
  destruct (preserve_names_step w node i r new_r reason He)
    as (Hok & Hg & Hgu & Hout & Herr & Hkept).
  fold w1 in Hok, Hg, Hgu, Hout, Herr, Hkept.
  set (wn := (PreserveNames.on_change_input node i r new_r reason w1).2) in *.
  assert (Hfirst : PreserveNames.on_change_input node i r new_r reason w1 = (Ok (), wn)).
  { unfold wn. destruct (PreserveNames.on_change_input node i r new_r reason w1)
      as [[[]|e] w0]; simpl in *; done. }
  assert (Hrun : PreserveVariableAttributes.on_change_input node i r new_r reason w1
          = (if truth (getattr_guard (self wn) r)
                && bool_decide (getattr_guard (self wn) new_r = PyFalse)
             then modify_self (set_guard new_r (getattr_guard (self wn) r))
             else ret ()) wn).
  { transitivity
      (bind (PreserveNames.on_change_input node i r new_r reason)
         (λ _, bind get_self (λ s,
            if truth (getattr_guard s r)
               && bool_decide (getattr_guard s new_r = PyFalse)
            then modify_self (set_guard new_r (getattr_guard s r))
            else ret ())) w1); [reflexivity|].
    rewrite (bind_ok _ _ _ _ _ Hfirst). reflexivity. }
  assert (Hgg : ∀ v, getattr_guard (self wn) v = getattr_guard (self w) v).
  { intros v. unfold getattr_guard. by rewrite Hgu. }
  unfold w2. rewrite Hrun, !Hgg.
  destruct (truth (getattr_guard (self w) r)
            && bool_decide (getattr_guard (self w) new_r = PyFalse)); munfold; simpl.
  - split_and!; try done. by rewrite Hgu.
  - by split_and!.
Qed.

(** A relation between worlds that every callback of a class keeps is
    kept by [fgraph.replace]. *)
Section Rewrites.
Context {ext : External} (cls : Feature VarAttrs).
Variable R : World VarAttrs → World VarAttrs → Prop.
Hypothesis R_refl : ∀ w, R w w.
Hypothesis R_trans : ∀ w1 w2 w3, R w1 w2 → R w2 w3 → R w1 w3.
Hypothesis R_same : ∀ w w',
  edges (fgraph w') = edges (fgraph w) → self w' = self w → R w w'.
Hypothesis on_import_default : ∀ n reason w,
  on_import (Feature := cls) n reason w = (Ok (), w).
Hypothesis on_prune_default : ∀ n reason w,
  on_prune (Feature := cls) n reason w = (Ok (), w).
Hypothesis on_change_input_R : ∀ w node i r new_r reason,
  edges (fgraph w) !! (node, i) = Some r →
  R w (on_change_input (Feature := cls) node i r new_r reason
         (upd_fgraph (repoint node i new_r reason) w)).2.

Lemma run_edit_R w reason e : R w (run_edit (cls := cls) reason e w).2.
Proof.
  destruct e as [node i new_r|n|n|v|v]; simpl.
  - unfold change_input. munfold.
    destruct (edges (fgraph w) !! (node, i)) as [r|] eqn:He; [|apply R_refl].
    pose proof (on_change_input_R w node i r new_r reason He) as H.
    destruct (on_change_input node i r new_r reason _) as [[[]|e] w']; exact H.
  - unfold import_node. rewrite (bind_ok _ _ _ _ _ (on_import_default n reason w)).
    by apply R_same.
  - unfold prune_node. munfold. rewrite on_prune_default. by apply R_same.
  - by apply R_same.
  - by apply R_same.
Qed.

Lemma replace_R w r new_r reason : R w (replace (cls := cls) r new_r reason w).2.
Proof.
  unfold replace. munfold.
  destruct (fg_replace (fgraph w) r new_r reason) as [es err].
  assert (H : R w (run_edits (cls := cls) reason es w).2).
  { unfold run_edits.
    apply (for_each_invariant (λ w1, R w w1)); [|apply R_refl].
    intros e w1 Hw1. eapply R_trans; [exact Hw1|apply run_edit_R]. }
  destruct (run_edits reason es w) as [[[]|e] w']; [|exact H].
  by destruct err.
Qed.

End Rewrites.

Lemma guards_kept_refl w : guards_kept w w.
Proof. by split. Qed.

Lemma guards_kept_trans w1 w2 w3 :
  guards_kept w1 w2 → guards_kept w2 w3 → guards_kept w1 w3.
Proof.
  intros [H1 H2] [H3 H4]. split; [eauto|].
  intros Hp. destruct (H2 Hp) as [Hp2 Hs2]. destruct (H4 Hp2) as [Hp3 Hs3]. eauto.
Qed.

Lemma guards_kept_same (w w' : World VarAttrs) :
  edges (fgraph w') = edges (fgraph w) → self w' = self w → guards_kept w w'.
Proof.
  intros He Hs. split; [by rewrite Hs|]. intros Hp. rewrite Hs. split; [done|].
  intros k Hk v. rewrite He, Hs. apply Hk.
Qed.

Lemma preserve_attributes_guards (w : World VarAttrs) node i r new_r reason :
  edges (fgraph w) !! (node, i) = Some r →
  guards_kept w
    (PreserveVariableAttributes.on_change_input node i r new_r reason
       (upd_fgraph (repoint node i new_r reason) w)).2.
Proof.
  intros He.
  destruct (preserve_attributes_step w node i r new_r reason He)
    as (_ & Hg & _ & _ & _ & Hgu).
  cbv zeta in Hg, Hgu.
  set (w2 := (PreserveVariableAttributes.on_change_input node i r new_r reason _).2) in *.
  assert (Hget : ∀ v, getattr_guard (self w2) v
            = if truth (getattr_guard (self w) r)
                 && bool_decide (getattr_guard (self w) new_r = PyFalse)
                 && bool_decide (v = new_r)
              then getattr_guard (self w) r else getattr_guard (self w) v).
  { intros v. unfold getattr_guard at 1. rewrite Hgu.
    destruct (truth (getattr_guard (self w) r)
              && bool_decide (getattr_guard (self w) new_r = PyFalse)); simpl; [|done].
    case_bool_decide as Hv; [subst v; by rewrite lookup_insert_eq|].
    by rewrite lookup_insert_ne. }
  assert (Hedge : ∀ k v, edges (fgraph w2) !! k = Some v →
            (k = (node, i) ∧ v = new_r) ∨ (k ≠ (node, i) ∧ edges (fgraph w) !! k = Some v)).
  { intros k v. rewrite Hg. simpl.
    destruct (decide (k = (node, i))) as [->|Hne].
    - rewrite lookup_insert_eq. intros [= <-]. by left.
    - rewrite lookup_insert_ne by done. by right. }
  split.
  - intros v o Hv Ho. rewrite Hgu.
    destruct (truth (getattr_guard (self w) r)) eqn:Ht; simpl; [|done].
    case_bool_decide as Hnew; [|done].
    rewrite lookup_insert_ne; [done|]. intros <-.
    unfold getattr_guard in Hnew. rewrite Hv in Hnew. simpl in Hnew. done.
  - intros Hp. split.
    + intros v. rewrite Hget.
      destruct (truth (getattr_guard (self w) r)) eqn:Ht; simpl; [|apply Hp].
      case_bool_decide; simpl; [|apply Hp].
      case_bool_decide; [by right|apply Hp].
    + intros k Hk v Hv. rewrite Hget.
      destruct (Hedge k v Hv) as [[-> ->]|[Hne Hold]].
      * rewrite (Hk r He). simpl. rewrite (bool_decide_eq_true_2 (new_r = new_r)) by done.
        case_bool_decide as Hnew; simpl; [by apply Hk|].
        by destruct (Hp new_r).
      * destruct (truth (getattr_guard (self w) r)) eqn:Ht; simpl; [|by apply Hk].
        repeat case_bool_decide; simpl; try by apply Hk. done.
Qed.

(** X14. Names survive the rewrites.  With [PreserveNames] or
    [PreserveVariableAttributes] as the feature, a call of
    [fgraph.replace], whatever edits it makes and whether it raises or
    not, changes or removes the name of no variable, and every input slot
    that held a named variable holds a named variable afterwards. *)
Theorem names_survive_rewrites {ext : External} (cls : Feature VarAttrs)
    (w : World VarAttrs) r new_r reason :
  cls = PreserveNames.feature ∨ cls = PreserveVariableAttributes.feature →
  let w' := (replace (cls := cls) r new_r reason w).2 in
  (∀ v n, names (self w) !! v = Some n → names (self w') !! v = Some n) ∧
  (∀ k, named_slot k w → named_slot k w').
Proof.
  intros Hcls w'. change (names_kept w w'). unfold w'.
  apply replace_R.
  - apply names_kept_refl.
  - apply names_kept_trans.
  - intros w1 w2 He Hs. apply names_kept_same; [done|by rewrite Hs].
  - by destruct Hcls as [-> | ->].
  - by destruct Hcls as [-> | ->].
  - intros w1 node i r1 new_r1 reason1 He. destruct Hcls as [-> | ->]; simpl.
    + apply (preserve_names_step w1 node i r1 new_r1 reason1 He).
    + apply (preserve_attributes_step w1 node i r1 new_r1 reason1 He).
Qed.

(** X15. Guards survive the rewrites.  With
    [PreserveVariableAttributes] as the feature, a call of
    [fgraph.replace], whatever edits it makes and whether it raises or
    not, leaves every [tag.nan_guard_mode_check] that is not the object
    [False] as it is, also one that is false ([None], [0]): such a guard
    on the new variable is not replaced.  When no variable has such a
    false guard, this is still so after the call, and every input slot
    that held a variable with a true guard holds one afterwards. *)
Theorem guards_survive_rewrites {ext : External} (w : World VarAttrs) r new_r reason :
  let w' := (replace (cls := PreserveVariableAttributes.feature) r new_r reason w).2 in
  (∀ v o, guards (self w) !! v = Some o → o ≠ PyFalse →
          guards (self w') !! v = Some o) ∧
  (plain_guards (self w) →
   plain_guards (self w') ∧ ∀ k, guarded_slot k w → guarded_slot k w').
Proof.
  intros w'. change (guards_kept w w'). unfold w'.
  apply replace_R.
  - apply guards_kept_refl.
  - apply guards_kept_trans.
  - apply guards_kept_same.
  - done.
  - done.
  - intros w1 node i r1 new_r1 reason1 He.
    apply (preserve_attributes_guards w1 node i r1 new_r1 reason1 He).
Qed.

Lemma names_survive_rewrites_witness :
  let w' := (replace (ext := Demo.ext) (cls := PreserveNames.feature)
               1 4 RNone Demo.attrs0).2 in
  edges (fgraph w') !! (Node Demo.n1, 0) = Some 4 ∧
  named_slot (Node Demo.n1, 0) w'.
Proof.
  intros w'. split; [vm_compute; reflexivity|].
  destruct (names_survive_rewrites (ext := Demo.ext) PreserveNames.feature
              Demo.attrs0 1 4 RNone (or_introl eq_refl)) as [_ H].
  apply H. intros v Hv.
  assert (He : edges (fgraph Demo.attrs0) !! (Node Demo.n1, 0) = Some 1)
    by (vm_compute; reflexivity).
  injection (eq_trans (eq_sym He) Hv) as <-. exists "x". vm_compute. reflexivity.
Defined.

Lemma guards_survive_rewrites_witness :
  let w' := (replace (ext := Demo.ext) (cls := PreserveVariableAttributes.feature)
               1 4 RNone Demo.attrs0).2 in
  plain_guards (self w') ∧ guarded_slot (Node Demo.n1, 0) w'.
Proof.
  intros w'.
  assert (Hp : plain_guards (self Demo.attrs0)).
  { intros v. unfold getattr_guard. simpl.
    destruct (decide (v = 1)) as [->|Hne].
    - right. rewrite lookup_singleton_eq. reflexivity.
    - left. rewrite lookup_singleton_ne by done. reflexivity. }
  destruct (guards_survive_rewrites (ext := Demo.ext) Demo.attrs0 1 4 RNone)
    as [_ H].
  destruct (H Hp) as [Hp' Hs]. split; [exact Hp'|].
  apply Hs. intros v Hv.
  assert (He : edges (fgraph Demo.attrs0) !! (Node Demo.n1, 0) = Some 1)
    by (vm_compute; reflexivity).
  injection (eq_trans (eq_sym He) Hv) as <-. vm_compute. reflexivity.
Defined.

(** ** Outputs produced in place *)

Lemma index_of_elem {A} `{EqDecision A} (x : A) l :
  x ∈ l → is_Some (index_of x l).
Proof.
  induction l as [|y l IH]; intros Hin; [by apply elem_of_nil in Hin|].
  simpl. destruct (decide (y = x)); [eauto|].
  apply elem_of_cons in Hin as [->|Hin]; [done|].
  destruct (IH Hin) as [i ->]. simpl. eauto.
Qed.

Section InplaceOutputs.
Context {nodes : Nodes}.
Hypothesis owned : ∀ out node, owner out = Some node → out ∈ node_outputs node.

Lemma check_output_accepts out (w : World NoOutputFromInplaceSelf) :
  ¬ produced_inplace out → NoOutputFromInplace.check_output out w = (Ok (), w).
Proof.
  intros Hno. unfold NoOutputFromInplace.check_output.
  destruct (owner out) as [node|] eqn:Ho; [|done].
  destruct (index_of_elem out _ (owned out node Ho)) as [i Hi]. rewrite Hi.
  destruct (destroy_map (op node)) as [dm|] eqn:Hdm; [|done].
  case_bool_decide; [|done]. exfalso. apply Hno. by exists node, i, dm.
Qed.

Lemma check_output_rejects out (w : World NoOutputFromInplaceSelf) :
  produced_inplace out →
  NoOutputFromInplace.check_output out w
  = (Raise (NoOutputFromInplace.inplace_error out), w).
Proof.
  intros (node & i & dm & Ho & Hi & Hdm & Hin).
  unfold NoOutputFromInplace.check_output. rewrite Ho, Hi, Hdm.
  by rewrite bool_decide_eq_true_2.
Qed.

Lemma check_outputs_accept l (w : World NoOutputFromInplaceSelf) :
  Forall (λ out, ¬ produced_inplace out) l →
  for_each l NoOutputFromInplace.check_output w = (Ok (), w).
Proof.
  induction 1 as [|out l Hout _ IH]; [done|].
  simpl. by rewrite (bind_ok _ _ _ _ _ (check_output_accepts out w Hout)).
Qed.

Lemma check_outputs_reject l1 out l2 (w : World NoOutputFromInplaceSelf) :
  Forall (λ o, ¬ produced_inplace o) l1 → produced_inplace out →
  for_each (l1 ++ out :: l2) NoOutputFromInplace.check_output w
  = (Raise (NoOutputFromInplace.inplace_error out), w).
Proof.
  intros H1 Hout.
  rewrite (for_each_app l1 _ _ w w (check_outputs_accept l1 w H1)).
  simpl. by rewrite (bind_raise _ _ _ _ _ (check_output_rejects out w Hout)).
Qed.

End InplaceOutputs.

Lemma py_slice_default {A} (l : list A) : py_slice l (Some 0%Z) None = l.
Proof.
  unfold py_slice, clip. simpl.
  rewrite Z.min_l by lia. rewrite Z.sub_0_r, Nat2Z.id. simpl.
  by rewrite firstn_all.
Qed.

(** X16. [NoOutputFromInplace.validate], on a graph in which every
    variable is among the outputs of its owner.  The call changes nothing.
    On a graph without [destroyers] it returns [True], whatever the
    outputs.  On a graph with [destroyers] it returns [None] when no
    output of the slice [first_idx:last_idx] is produced in place, and
    raises an [InconsistencyError] that names the first output of the
    slice that is produced in place when there is one; outputs outside
    the slice are not looked at.  With the default bounds the slice is
    the whole list of outputs. *)
Theorem no_output_from_inplace {nodes : Nodes} (w : World NoOutputFromInplaceSelf) :
  (∀ out node, owner out = Some node → out ∈ node_outputs node) →
  let outs := py_slice (outputs (fgraph w)) (first_idx (self w)) (last_idx (self w)) in
  let res := NoOutputFromInplace.validate w in
  res.2 = w ∧
  (hasattr (fgraph w) "destroyers" = false → res.1 = Ok (Some true)) ∧
  (hasattr (fgraph w) "destroyers" = true →
     (Forall (λ out, ¬ produced_inplace out) outs → res.1 = Ok None) ∧
     (∀ l1 out l2, outs = l1 ++ out :: l2 →
        Forall (λ o, ¬ produced_inplace o) l1 → produced_inplace out →
        res.1 = Raise (NoOutputFromInplace.inplace_error out))) ∧
  (first_idx (self w) = Some 0%Z → last_idx (self w) = None →
   outs = outputs (fgraph w)).
Proof.
  intros Howned outs res.
  assert (Hloop : ∀ l, (for_each l NoOutputFromInplace.check_output w).2 = w).
  { intros l. apply (for_each_invariant (λ w1, w1 = w)); [|done].
    intros out w1 ->. unfold NoOutputFromInplace.check_output.
    repeat case_match; done. }
  unfold res, NoOutputFromInplace.validate. munfold. fold outs.
  split_and!.
  - destruct (hasattr (fgraph w) "destroyers"); simpl; [|done].
    specialize (Hloop outs).
    destruct (for_each outs NoOutputFromInplace.check_output w) as [[[]|e] w1]; done.
  - by intros ->.
  - intros ->. simpl. split.
    + intros Hall. by rewrite (check_outputs_accept Howned outs w Hall).
    + intros l1 out l2 -> H1 Hout.
      by rewrite (check_outputs_reject Howned l1 out l2 w H1 Hout).
  - intros Hf Hl. unfold outs. rewrite Hf, Hl. apply py_slice_default.
Qed.

Lemma no_output_from_inplace_witness :
  NoOutputFromInplace.validate (nodes := Demo.nodes) Demo.inplace0
  = (Raise (NoOutputFromInplace.inplace_error 3), Demo.inplace0).
Proof.
  assert (Howned : ∀ out node,
            owner (Nodes := Demo.nodes) out = Some node →
            out ∈ node_outputs (Nodes := Demo.nodes) node).
  { intros out node. simpl.
    destruct (decide (out = 3)) as [->|]; [intros [= <-]; vm_compute; by left|].
    destruct (decide (out = 2)) as [->|]; [intros [= <-]; vm_compute; by left|].
    done. }
  destruct (no_output_from_inplace (nodes := Demo.nodes) Demo.inplace0 Howned)
    as (Hw & _ & Hd & _).
  destruct (Hd ltac:(vm_compute; reflexivity)) as [_ Hr].
  assert (Hp : produced_inplace (nodes := Demo.nodes) 3).
  { exists Demo.n2, 0, {[ 0 ]}. split_and!; vm_compute; reflexivity. }
  specialize (Hr [] 3 [] ltac:(vm_compute; reflexivity) (Forall_nil _) Hp).
  destruct (NoOutputFromInplace.validate Demo.inplace0) as [r w1].
  simpl in Hw, Hr. by rewrite Hw, Hr.
Defined.
